(** * Apefighter: the simulation core of [src/Apefighter.cxx]

    A shallow embedding of the game's update pipeline: the entity records,
    the spawn functions, the three player actions ([playerShoot],
    [playerFireMissile], [playerBomb]), the per-frame [updateGame] and the
    input dispatch of [handleTouch] / [main].

    Modelling conventions.
    - [int] is a 32-bit two's-complement integer, held as a [Z] that every
      arithmetic operation brings back into range ([Int32.wrap]).
    - [float] is kept abstract behind the interface [FloatOps]; every result
      stated for "all games" therefore holds whatever the rounding behaviour
      of the platform is.  Concrete runs use [binary32], the IEEE-754 single
      precision format of [SpecFloat] with each operation rounded on its own.
    - [sinf], [cosf], [atan2f] and the overload picked for [abs] on a float
      are library routines whose results the language does not fix; they form
      the second interface [Libm].
    - [rand()] reads a hidden generator state; it is the field [rng] of the
      game, an infinite sequence of future outputs.
    - The program keeps one global mutable [Game]; it is threaded through a
      small state monad [M].
    - Rendering is output through the SDL renderer and is not part of the
      game.  What the render functions write to the game itself is kept
      ([renderGame_writes]), and [drawPixelText] is embedded as the list of
      the rectangles it fills. *)

From Stdlib Require Import ZArith List Bool Lia.
From Stdlib Require Import Floats.SpecFloat.
From Stdlib Require Ascii.
Import ListNotations.
Open Scope Z_scope.

(** ** 32-bit integers *)

Module Int32.

Definition half : Z := 2147483648.
Definition modulus : Z := 4294967296.
Definition min_int : Z := - half.
Definition max_int : Z := half - 1.

(** The representative of [z] in [min_int .. max_int]. *)
Definition wrap (z : Z) : Z := (z + half) mod modulus - half.

Definition in_range (z : Z) : Prop := min_int <= z <= max_int.

Definition add (a b : Z) : Z := wrap (a + b).
Definition sub (a b : Z) : Z := wrap (a - b).
Definition mul (a b : Z) : Z := wrap (a * b).
(** [/] and [%] of C++ truncate toward zero. *)
Definition div (a b : Z) : Z := wrap (Z.quot a b).
Definition rem (a b : Z) : Z := Z.rem a b.

End Int32.

Arguments Int32.wrap : simpl never.
Arguments Int32.add : simpl never.
Arguments Int32.sub : simpl never.
Arguments Int32.mul : simpl never.
Arguments Int32.div : simpl never.
Arguments Int32.rem : simpl never.

(** ** Constants of the source *)

Definition SCREEN_W : Z := 720.
Definition SCREEN_H : Z := 1600.
(** [HUD_H = (int)(160 * UI_SCALE)] with [UI_SCALE = 2.0f]. *)
Definition HUD_H : Z := 320.
Definition PLAY_H : Z := SCREEN_H - HUD_H.

Inductive GameState : Type :=
  | STATE_MENU | STATE_PLAYING | STATE_PAUSED | STATE_GAMEOVER | STATE_WIN.

Record Color : Type := mkColor { c_r : Z; c_g : Z; c_b : Z; c_a : Z }.

Definition C_FIRE : Color := mkColor 255 140 0 255.
Definition C_BULLET : Color := mkColor 255 255 0 255.
Definition C_GREEN : Color := mkColor 0 255 80 255.
Definition C_PURPLE : Color := mkColor 160 32 240 255.

Record SDL_Rect : Type := mkRect { r_x : Z; r_y : Z; r_w : Z; r_h : Z }.

(** ** The float interface *)

Class FloatOps (F : Type) : Type := {
  (** conversion of an [int] to [float] *)
  of_int : Z -> F;
  (** the [float] literal written as the decimal fraction [n / d] *)
  lit : Z -> Z -> F;
  fadd : F -> F -> F;
  fsub : F -> F -> F;
  fmul : F -> F -> F;
  fdiv : F -> F -> F;
  fneg : F -> F;
  fsqrt : F -> F;
  flt : F -> F -> bool;
  fle : F -> F -> bool;
  (** the cast [(int)x] *)
  to_int : F -> Z
}.

Class Libm (F : Type) : Type := {
  sinf : F -> F;
  cosf : F -> F;
  atan2f : F -> F -> F;
  (** the unqualified call [abs(x)] on a [float] argument *)
  c_abs : F -> F
}.

Declare Scope float_scope.
Delimit Scope float_scope with fl.
Infix "+~" := fadd (at level 50, left associativity) : float_scope.
Infix "-~" := fsub (at level 50, left associativity) : float_scope.
Infix "*~" := fmul (at level 40, left associativity) : float_scope.
Infix "/~" := fdiv (at level 40, left associativity) : float_scope.
Infix "<~" := flt (at level 70, no associativity) : float_scope.
Infix "<=~" := fle (at level 70, no associativity) : float_scope.
Notation "x >~ y" := (flt y x) (at level 70, no associativity) : float_scope.
Notation "x >=~ y" := (fle y x) (at level 70, no associativity) : float_scope.
Notation "'#' n" := (of_int n) (at level 9, n at level 9, format "# n") : float_scope.

Section Model.

Context {F : Type} {FO : FloatOps F} {LM : Libm F}.
Local Open Scope float_scope.

(** ** Math helpers *)

Definition lerp (a b t : F) : F := a +~ (b -~ a) *~ t.

Definition clamp (v lo hi : F) : F :=
  if v <~ lo then lo else if v >~ hi then hi else v.

Definition dist2D (x1 y1 x2 y2 : F) : F :=
  let dx := x2 -~ x1 in
  let dy := y2 -~ y1 in
  fsqrt (dx *~ dx +~ dy *~ dy).

(** [std::max(a, b)] is [(a < b) ? b : a]; [std::min(a, b)] is [(b < a) ? b : a]. *)
Definition fmax (a b : F) : F := if a <~ b then b else a.
Definition imin (a b : Z) : Z := if b <? a then b else a.

(** ** Game objects *)

Record Bullet : Type := mkBullet {
  b_x : F; b_y : F;
  b_vx : F; b_vy : F;
  b_active : bool;
  b_isEnemy : bool;
  b_damage : Z;
  b_col : Color
}.

Record Missile : Type := mkMissile {
  m_x : F; m_y : F;
  m_vx : F; m_vy : F;
  m_targetX : F; m_targetY : F;
  m_active : bool;
  m_isEnemy : bool;
  m_damage : Z;
  m_life : F
}.

Record Explosion : Type := mkExplosion {
  ex_x : F; ex_y : F;
  ex_radius : F;
  ex_maxRadius : F;
  ex_life : F;
  ex_maxLife : F;
  ex_col : Color
}.

Record PowerUp : Type := mkPowerUp {
  pu_x : F; pu_y : F;
  pu_vy : F;
  pu_active : bool;
  pu_type : Z;
  pu_bob : F
}.

Record EnemyJet : Type := mkEnemyJet {
  e_x : F; e_y : F;
  e_vx : F; e_vy : F;
  e_active : bool;
  e_hp : Z; e_maxHp : Z;
  e_type : Z;
  e_shootTimer : F;
  e_shootInterval : F;
  e_moveTimer : F;
  e_depth : F;
  e_score : Z
}.

Record Star : Type := mkStar {
  s_x : F; s_y : F; s_speed : F; s_brightness : F; s_size : Z
}.

Record Cloud : Type := mkCloud {
  cl_x : F; cl_y : F; cl_speed : F; cl_w : F; cl_h : F; cl_alpha : Z
}.

Record Mountain : Type := mkMountain {
  mt_x : F; mt_h : F; mt_speed : F; mt_col : Color
}.

Record Player : Type := mkPlayer {
  p_x : F; p_y : F;
  p_vx : F; p_vy : F;
  p_hp : Z; p_maxHp : Z;
  p_shield : Z; p_maxShield : Z;
  p_shieldActive : bool;
  p_shieldTimer : F;
  p_score : Z;
  p_lives : Z;
  p_level : Z;
  p_kills : Z;
  p_ammo : Z;
  p_bombs : Z;
  p_rapidFire : bool;
  p_rapidTimer : F;
  p_shootCooldown : F;
  p_shootTimer : F;
  p_thrusterAnim : F;
  p_invTimer : F;
  p_dragging : bool;
  p_dragOffX : F; p_dragOffY : F;
  p_tiltX : F; p_tiltY : F
}.

(** The [window], [renderer] and [lastTime] members only serve the platform
    loop and are left out; [rng] is the generator state behind [rand()]. *)
Record Game : Type := mkGame {
  state : GameState;
  player : Player;
  bullets : list Bullet;
  missiles : list Missile;
  explosions : list Explosion;
  powerups : list PowerUp;
  enemies : list EnemyJet;
  stars : list Star;
  clouds : list Cloud;
  mountains : list Mountain;
  dt : F;
  gameTime : F;
  enemySpawnTimer : F;
  enemySpawnInterval : F;
  powerupSpawnTimer : F;
  cloudTimer : F;
  mountainTimer : F;
  bossSpawnTimer : F;
  bossAlive : bool;
  scrollY : F;
  bgScrollY : F;
  menuAnim : F;
  gameoverTimer : F;
  combo : Z;
  comboTimer : F;
  highScore : Z;
  shakeTimer : F;
  shakeAmt : F;
  touchX : Z;
  touchY : Z;
  btnFire : SDL_Rect;
  btnMissile : SDL_Rect;
  btnBomb : SDL_Rect;
  btnPause : SDL_Rect;
  rng : nat -> N
}.

(** ** Field assignment

    [r.f = v] rebuilds the record with one field replaced.  The setter for a
    projection is read off the eta-expansion of the record. *)

Ltac field_setter eta proj :=
  let v := fresh "v" in
  let r := fresh "r" in
  intros v r;
  let body := eval cbv beta delta [eta] in (eta r) in
  let abstracted := eval pattern (proj r) in body in
  lazymatch abstracted with
  | ?f _ => let t := eval cbv beta in (f v) in exact t
  end.

Definition eta_Bullet (b : Bullet) : Bullet :=
  mkBullet (b_x b) (b_y b) (b_vx b) (b_vy b) (b_active b) (b_isEnemy b)
    (b_damage b) (b_col b).

Definition eta_Missile (m : Missile) : Missile :=
  mkMissile (m_x m) (m_y m) (m_vx m) (m_vy m) (m_targetX m) (m_targetY m)
    (m_active m) (m_isEnemy m) (m_damage m) (m_life m).

Definition eta_Explosion (e : Explosion) : Explosion :=
  mkExplosion (ex_x e) (ex_y e) (ex_radius e) (ex_maxRadius e) (ex_life e)
    (ex_maxLife e) (ex_col e).

Definition eta_PowerUp (p : PowerUp) : PowerUp :=
  mkPowerUp (pu_x p) (pu_y p) (pu_vy p) (pu_active p) (pu_type p) (pu_bob p).

Definition eta_EnemyJet (e : EnemyJet) : EnemyJet :=
  mkEnemyJet (e_x e) (e_y e) (e_vx e) (e_vy e) (e_active e) (e_hp e)
    (e_maxHp e) (e_type e) (e_shootTimer e) (e_shootInterval e)
    (e_moveTimer e) (e_depth e) (e_score e).

Definition eta_Star (s : Star) : Star :=
  mkStar (s_x s) (s_y s) (s_speed s) (s_brightness s) (s_size s).

Definition eta_Cloud (c : Cloud) : Cloud :=
  mkCloud (cl_x c) (cl_y c) (cl_speed c) (cl_w c) (cl_h c) (cl_alpha c).

Definition eta_Mountain (m : Mountain) : Mountain :=
  mkMountain (mt_x m) (mt_h m) (mt_speed m) (mt_col m).

Definition eta_Player (p : Player) : Player :=
  mkPlayer (p_x p) (p_y p) (p_vx p) (p_vy p) (p_hp p) (p_maxHp p)
    (p_shield p) (p_maxShield p) (p_shieldActive p) (p_shieldTimer p)
    (p_score p) (p_lives p) (p_level p) (p_kills p) (p_ammo p) (p_bombs p)
    (p_rapidFire p) (p_rapidTimer p) (p_shootCooldown p) (p_shootTimer p)
    (p_thrusterAnim p) (p_invTimer p) (p_dragging p) (p_dragOffX p)
    (p_dragOffY p) (p_tiltX p) (p_tiltY p).

Definition eta_Game (g : Game) : Game :=
  mkGame (state g) (player g) (bullets g) (missiles g) (explosions g)
    (powerups g) (enemies g) (stars g) (clouds g) (mountains g) (dt g)
    (gameTime g) (enemySpawnTimer g) (enemySpawnInterval g)
    (powerupSpawnTimer g) (cloudTimer g) (mountainTimer g) (bossSpawnTimer g)
    (bossAlive g) (scrollY g) (bgScrollY g) (menuAnim g) (gameoverTimer g)
    (combo g) (comboTimer g) (highScore g) (shakeTimer g) (shakeAmt g)
    (touchX g) (touchY g) (btnFire g) (btnMissile g) (btnBomb g) (btnPause g)
    (rng g).

Definition set_b_x : F -> Bullet -> Bullet.
Proof. field_setter eta_Bullet b_x. Defined.
Definition set_b_y : F -> Bullet -> Bullet.
Proof. field_setter eta_Bullet b_y. Defined.
Definition set_b_active : bool -> Bullet -> Bullet.
Proof. field_setter eta_Bullet b_active. Defined.
Definition set_m_x : F -> Missile -> Missile.
Proof. field_setter eta_Missile m_x. Defined.
Definition set_m_y : F -> Missile -> Missile.
Proof. field_setter eta_Missile m_y. Defined.
Definition set_m_vx : F -> Missile -> Missile.
Proof. field_setter eta_Missile m_vx. Defined.
Definition set_m_vy : F -> Missile -> Missile.
Proof. field_setter eta_Missile m_vy. Defined.
Definition set_m_active : bool -> Missile -> Missile.
Proof. field_setter eta_Missile m_active. Defined.
Definition set_m_life : F -> Missile -> Missile.
Proof. field_setter eta_Missile m_life. Defined.
Definition set_ex_radius : F -> Explosion -> Explosion.
Proof. field_setter eta_Explosion ex_radius. Defined.
Definition set_ex_life : F -> Explosion -> Explosion.
Proof. field_setter eta_Explosion ex_life. Defined.
Definition set_pu_y : F -> PowerUp -> PowerUp.
Proof. field_setter eta_PowerUp pu_y. Defined.
Definition set_pu_active : bool -> PowerUp -> PowerUp.
Proof. field_setter eta_PowerUp pu_active. Defined.
Definition set_pu_bob : F -> PowerUp -> PowerUp.
Proof. field_setter eta_PowerUp pu_bob. Defined.
Definition set_e_x : F -> EnemyJet -> EnemyJet.
Proof. field_setter eta_EnemyJet e_x. Defined.
Definition set_e_y : F -> EnemyJet -> EnemyJet.
Proof. field_setter eta_EnemyJet e_y. Defined.
Definition set_e_vx : F -> EnemyJet -> EnemyJet.
Proof. field_setter eta_EnemyJet e_vx. Defined.
Definition set_e_vy : F -> EnemyJet -> EnemyJet.
Proof. field_setter eta_EnemyJet e_vy. Defined.
Definition set_e_active : bool -> EnemyJet -> EnemyJet.
Proof. field_setter eta_EnemyJet e_active. Defined.
Definition set_e_hp : Z -> EnemyJet -> EnemyJet.
Proof. field_setter eta_EnemyJet e_hp. Defined.
Definition set_e_shootTimer : F -> EnemyJet -> EnemyJet.
Proof. field_setter eta_EnemyJet e_shootTimer. Defined.
Definition set_e_moveTimer : F -> EnemyJet -> EnemyJet.
Proof. field_setter eta_EnemyJet e_moveTimer. Defined.
Definition set_s_x : F -> Star -> Star.
Proof. field_setter eta_Star s_x. Defined.
Definition set_s_y : F -> Star -> Star.
Proof. field_setter eta_Star s_y. Defined.
Definition set_cl_x : F -> Cloud -> Cloud.
Proof. field_setter eta_Cloud cl_x. Defined.
Definition set_cl_y : F -> Cloud -> Cloud.
Proof. field_setter eta_Cloud cl_y. Defined.
Definition set_mt_x : F -> Mountain -> Mountain.
Proof. field_setter eta_Mountain mt_x. Defined.
Definition set_mt_h : F -> Mountain -> Mountain.
Proof. field_setter eta_Mountain mt_h. Defined.
Definition set_p_x : F -> Player -> Player.
Proof. field_setter eta_Player p_x. Defined.
Definition set_p_y : F -> Player -> Player.
Proof. field_setter eta_Player p_y. Defined.
Definition set_p_hp : Z -> Player -> Player.
Proof. field_setter eta_Player p_hp. Defined.
Definition set_p_shield : Z -> Player -> Player.
Proof. field_setter eta_Player p_shield. Defined.
Definition set_p_shieldActive : bool -> Player -> Player.
Proof. field_setter eta_Player p_shieldActive. Defined.
Definition set_p_shieldTimer : F -> Player -> Player.
Proof. field_setter eta_Player p_shieldTimer. Defined.
Definition set_p_score : Z -> Player -> Player.
Proof. field_setter eta_Player p_score. Defined.
Definition set_p_lives : Z -> Player -> Player.
Proof. field_setter eta_Player p_lives. Defined.
Definition set_p_level : Z -> Player -> Player.
Proof. field_setter eta_Player p_level. Defined.
Definition set_p_kills : Z -> Player -> Player.
Proof. field_setter eta_Player p_kills. Defined.
Definition set_p_ammo : Z -> Player -> Player.
Proof. field_setter eta_Player p_ammo. Defined.
Definition set_p_bombs : Z -> Player -> Player.
Proof. field_setter eta_Player p_bombs. Defined.
Definition set_p_rapidFire : bool -> Player -> Player.
Proof. field_setter eta_Player p_rapidFire. Defined.
Definition set_p_rapidTimer : F -> Player -> Player.
Proof. field_setter eta_Player p_rapidTimer. Defined.
Definition set_p_shootTimer : F -> Player -> Player.
Proof. field_setter eta_Player p_shootTimer. Defined.
Definition set_p_thrusterAnim : F -> Player -> Player.
Proof. field_setter eta_Player p_thrusterAnim. Defined.
Definition set_p_invTimer : F -> Player -> Player.
Proof. field_setter eta_Player p_invTimer. Defined.
Definition set_p_dragging : bool -> Player -> Player.
Proof. field_setter eta_Player p_dragging. Defined.
Definition set_p_tiltX : F -> Player -> Player.
Proof. field_setter eta_Player p_tiltX. Defined.
Definition set_state : GameState -> Game -> Game.
Proof. field_setter eta_Game state. Defined.
Definition set_player : Player -> Game -> Game.
Proof. field_setter eta_Game player. Defined.
Definition set_bullets : (list Bullet) -> Game -> Game.
Proof. field_setter eta_Game bullets. Defined.
Definition set_missiles : (list Missile) -> Game -> Game.
Proof. field_setter eta_Game missiles. Defined.
Definition set_explosions : (list Explosion) -> Game -> Game.
Proof. field_setter eta_Game explosions. Defined.
Definition set_powerups : (list PowerUp) -> Game -> Game.
Proof. field_setter eta_Game powerups. Defined.
Definition set_enemies : (list EnemyJet) -> Game -> Game.
Proof. field_setter eta_Game enemies. Defined.
Definition set_stars : (list Star) -> Game -> Game.
Proof. field_setter eta_Game stars. Defined.
Definition set_clouds : (list Cloud) -> Game -> Game.
Proof. field_setter eta_Game clouds. Defined.
Definition set_mountains : (list Mountain) -> Game -> Game.
Proof. field_setter eta_Game mountains. Defined.
Definition set_gameTime : F -> Game -> Game.
Proof. field_setter eta_Game gameTime. Defined.
Definition set_enemySpawnTimer : F -> Game -> Game.
Proof. field_setter eta_Game enemySpawnTimer. Defined.
Definition set_powerupSpawnTimer : F -> Game -> Game.
Proof. field_setter eta_Game powerupSpawnTimer. Defined.
Definition set_bossAlive : bool -> Game -> Game.
Proof. field_setter eta_Game bossAlive. Defined.
Definition set_gameoverTimer : F -> Game -> Game.
Proof. field_setter eta_Game gameoverTimer. Defined.
Definition set_combo : Z -> Game -> Game.
Proof. field_setter eta_Game combo. Defined.
Definition set_comboTimer : F -> Game -> Game.
Proof. field_setter eta_Game comboTimer. Defined.
Definition set_highScore : Z -> Game -> Game.
Proof. field_setter eta_Game highScore. Defined.
Definition set_shakeTimer : F -> Game -> Game.
Proof. field_setter eta_Game shakeTimer. Defined.
Definition set_shakeAmt : F -> Game -> Game.
Proof. field_setter eta_Game shakeAmt. Defined.
Definition set_touchX : Z -> Game -> Game.
Proof. field_setter eta_Game touchX. Defined.
Definition set_touchY : Z -> Game -> Game.
Proof. field_setter eta_Game touchY. Defined.
Definition set_rng : (nat -> N) -> Game -> Game.
Proof. field_setter eta_Game rng. Defined.
Definition set_dt : F -> Game -> Game.
Proof. field_setter eta_Game dt. Defined.
Definition set_menuAnim : F -> Game -> Game.
Proof. field_setter eta_Game menuAnim. Defined.

(** ** The state monad over the global [Game] *)

Definition M (A : Type) : Type := Game -> A * Game.

Definition ret {A : Type} (a : A) : M A := fun g => (a, g).

Definition bind {A B : Type} (m : M A) (k : A -> M B) : M B :=
  fun g => let r := m g in k (fst r) (snd r).

Definition get : M Game := fun g => (g, g).

Definition modify (f : Game -> Game) : M unit := fun g => (tt, f g).

Definition modify_player (f : Player -> Player) : M unit :=
  modify (fun g => set_player (f (player g)) g).

Definition exec {A : Type} (m : M A) (g : Game) : Game := snd (m g).

Notation "x <- m ;; k" := (bind m (fun x => k))
  (at level 61, m at next level, right associativity).
Notation "m ;; k" := (bind m (fun _ => k))
  (at level 61, right associativity).

Definition when (c : bool) (m : M unit) : M unit := if c then m else ret tt.

(** [for (auto& a : v) body]: the body may rewrite the element it visits and
    any part of the game other than the vector being walked. *)
Fixpoint for_each {A : Type} (body : A -> M A) (l : list A) : M (list A) :=
  match l with
  | [] => ret []
  | a :: rest =>
      a' <- body a ;;
      rest' <- for_each body rest ;;
      ret (a' :: rest')
  end.

(** The same loop nested inside the visit of an outer element [s], which
    the body may rewrite as well. *)
Fixpoint for_each_with {S A : Type} (body : S -> A -> M (S * A))
    (s : S) (l : list A) : M (S * list A) :=
  match l with
  | [] => ret (s, [])
  | a :: rest =>
      r <- body s a ;;
      r' <- for_each_with body (fst r) rest ;;
      ret (fst r', snd r :: snd r')
  end.

(** [rand()]: the next output of the generator, in [0 .. RAND_MAX]. *)
Definition RAND_MAX : Z := 2147483647.

Definition rand : M Z :=
  fun g => (Z.of_N (rng g 0%nat) mod (RAND_MAX + 1),
            set_rng (fun n => rng g (S n)) g).

(** ** Spawn functions *)

Definition spawnExplosion (x y sz : F) (col : Color) : M unit :=
  modify (fun g =>
    let e := mkExplosion x y (sz *~ lit 1 10) sz (lit 5 10) (lit 5 10) col in
    set_shakeAmt (sz *~ lit 5 10)
      (set_shakeTimer (lit 2 10) (set_explosions (explosions g ++ [e]) g))).

Definition spawnBullet (x y vx vy : F) (isEnemy : bool) (col : Color)
    (dmg : Z) : M unit :=
  modify (fun g =>
    set_bullets (bullets g ++ [mkBullet x y vx vy true isEnemy dmg col]) g).

Definition spawnMissile (x y tx ty : F) (isEnemy : bool) (dmg : Z) : M unit :=
  modify (fun g =>
    let dx := tx -~ x in
    let dy := ty -~ y in
    let len := fsqrt (dx *~ dx +~ dy *~ dy) in
    let dx' := if len >~ #0 then dx /~ len else dx in
    let dy' := if len >~ #0 then dy /~ len else dy in
    let m := mkMissile x y (dx' *~ lit 4000 10) (dy' *~ lit 4000 10) tx ty
               true isEnemy dmg (lit 30 10) in
    set_missiles (missiles g ++ [m]) g).

Definition spawnPowerup (x y : F) : M unit :=
  r <- rand ;;
  modify (fun g =>
    set_powerups
      (powerups g ++ [mkPowerUp x y (lit 800 10) true (Int32.rem r 5) #0]) g).

(** The [switch] has no default: for a [type] outside [0 .. 3] the members
    it would have set stay uninitialised; they are zero here.  Every caller
    passes a value in [0 .. 3]. *)
Definition spawnEnemy (type : Z) : M unit :=
  r1 <- rand ;;
  let x0 := lit 600 10 +~ #(Int32.rem r1 (SCREEN_W - 120)) in
  let y0 := fneg (lit 800 10) in
  r2 <- rand ;;
  let depth := lit 50 10 +~ #(Int32.rem r2 10) in
  let mk x hp vx vy interval score :=
    mkEnemyJet x y0 vx vy true hp hp type interval interval #0 depth score in
  e <- (if type =? 0 then
          r <- rand ;;
          ret (mk x0 30 (if Int32.rem r 2 =? 0 then fneg (lit 600 10) else lit 600 10)
                 (lit 800 10) (lit 15 10) 100)
        else if type =? 1 then
          r <- rand ;;
          ret (mk x0 20 (if Int32.rem r 2 =? 0 then fneg (lit 1200 10) else lit 1200 10)
                 (lit 1600 10) (lit 10 10) 200)
        else if type =? 2 then
          r <- rand ;;
          ret (mk x0 80 (if Int32.rem r 2 =? 0 then fneg (lit 400 10) else lit 400 10)
                 (lit 600 10) (lit 8 10) 500)
        else if type =? 3 then
          ret (mk (#SCREEN_W /~ lit 20 10) 500 (lit 1000 10) (lit 300 10)
                 (lit 4 10) 5000)
        else
          ret (mk x0 0 #0 #0 #0 0)) ;;
  modify (fun g => set_enemies (enemies g ++ [e]) g).

(** ** Player actions *)

Definition playerShoot : M unit :=
  g <- get ;;
  let p := player g in
  if p_shootTimer p >~ #0 then ret tt
  else
    let cd := if p_rapidFire p then lit 5 100 else p_shootCooldown p in
    modify_player (set_p_shootTimer cd) ;;
    spawnBullet (p_x p -~ #15) (p_y p -~ #40) #0 #(-700) false C_BULLET 10 ;;
    spawnBullet (p_x p +~ #15) (p_y p -~ #40) #0 #(-700) false C_BULLET 10 ;;
    modify (set_shakeAmt #2) ;;
    modify (set_shakeTimer (lit 3 100)).

(** The position of the nearest active enemy seen so far, with its
    distance: the loop of [playerFireMissile]. *)
Definition nearest_from (x y : F) (acc : F * F * F) (e : EnemyJet) : F * F * F :=
  let '(nearDist, tx, ty) := acc in
  if negb (e_active e) then acc
  else
    let d := dist2D x y (e_x e) (e_y e) in
    if d <~ nearDist then (d, e_x e, e_y e) else acc.

Definition playerFireMissile : M unit :=
  g <- get ;;
  let p := player g in
  if p_ammo p <=? 0 then ret tt
  else
    modify_player (set_p_ammo (Int32.sub (p_ammo p) 1)) ;;
    let '(_, tx, ty) :=
      fold_left (nearest_from (p_x p) (p_y p)) (enemies g)
        (#9999, p_x p, #(-100)) in
    spawnMissile (p_x p) (p_y p -~ #40) tx ty false 50.

Definition bomb_enemy (e : EnemyJet) : M EnemyJet :=
  if negb (e_active e) then ret e
  else
    let e := set_e_hp (Int32.sub (e_hp e) 150) e in
    spawnExplosion (e_x e) (e_y e) #60 C_FIRE ;;
    if e_hp e <=? 0 then
      modify_player (fun p => set_p_score (Int32.add (p_score p) (e_score e)) p) ;;
      modify_player (fun p => set_p_kills (Int32.add (p_kills p) 1) p) ;;
      modify (fun g => set_combo (Int32.add (combo g) 1) g) ;;
      modify (set_comboTimer (lit 20 10)) ;;
      ret (set_e_active false e)
    else ret e.

Definition playerBomb : M unit :=
  g <- get ;;
  if p_bombs (player g) <=? 0 then ret tt
  else
    modify_player (fun p => set_p_bombs (Int32.sub (p_bombs p) 1) p) ;;
    es <- for_each bomb_enemy (enemies g) ;;
    modify (set_enemies es) ;;
    modify (set_shakeAmt #20) ;;
    modify (set_shakeTimer (lit 5 10)) ;;
    spawnExplosion #(Int32.div SCREEN_W 2) #(Int32.div PLAY_H 2) #300 C_PURPLE.

(** ** The per-frame update

    [updateGame] is one long function; its blocks are taken in the order and
    under the headings of the source. *)

(** Timers *)
Definition update_timers : M unit :=
  g <- get ;;
  let d := dt g in
  modify_player (fun p => set_p_shootTimer (fmax (lit 0 10) (p_shootTimer p -~ d)) p) ;;
  modify_player (fun p => set_p_invTimer (fmax (lit 0 10) (p_invTimer p -~ d)) p) ;;
  modify_player (fun p => set_p_rapidTimer (fmax (lit 0 10) (p_rapidTimer p -~ d)) p) ;;
  modify_player (fun p => if p_rapidTimer p <=~ #0 then set_p_rapidFire false p else p) ;;
  modify_player (fun p => set_p_thrusterAnim (p_thrusterAnim p +~ d) p) ;;
  modify_player (fun p => set_p_tiltX (clamp (p_tiltX p *~ lit 9 10) #(-1) #1) p) ;;
  modify (fun g => set_shakeTimer (fmax (lit 0 10) (shakeTimer g -~ d)) g) ;;
  modify (fun g => set_comboTimer (fmax (lit 0 10) (comboTimer g -~ d)) g) ;;
  modify (fun g => if comboTimer g <=~ #0 then set_combo 0 g else g) ;;
  modify (fun g => set_gameTime (gameTime g +~ d) g).

(** Player movement (smooth follow touch), then auto-fire when dragging *)
Definition move_player : M unit :=
  g <- get ;;
  let d := dt g in
  modify_player (fun p =>
    if p_dragging p then
      let dx := #(touchX g) -~ p_x p in
      let dy := #(touchY g) -~ p_y p in
      let p := set_p_tiltX (clamp (dx /~ lit 1000 10) #(-1) #1) p in
      let p := set_p_x (p_x p +~ dx *~ d *~ lit 80 10) p in
      set_p_y (p_y p +~ dy *~ d *~ lit 80 10) p
    else p) ;;
  modify_player (fun p => set_p_x (clamp (p_x p) #40 #(SCREEN_W - 40)) p) ;;
  modify_player (fun p => set_p_y (clamp (p_y p) #60 #(PLAY_H - 80)) p) ;;
  g <- get ;;
  when (p_dragging (player g)) playerShoot.

(** Background scroll *)
Definition scroll_star (d : F) (s : Star) : M Star :=
  let s := set_s_y (s_y s +~ s_speed s *~ d) s in
  if s_y s >~ #PLAY_H then
    let s := set_s_y #0 s in
    r <- rand ;;
    ret (set_s_x #(Int32.rem r SCREEN_W) s)
  else ret s.

Definition scroll_cloud (d : F) (c : Cloud) : M Cloud :=
  let c := set_cl_y (cl_y c +~ cl_speed c *~ d) c in
  if cl_y c >~ #PLAY_H then
    let c := set_cl_y (fneg (cl_h c)) c in
    r <- rand ;;
    ret (set_cl_x #(Int32.rem r SCREEN_W) c)
  else ret c.

Definition scroll_mountain (d : F) (m : Mountain) : M Mountain :=
  let m := set_mt_x (mt_x m -~ mt_speed m *~ d) m in
  if mt_x m <~ #(-100) then
    let m := set_mt_x #(SCREEN_W + 50) m in
    r <- rand ;;
    ret (set_mt_h #(Int32.add 100 (Int32.rem r 150)) m)
  else ret m.

Definition scroll_background : M unit :=
  g <- get ;;
  let d := dt g in
  ss <- for_each (scroll_star d) (stars g) ;;
  modify (set_stars ss) ;;
  cs <- for_each (scroll_cloud d) (clouds g) ;;
  modify (set_clouds cs) ;;
  ms <- for_each (scroll_mountain d) (mountains g) ;;
  modify (set_mountains ms).

(** Enemy spawning *)
Definition spawn_enemies : M unit :=
  modify (fun g => set_enemySpawnTimer (enemySpawnTimer g +~ dt g) g) ;;
  g <- get ;;
  let spawnInt :=
    fmax (lit 5 10) (enemySpawnInterval g -~ gameTime g *~ lit 2 100) in
  when (enemySpawnTimer g >=~ spawnInt)
    (modify (set_enemySpawnTimer #0) ;;
     type <- (if gameTime g >~ #60 then r <- rand ;; ret (Int32.rem r 3)
              else if gameTime g >~ #30 then r <- rand ;; ret (Int32.rem r 2)
              else ret 0) ;;
     when (negb (bossAlive g)) (spawnEnemy type)).

(** Boss spawn *)
Definition spawn_boss : M unit :=
  g <- get ;;
  when ((gameTime g >~ #90) && negb (bossAlive g))
    (modify (set_bossAlive true) ;;
     spawnEnemy 3).

(** Powerup spawning *)
Definition spawn_powerups : M unit :=
  modify (fun g => set_powerupSpawnTimer (powerupSpawnTimer g +~ dt g) g) ;;
  g <- get ;;
  when (powerupSpawnTimer g >~ lit 120 10)
    (modify (set_powerupSpawnTimer #0) ;;
     r <- rand ;;
     spawnPowerup #(Int32.add 60 (Int32.rem r (SCREEN_W - 120))) #(-50)).

(** Update bullets: a player bullet against one enemy of the pool *)
Definition bullet_vs_enemy (b : Bullet) (e : EnemyJet) : M (Bullet * EnemyJet) :=
  if negb (e_active e) then ret (b, e)
  else
    let hitR := if e_type e =? 3 then 50 else 30 in
    if dist2D (b_x b) (b_y b) (e_x e) (e_y e) <~ #hitR then
      let b := set_b_active false b in
      let e := set_e_hp (Int32.sub (e_hp e) (b_damage b)) e in
      spawnExplosion (b_x b) (b_y b) #20 C_FIRE ;;
      if e_hp e <=? 0 then
        let e := set_e_active false e in
        modify (fun g =>
          set_player
            (set_p_score
               (Int32.add (p_score (player g))
                  (Int32.mul (e_score e) (Int32.add 1 (Int32.div (combo g) 5))))
               (player g)) g) ;;
        modify_player (fun p => set_p_kills (Int32.add (p_kills p) 1) p) ;;
        modify (fun g => set_combo (Int32.add (combo g) 1) g) ;;
        modify (set_comboTimer (lit 20 10)) ;;
        when (e_type e =? 3)
          (modify (set_bossAlive false) ;;
           modify_player (fun p => set_p_level (Int32.add (p_level p) 1) p)) ;;
        spawnExplosion (e_x e) (e_y e) #(if e_type e =? 3 then 120 else 50) C_FIRE ;;
        r <- rand ;;
        when (Int32.rem r 3 =? 0) (spawnPowerup (e_x e) (e_y e)) ;;
        ret (b, e)
      else ret (b, e)
    else ret (b, e).

(** Update bullets: an enemy bullet against the player *)
Definition bullet_vs_player (b : Bullet) : M Bullet :=
  g <- get ;;
  let p := player g in
  if (p_invTimer p <=~ #0) && (dist2D (b_x b) (b_y b) (p_x p) (p_y p) <~ #30) then
    let b := set_b_active false b in
    (if p_shieldActive p && (p_shield p >? 0) then
       modify_player (fun p => set_p_shield (Int32.sub (p_shield p) (b_damage b)) p) ;;
       modify_player (fun p => if p_shield p <? 0 then set_p_shield 0 p else p)
     else
       modify_player (fun p => set_p_hp (Int32.sub (p_hp p) (b_damage b)) p)) ;;
    modify_player (set_p_invTimer (lit 5 10)) ;;
    spawnExplosion (p_x p) (p_y p) #25 (mkColor 100 100 255 255) ;;
    g <- get ;;
    when (p_hp (player g) <=? 0)
      (modify_player (fun p => set_p_lives (Int32.sub (p_lives p) 1) p) ;;
       g <- get ;;
       if p_lives (player g) <=? 0 then
         when (p_score (player g) >? highScore g)
           (modify (set_highScore (p_score (player g)))) ;;
         modify (set_state STATE_GAMEOVER) ;;
         modify (set_gameoverTimer #0)
       else
         modify_player (fun p => set_p_hp (p_maxHp p) p) ;;
         modify_player (set_p_invTimer (lit 30 10))) ;;
    ret b
  else ret b.

Definition bullet_out_of_bounds (b : Bullet) : bool :=
  (b_y b <~ #(-20)) || (b_y b >~ #(PLAY_H + 20))
  || (b_x b <~ #(-20)) || (b_x b >~ #(SCREEN_W + 20)).

Definition update_bullet (b : Bullet) : M Bullet :=
  if negb (b_active b) then ret b
  else
    g <- get ;;
    let b := set_b_x (b_x b +~ b_vx b *~ dt g) b in
    let b := set_b_y (b_y b +~ b_vy b *~ dt g) b in
    let b := if bullet_out_of_bounds b then set_b_active false b else b in
    if negb (b_isEnemy b) then
      r <- for_each_with bullet_vs_enemy b (enemies g) ;;
      modify (set_enemies (snd r)) ;;
      ret (fst r)
    else bullet_vs_player b.

Definition update_bullets : M unit :=
  g <- get ;;
  bs <- for_each update_bullet (bullets g) ;;
  modify (set_bullets bs).

(** Update missiles: homing.  [nearer m acc e] is one turn of the search for
    the active enemy nearest to [m]; [steer] re-aims the velocity. *)
Definition nearer (m : Missile) (acc : F * option EnemyJet) (e : EnemyJet)
    : F * option EnemyJet :=
  if negb (e_active e) then acc
  else
    let d := dist2D (m_x m) (m_y m) (e_x e) (e_y e) in
    if d <~ fst acc then (d, Some e) else acc.

Definition homing_target (m : Missile) (es : list EnemyJet) : option EnemyJet :=
  snd (fold_left (nearer m) es (#9999, None)).

Definition steer (d : F) (m : Missile) (target : EnemyJet) : Missile :=
  let dx := e_x target -~ m_x m in
  let dy := e_y target -~ m_y m in
  let len := fsqrt (dx *~ dx +~ dy *~ dy) in
  let dx' := if len >~ #0 then dx /~ len else dx in
  let dy' := if len >~ #0 then dy /~ len else dy in
  let m := set_m_vx (lerp (m_vx m) (dx' *~ #500) (d *~ #3)) m in
  set_m_vy (lerp (m_vy m) (dy' *~ #500) (d *~ #3)) m.

Definition homing (d : F) (es : list EnemyJet) (m : Missile) : Missile :=
  if negb (m_isEnemy m) && negb (match es with [] => true | _ => false end) then
    match homing_target m es with
    | Some target => steer d m target
    | None => m
    end
  else m.

(** Update missiles: a player missile against one enemy of the pool *)
Definition missile_vs_enemy (m : Missile) (e : EnemyJet) : M (Missile * EnemyJet) :=
  if negb (e_active e) then ret (m, e)
  else
    let hitR := if e_type e =? 3 then 60 else 35 in
    if dist2D (m_x m) (m_y m) (e_x e) (e_y e) <~ #hitR then
      let m := set_m_active false m in
      let e := set_e_hp (Int32.sub (e_hp e) (m_damage m)) e in
      spawnExplosion (m_x m) (m_y m) #60 C_FIRE ;;
      if e_hp e <=? 0 then
        let e := set_e_active false e in
        modify_player (fun p =>
          set_p_score (Int32.add (p_score p) (Int32.mul (e_score e) 2)) p) ;;
        modify_player (fun p => set_p_kills (Int32.add (p_kills p) 1) p) ;;
        when (e_type e =? 3) (modify (set_bossAlive false)) ;;
        r <- rand ;;
        when (Int32.rem r 2 =? 0) (spawnPowerup (e_x e) (e_y e)) ;;
        ret (m, e)
      else ret (m, e)
    else ret (m, e).

(** Update missiles: an enemy missile against the player *)
Definition missile_vs_player (m : Missile) : M Missile :=
  g <- get ;;
  let p := player g in
  if (p_invTimer p <=~ #0) && (dist2D (m_x m) (m_y m) (p_x p) (p_y p) <~ #35) then
    let m := set_m_active false m in
    modify_player (fun p => set_p_hp (Int32.sub (p_hp p) (m_damage m)) p) ;;
    modify_player (set_p_invTimer (lit 10 10)) ;;
    spawnExplosion (p_x p) (p_y p) #60 (mkColor 100 100 255 255) ;;
    g <- get ;;
    when (p_hp (player g) <=? 0)
      (modify_player (fun p => set_p_lives (Int32.sub (p_lives p) 1) p) ;;
       g <- get ;;
       if p_lives (player g) <=? 0 then
         modify (set_state STATE_GAMEOVER) ;;
         modify (set_gameoverTimer #0)
       else
         modify_player (fun p => set_p_hp (p_maxHp p) p) ;;
         modify_player (set_p_invTimer (lit 30 10))) ;;
    ret m
  else ret m.

Definition missile_out_of_bounds (m : Missile) : bool :=
  (m_y m <~ #(-50)) || (m_y m >~ #(PLAY_H + 50))
  || (m_x m <~ #(-50)) || (m_x m >~ #(SCREEN_W + 50)).

Definition update_missile (m : Missile) : M Missile :=
  if negb (m_active m) then ret m
  else
    g <- get ;;
    let d := dt g in
    let m := set_m_life (m_life m -~ d) m in
    if m_life m <=~ #0 then ret (set_m_active false m)
    else
      let m := homing d (enemies g) m in
      let m := set_m_x (m_x m +~ m_vx m *~ d) m in
      let m := set_m_y (m_y m +~ m_vy m *~ d) m in
      m <- (if negb (m_isEnemy m) then
              r <- for_each_with missile_vs_enemy m (enemies g) ;;
              modify (set_enemies (snd r)) ;;
              ret (fst r)
            else missile_vs_player m) ;;
      ret (if missile_out_of_bounds m then set_m_active false m else m).

Definition update_missiles : M unit :=
  g <- get ;;
  ms <- for_each update_missile (missiles g) ;;
  modify (set_missiles ms).

(** Update enemies *)
Definition enemy_move (d : F) (e : EnemyJet) : EnemyJet :=
  if e_type e =? 3 then
    let e := set_e_x (e_x e +~ e_vx e *~ d) e in
    let e := set_e_y (e_y e +~ e_vy e *~ d *~ lit 2 10) e in
    let e := if (e_x e <~ #80) || (e_x e >~ #(SCREEN_W - 80))
             then set_e_vx (fneg (e_vx e)) e else e in
    let e := if e_y e >~ #200 then set_e_vy (fneg (c_abs (e_vy e))) e else e in
    if e_y e <~ #50 then set_e_vy (c_abs (e_vy e)) e else e
  else
    let e := set_e_x (e_x e +~ e_vx e *~ d) e in
    let e := set_e_y (e_y e +~ e_vy e *~ d) e in
    let e := if (e_x e <~ #30) || (e_x e >~ #(SCREEN_W - 30))
             then set_e_vx (fneg (e_vx e)) e else e in
    set_e_x (e_x e +~ sinf (e_moveTimer e *~ #2) *~ #30 *~ d) e.

(** The five extra bullets of the boss, [i = -2 .. 2] *)
Definition boss_spread (e : EnemyJet) (dx dy : F) : M unit :=
  let shot (i : Z) :=
    let a := atan2f dy dx +~ #i *~ lit 3 10 in
    spawnBullet (e_x e) (e_y e) (cosf a *~ #300) (sinf a *~ #300) true
      (mkColor 255 100 0 255) 15 in
  shot (-2) ;; shot (-1) ;; shot 0 ;; shot 1 ;; shot 2.

Definition enemy_shoot (e : EnemyJet) : M unit :=
  g <- get ;;
  let p := player g in
  let dx := p_x p -~ e_x e in
  let dy := p_y p -~ e_y e in
  let len := fsqrt (dx *~ dx +~ dy *~ dy) in
  let dx := if len >~ #0 then dx /~ len else dx in
  let dy := if len >~ #0 then dy /~ len else dy in
  let spd := if e_type e =? 3 then lit 3500 10 else lit 2500 10 in
  spawnBullet (e_x e) (e_y e) (dx *~ spd) (dy *~ spd) true
    (mkColor 255 50 50 255) (if e_type e =? 3 then 20 else 10) ;;
  when ((e_type e =? 3) && (gameTime g >~ #60)) (boss_spread e dx dy) ;;
  (if e_type e =? 2 then
     r <- rand ;;
     when (Int32.rem r 3 =? 0)
       (spawnMissile (e_x e) (e_y e) (p_x p) (p_y p) true 25)
   else ret tt).

Definition update_enemy (e : EnemyJet) : M EnemyJet :=
  if negb (e_active e) then ret e
  else
    g <- get ;;
    let d := dt g in
    let e := set_e_moveTimer (e_moveTimer e +~ d) e in
    let e := enemy_move d e in
    if e_y e >~ #(PLAY_H + 100) then ret (set_e_active false e)
    else
      let e := set_e_shootTimer (e_shootTimer e -~ d) e in
      if e_shootTimer e <=~ #0 then
        let e := set_e_shootTimer (e_shootInterval e) e in
        enemy_shoot e ;;
        ret e
      else ret e.

Definition update_enemies : M unit :=
  g <- get ;;
  es <- for_each update_enemy (enemies g) ;;
  modify (set_enemies es).

(** Update explosions *)
Definition update_explosion (d : F) (ex : Explosion) : Explosion :=
  let ex := set_ex_life (ex_life ex -~ d) ex in
  let t := lit 10 10 -~ ex_life ex /~ ex_maxLife ex in
  set_ex_radius (ex_maxRadius ex *~ t) ex.

Definition update_explosions : M unit :=
  modify (fun g =>
    set_explosions
      (filter (fun e => negb (ex_life e <=~ #0))
         (map (update_explosion (dt g)) (explosions g))) g).

(** Cleanup: [erase(remove_if(...))] keeps the elements that are still active *)
Definition cleanup : M unit :=
  modify (fun g => set_bullets (filter b_active (bullets g)) g) ;;
  modify (fun g => set_missiles (filter m_active (missiles g)) g) ;;
  modify (fun g => set_enemies (filter e_active (enemies g)) g).

(** Update powerups *)
Definition collect (pu : PowerUp) : M unit :=
  (if pu_type pu =? 0 then
     modify_player (fun p => set_p_hp (imin (p_maxHp p) (Int32.add (p_hp p) 30)) p)
   else if pu_type pu =? 1 then
     modify_player (fun p =>
       set_p_shield (imin (p_maxShield p) (Int32.add (p_shield p) 30)) p) ;;
     modify_player (set_p_shieldActive true) ;;
     modify_player (set_p_shieldTimer (lit 50 10))
   else if pu_type pu =? 2 then
     modify_player (set_p_rapidFire true) ;;
     modify_player (set_p_rapidTimer (lit 80 10))
   else if pu_type pu =? 3 then
     modify_player (fun p => set_p_ammo (Int32.add (p_ammo p) 5) p)
   else if pu_type pu =? 4 then
     modify_player (fun p => set_p_bombs (Int32.add (p_bombs p) 1) p)
   else ret tt) ;;
  spawnExplosion (pu_x pu) (pu_y pu) #30 C_GREEN ;;
  modify_player (fun p => set_p_score (Int32.add (p_score p) 50) p).

Definition update_powerup (pu : PowerUp) : M PowerUp :=
  if negb (pu_active pu) then ret pu
  else
    g <- get ;;
    let pu := set_pu_y (pu_y pu +~ pu_vy pu *~ dt g) pu in
    let pu := set_pu_bob (pu_bob pu +~ dt g) pu in
    if pu_y pu >~ #(PLAY_H + 50) then ret (set_pu_active false pu)
    else
      let p := player g in
      if dist2D (pu_x pu) (pu_y pu) (p_x p) (p_y p) <~ #40 then
        let pu := set_pu_active false pu in
        collect pu ;;
        ret pu
      else ret pu.

Definition update_powerups : M unit :=
  g <- get ;;
  ps <- for_each update_powerup (powerups g) ;;
  modify (set_powerups ps) ;;
  modify (fun g => set_powerups (filter pu_active (powerups g)) g).

(** Shield timer and level progression *)
Definition shield_and_level : M unit :=
  g <- get ;;
  modify_player (fun p => set_p_shieldTimer (p_shieldTimer p -~ dt g) p) ;;
  modify_player (fun p => if p_shieldTimer p <=~ #0 then set_p_shieldActive false p else p) ;;
  modify_player (set_p_level (Int32.add 1 (to_int (gameTime g /~ #30)))).

Definition updateGame : M unit :=
  update_timers ;;
  move_player ;;
  scroll_background ;;
  spawn_enemies ;;
  spawn_boss ;;
  spawn_powerups ;;
  update_bullets ;;
  update_missiles ;;
  update_enemies ;;
  update_explosions ;;
  cleanup ;;
  update_powerups ;;
  shield_and_level.

(** ** Initialisation *)

Fixpoint repeat_M {A : Type} (n : nat) (m : M A) : M (list A) :=
  match n with
  | O => ret []
  | S k => a <- m ;; rest <- repeat_M k m ;; ret (a :: rest)
  end.

Definition initStars : M unit :=
  ss <- repeat_M 150
          (r1 <- rand ;; r2 <- rand ;; r3 <- rand ;; r4 <- rand ;; r5 <- rand ;;
           ret (mkStar #(Int32.rem r1 SCREEN_W) #(Int32.rem r2 PLAY_H)
                  (lit 500 10 +~ #(Int32.rem r3 150))
                  (lit 3 10 +~ #(Int32.rem r4 70) /~ lit 1000 10)
                  (Int32.add 1 (Int32.rem r5 3)))) ;;
  modify (set_stars ss).

Definition initClouds : M unit :=
  cs <- repeat_M 8
          (r1 <- rand ;; r2 <- rand ;; r3 <- rand ;; r4 <- rand ;; r5 <- rand ;;
           r6 <- rand ;;
           ret (mkCloud #(Int32.rem r1 SCREEN_W) #(Int32.rem r2 PLAY_H)
                  (lit 300 10 +~ #(Int32.rem r3 50))
                  (lit 800 10 +~ #(Int32.rem r4 120))
                  (lit 300 10 +~ #(Int32.rem r5 40))
                  (Int32.add 40 (Int32.rem r6 60)))) ;;
  modify (set_clouds cs).

Definition initMountain (i : Z) : M Mountain :=
  r1 <- rand ;; r2 <- rand ;; r3 <- rand ;; r4 <- rand ;;
  ret (mkMountain #(Int32.mul i 130) (lit 1000 10 +~ #(Int32.rem r1 150))
         (lit 200 10)
         (mkColor ((20 + Int32.rem r2 30) mod 256) ((60 + Int32.rem r3 40) mod 256)
            ((20 + Int32.rem r4 20) mod 256) 255)).

Definition initMountains : M unit :=
  m0 <- initMountain 0 ;; m1 <- initMountain 1 ;; m2 <- initMountain 2 ;;
  m3 <- initMountain 3 ;; m4 <- initMountain 4 ;; m5 <- initMountain 5 ;;
  modify (set_mountains [m0; m1; m2; m3; m4; m5]).

Definition initPlayer (p : Player) : Player :=
  mkPlayer (#SCREEN_W /~ lit 20 10) (#PLAY_H -~ lit 2000 10) #0 #0
    100 100 50 50 false #0
    0 3 1 0
    10 3 false #0 (lit 15 100) #0
    #0 #0 false (p_dragOffX p) (p_dragOffY p) #0 #0.

(** The [Game] object of [main] as its default member initialisers leave
    it, with the generator seeded to produce [r]; the player's members are
    not initialised yet and are zero here. *)
Definition default_Game (r : nat -> N) : Game :=
  mkGame STATE_MENU
    (mkPlayer #0 #0 #0 #0 0 0 0 0 false #0 0 0 0 0 0 0 false #0 #0 #0 #0 #0
       false #0 #0 #0 #0)
    [] [] [] [] [] [] [] []
    #0 #0 #0 (lit 20 10) #0 #0 #0 #0 false #0 #0 #0 #0
    0 #0 0 #0 #0
    (Int32.div SCREEN_W 2) (Int32.div PLAY_H 2)
    (mkRect 0 0 0 0) (mkRect 0 0 0 0) (mkRect 0 0 0 0) (mkRect 0 0 0 0)
    r.

Definition set_buttons (g : Game) : Game :=
  mkGame (state g) (player g) (bullets g) (missiles g) (explosions g)
    (powerups g) (enemies g) (stars g) (clouds g) (mountains g) (dt g)
    (gameTime g) (enemySpawnTimer g) (enemySpawnInterval g)
    (powerupSpawnTimer g) (cloudTimer g) (mountainTimer g) (bossSpawnTimer g)
    (bossAlive g) (scrollY g) (bgScrollY g) (menuAnim g) (gameoverTimer g)
    (combo g) (comboTimer g) (highScore g) (shakeTimer g) (shakeAmt g)
    (touchX g) (touchY g)
    (mkRect (SCREEN_W - 130) (PLAY_H + 80) 100 60)
    (mkRect (SCREEN_W - 260) (PLAY_H + 90) 80 50)
    (mkRect 20 (PLAY_H + 90) 80 50)
    (mkRect (SCREEN_W / 2 - 30) (PLAY_H + 88) 60 40)
    (rng g).

(** What [main] does before entering its loop *)
Definition main_init : M unit :=
  modify_player initPlayer ;;
  initStars ;;
  initClouds ;;
  initMountains ;;
  modify set_buttons.

(** ** Input handling and the main loop *)

Definition pointInRect (x y : Z) (r : SDL_Rect) : bool :=
  (x >=? r_x r) && (x <=? Int32.add (r_x r) (r_w r))
  && (y >=? r_y r) && (y <=? Int32.add (r_y r) (r_h r)).

(** The restart branch of [handleTouch] *)
Definition restart : M unit :=
  modify_player (set_p_score 0) ;;
  modify (set_enemies []) ;;
  modify (set_bullets []) ;;
  modify (set_missiles []) ;;
  modify (set_explosions []) ;;
  modify (set_powerups []) ;;
  modify (set_gameTime #0) ;;
  modify (set_bossAlive false) ;;
  modify_player initPlayer ;;
  modify (set_state STATE_PLAYING).

(** [handleTouch] for a finger or mouse event at the pixel [(tx, ty)] *)
Definition handleTouch (tx ty : Z) : M unit :=
  g <- get ;;
  match state g with
  | STATE_MENU => modify (set_state STATE_PLAYING)
  | STATE_GAMEOVER => restart
  | STATE_PAUSED => modify (set_state STATE_PLAYING)
  | STATE_WIN => ret tt
  | STATE_PLAYING =>
      if pointInRect tx ty (btnFire g) then playerShoot
      else if pointInRect tx ty (btnMissile g) then playerFireMissile
      else if pointInRect tx ty (btnBomb g) then playerBomb
      else if pointInRect tx ty (btnPause g) then modify (set_state STATE_PAUSED)
      else
        when (ty <? PLAY_H)
          (modify (set_touchX tx) ;;
           modify (set_touchY ty) ;;
           modify_player (set_p_dragging true))
  end.

Definition handleTouchUp : M unit := modify_player (set_p_dragging false).

(** The events the loop of [main] reacts to (quitting apart) *)
Inductive Event : Type :=
  | KeySpace | KeyM | KeyB | KeyP
  | Touch (tx ty : Z)
  | TouchUp.

Definition playing (g : Game) : bool :=
  match state g with STATE_PLAYING => true | _ => false end.

Definition handle_event (ev : Event) : M unit :=
  g <- get ;;
  match ev with
  | KeySpace => when (playing g) playerShoot
  | KeyM => when (playing g) playerFireMissile
  | KeyB => when (playing g) playerBomb
  | KeyP =>
      match state g with
      | STATE_PLAYING => modify (set_state STATE_PAUSED)
      | STATE_PAUSED => modify (set_state STATE_PLAYING)
      | _ => ret tt
      end
  | Touch tx ty => handleTouch tx ty
  | TouchUp => handleTouchUp
  end.

Fixpoint handle_events (evs : list Event) : M unit :=
  match evs with
  | [] => ret tt
  | ev :: rest => handle_event ev ;; handle_events rest
  end.

(** The update [switch] of the main loop *)
Definition update : M unit :=
  g <- get ;;
  match state g with
  | STATE_PLAYING => updateGame
  | STATE_GAMEOVER => modify (fun g => set_gameoverTimer (gameoverTimer g +~ dt g) g)
  | _ => ret tt
  end.

(** One turn of the main loop, [ms] milliseconds after the previous one *)
Definition main_loop_turn (ms : Z) (evs : list Event) : M unit :=
  modify (set_dt (#ms /~ lit 10000 10)) ;;
  modify (fun g => if dt g >~ lit 5 100 then set_dt (lit 5 100) g else g) ;;
  modify (fun g => set_menuAnim (menuAnim g +~ dt g) g) ;;
  handle_events evs ;;
  update.

(** ** Vocabulary of the statements *)

Definition score_sum (es : list EnemyJet) : Z :=
  fold_right (fun e acc => e_score e + acc) 0 es.

(** The bomb kills the active enemies it leaves with no hit points. *)
Definition bomb_kills (e : EnemyJet) : bool :=
  e_active e && (e_hp e - 150 <=? 0).

(** An enemy before and after the bomb. *)
Definition bombed (e e' : EnemyJet) : Prop :=
  if e_active e
  then e_hp e' = e_hp e - 150 /\ e_active e' = negb (e_hp e - 150 <=? 0)
       /\ e_score e' = e_score e /\ e_type e' = e_type e
  else e' = e.

(** The hit test of a player projectile at [(x, y)]: the enemy is active
    and nearer than the radius of its archetype. *)
Definition within (x y : F) (r_boss r_other : Z) (e : EnemyJet) : bool :=
  e_active e
  && (dist2D x y (e_x e) (e_y e) <~ #(if e_type e =? 3 then r_boss else r_other)).

(** An enemy before and after the passage of a player projectile of
    damage [dmg] at [(x, y)]. *)
Definition struck (x y : F) (r_boss r_other dmg : Z) (e e' : EnemyJet) : Prop :=
  if within x y r_boss r_other e
  then e_hp e' = e_hp e - dmg /\ e_active e' = negb (e_hp e - dmg <=? 0)
  else e' = e.

(** A player missile as it stands when it is tested against the enemies:
    aged, steered and moved. *)
Definition missile_advanced (g : Game) (m : Missile) : Missile :=
  let m := homing (dt g) (enemies g) (set_m_life (m_life m -~ dt g) m) in
  let m := set_m_x (m_x m +~ m_vx m *~ dt g) m in
  set_m_y (m_y m +~ m_vy m *~ dt g) m.

(** The bounds on the player's counters that every frame and every action
    keep. *)
Definition counters_ok (p : Player) : Prop :=
  0 <= p_shield p <= p_maxShield p /\
  p_hp p <= p_maxHp p /\
  0 <= p_ammo p /\ 0 <= p_bombs p /\ 0 <= p_lives p.

Definition alive (p : Player) : Prop := 1 <= p_lives p /\ 0 < p_hp p.

(** The invulnerability timer rules out a hit. *)
Definition blocked (p : Player) : Prop := (p_invTimer p <=~ #0) = false.

(** The damage of a projectile is a non-negative [int]. *)
Definition damage_ok (d : Z) : Prop := 0 <= d <= Int32.max_int.

(** Room left below the largest [int] for the additions of a frame, [k]
    pickups included. *)
Definition headroom (k : Z) (p : Player) : Prop :=
  p_maxHp p <= Int32.max_int - 30 /\
  p_maxShield p <= Int32.max_int - 30 /\
  p_lives p <= Int32.max_int /\
  p_ammo p + 5 * k <= Int32.max_int /\
  p_bombs p + k <= Int32.max_int.

(** The most pickups a frame can hold when they are collected: those
    already there, the one of the spawn timer, and one for each enemy a
    bullet or missile can reach. *)
Definition pickups_bound (g : Game) : Z :=
  Z.of_nat (length (powerups g)) + 1
  + (Z.of_nat (length (bullets g)) + 2 + Z.of_nat (length (missiles g)))
    * (Z.of_nat (length (enemies g)) + 2).

(** What the collision blocks maintain: the counters are in bounds, and
    either the player is alive or the fatal hit has ended the session. *)
Definition standing (k : Z) (g : Game) : Prop :=
  counters_ok (player g) /\ headroom k (player g) /\
  - Int32.max_int <= p_hp (player g) /\
  (alive (player g) \/ (blocked (player g) /\ state g = STATE_GAMEOVER)).

(** The members of the game on which [standing] depends. *)
Definition vital (g : Game) :=
  (state g, p_invTimer (player g),
   (p_hp (player g), p_maxHp (player g), p_shield (player g),
    p_maxShield (player g)),
   (p_ammo (player g), p_bombs (player g), p_lives (player g))).

(** The members the bounds on the counters speak of. *)
Definition core (g : Game) :=
  (state g,
   (p_hp (player g), p_maxHp (player g), p_shield (player g),
    p_maxShield (player g)),
   (p_ammo (player g), p_bombs (player g), p_lives (player g))).

(** [standing] without the invulnerability timer. *)
Definition settled (g : Game) : Prop :=
  counters_ok (player g) /\ headroom 0 (player g) /\
  - Int32.max_int <= p_hp (player g) /\
  (alive (player g) \/ state g = STATE_GAMEOVER).

(** The game between the blocks that precede the collisions: the core and
    the missiles are those of [g0], every bullet has a sound damage, and the
    pools are no longer than stated. *)
Definition lined_up (nb ne np : nat) (g0 g : Game) : Prop :=
  core g = core g0 /\ missiles g = missiles g0 /\
  Forall (fun b => damage_ok (b_damage b)) (bullets g) /\
  (length (bullets g) <= nb)%nat /\
  (length (enemies g) <= ne)%nat /\
  (length (powerups g) <= np)%nat.

(** The core and the five pools. *)
Definition pools (g : Game) :=
  (core g, bullets g, missiles g, enemies g, powerups g).

(** Stepping through a block: [wp m Q g] says that [Q] holds of the
    result and the game that [m] leaves when started in [g]. *)
Definition wp {A : Type} (m : M A) (Q : A -> Game -> Prop) (g : Game) : Prop :=
  Q (fst (m g)) (snd (m g)).

(** ** Rendering, as far as it writes to the game

    The render functions draw through the SDL renderer, which is output
    and not part of the game.  Two of them also touch the game itself:
    [renderGame] takes two numbers from the generator for the screen shake
    while the shake lasts, and [drawHUD], which it calls last, assigns the
    four button rectangles (to the values [main] gave them, since its
    [hudY] is [PLAY_H]). *)
Definition renderGame_writes : M unit :=
  g <- get ;;
  (if shakeTimer g >~ #0 then rand ;; rand ;; ret tt else ret tt) ;;
  modify set_buttons.

(** The render [switch] of the main loop: [drawMenu] and [drawGameOver]
    write nothing, [drawPause] neither. *)
Definition render_writes : M unit :=
  g <- get ;;
  match state g with
  | STATE_PLAYING | STATE_PAUSED => renderGame_writes
  | _ => ret tt
  end.

(** One full iteration of the loop of [main]: frame time, events, update,
    render. *)
Definition main_loop_iteration (ms : Z) (evs : list Event) : M unit :=
  main_loop_turn ms evs ;;
  render_writes.

(** ** Further vocabulary *)

(** The members that no block of [updateGame] assigns; of the three
    background pools, whose elements scroll, the sizes. *)
Definition fixtures (g : Game) :=
  (dt g, enemySpawnInterval g, (touchX g, touchY g),
   (btnFire g, btnMissile g, btnBomb g, btnPause g),
   (menuAnim g, cloudTimer g, mountainTimer g, bossSpawnTimer g,
    scrollY g, bgScrollY g),
   (p_maxHp (player g), p_maxShield (player g), p_shootCooldown (player g),
    p_dragging (player g)),
   (p_vx (player g), p_vy (player g), p_tiltY (player g),
    p_dragOffX (player g), p_dragOffY (player g)),
   (length (stars g), length (clouds g), length (mountains g))).

(** What is settled once the player has moved: the fixtures, the position
    of the player and the elapsed time. *)
Definition anchor (g : Game) :=
  (fixtures g, p_x (player g), p_y (player g), gameTime g).

(** From [g] to [g']: the anchor is kept; the session state is kept or the
    session has ended; the high score is kept or the session has ended on
    a higher one. *)
Definition carried (g g' : Game) : Prop :=
  anchor g' = anchor g /\
  (state g' = state g \/ state g' = STATE_GAMEOVER) /\
  (highScore g' = highScore g \/
   (state g' = STATE_GAMEOVER /\ highScore g < highScore g')).

(** Two floats that compare as a lower and an upper bound should: neither
    is below itself, and the upper one is not below the lower one. *)
Definition ordered (lo hi : F) : Prop :=
  (lo <~ lo) = false /\ (hi <~ hi) = false /\ (hi <~ lo) = false.

(** [v] is not below [lo] and not above [hi]. *)
Definition between (lo hi v : F) : Prop :=
  (v <~ lo) = false /\ (v >~ hi) = false.

(** The kinds of pickup the collection [switch] knows. *)
Definition kind_ok (pu : PowerUp) : Prop := 0 <= pu_type pu <= 4.

(** The damages the source gives its projectiles: 10 for the player's
    guns; 10, 20 (boss) and 15 (boss spread) for enemy fire; 50 for the
    player's missiles and 25 for those of the heavy enemy. *)
Definition bullet_as_made (b : Bullet) : Prop :=
  if b_isEnemy b
  then b_damage b = 10 \/ b_damage b = 15 \/ b_damage b = 20
  else b_damage b = 10.

Definition missile_as_made (m : Missile) : Prop :=
  m_damage m = (if m_isEnemy m then 25 else 50).

(** The pools hold what the spawn functions make. *)
Definition stocked (g : Game) : Prop :=
  Forall kind_ok (powerups g) /\
  Forall bullet_as_made (bullets g) /\
  Forall missile_as_made (missiles g).

(** An enemy as the game keeps it: its hit points are at most its
    maximum, which is at most the boss's 500; one hit, the bomb's 150 at
    most, took them to where they are; and while it is active it has hit
    points left. *)
Definition enemy_ok (e : EnemyJet) : Prop :=
  -150 < e_hp e <= e_maxHp e /\ e_maxHp e <= 500 /\
  (e_active e = true -> 0 < e_hp e).

(** The pools hold what the spawn functions make and what the hits leave
    of it. *)
Definition sound (g : Game) : Prop :=
  stocked g /\ Forall enemy_ok (enemies g).

(** The four pools [sound] speaks of. *)
Definition stock (g : Game) := (powerups g, bullets g, missiles g, enemies g).

(** What the enemy block of a frame never assigns: enemies fire, but
    nothing happens when one of them meets the player. *)
Definition beyond_enemies (g : Game) :=
  (player g, state g, highScore g, (combo g, comboTimer g),
   (powerups g, explosions g), bossAlive g, gameTime g).

(** The four buttons. *)
Definition buttons (g : Game) :=
  (btnFire g, btnMissile g, btnBomb g, btnPause g).

(** The three pools the cleanup compacts. *)
Definition fleet (g : Game) := (bullets g, missiles g, enemies g).

(** [g'] agrees with [g] on what [view] shows of a game. *)
Definition same {T : Type} (view : Game -> T) (g g' : Game) : Prop :=
  view g' = view g.

(** What no input event touches: the frame time, the high score, the
    spawn timers, the buttons, the background and the generator. *)
Definition backdrop (g : Game) :=
  (dt g, highScore g, (menuAnim g, gameoverTimer g),
   (enemySpawnInterval g, enemySpawnTimer g, powerupSpawnTimer g),
   (btnFire g, btnMissile g, btnBomb g, btnPause g),
   (stars g, clouds g, mountains g), rng g).

(** While the invulnerability timer of [g] runs, [g'] has the vital
    members of [g]. *)
Definition unharmed (g g' : Game) : Prop :=
  blocked (player g) -> vital g' = vital g.

(** What the missile block of a frame never assigns. *)
Definition beyond_missiles (g : Game) :=
  (combo g, comboTimer g, highScore g,
   (p_shield (player g), p_shieldActive (player g), p_shieldTimer (player g)),
   p_level (player g), bullets g,
   (p_ammo (player g), p_bombs (player g))).

(** What the three player actions leave alone: the backdrop, the session
    state and the drag of the player. *)
Definition scene (g : Game) :=
  (backdrop g, state g, (touchX g, touchY g, p_dragging (player g))).

(** The first three statements of the loop body of [main]. *)
Definition frame_time (ms : Z) : M unit :=
  modify (set_dt (#ms /~ lit 10000 10)) ;;
  modify (fun g => if dt g >~ lit 5 100 then set_dt (lit 5 100) g else g) ;;
  modify (fun g => set_menuAnim (menuAnim g +~ dt g) g).

(** The blocks of a frame between the player's move and the level
    progression. *)
Definition after_the_move : M unit :=
  scroll_background ;;
  spawn_enemies ;;
  spawn_boss ;;
  spawn_powerups ;;
  update_bullets ;;
  update_missiles ;;
  update_enemies ;;
  update_explosions ;;
  cleanup ;;
  update_powerups.

End Model.

(** ** The pixel font

    [drawPixelText] writes a text with filled squares, one call of
    [SDL_RenderFillRect] for every pixel of a 3x5 glyph.  The calls are
    output; the function is embedded as the list of rectangles it fills,
    in the order of the calls.  (It sets the draw colour once, before the
    first character; the colour plays no part in what follows.) *)

Module PixelFont.

Import Ascii.
Local Open Scope char_scope.

(** The [switch] over the character: the five rows of its glyph, three
    bits each.  [None] stands for the space and for the [default] case,
    which both only move the cursor. *)
Definition glyph (c : ascii) : option (list Z) :=
  match c with
  | "0" => Some [7; 5; 5; 5; 7]
  | "1" => Some [3; 1; 1; 1; 7]
  | "2" => Some [7; 1; 7; 4; 7]
  | "3" => Some [7; 1; 7; 1; 7]
  | "4" => Some [5; 5; 7; 1; 1]
  | "5" => Some [7; 4; 7; 1; 7]
  | "6" => Some [7; 4; 7; 5; 7]
  | "7" => Some [7; 1; 1; 1; 1]
  | "8" => Some [7; 5; 7; 5; 7]
  | "9" => Some [7; 5; 7; 1; 7]
  | "A" => Some [7; 5; 7; 5; 5]
  | "B" => Some [6; 5; 7; 5; 6]
  | "C" => Some [7; 4; 4; 4; 7]
  | "D" => Some [6; 5; 5; 5; 6]
  | "E" => Some [7; 4; 7; 4; 7]
  | "F" => Some [7; 4; 7; 4; 4]
  | "G" => Some [7; 4; 5; 5; 7]
  | "H" => Some [5; 5; 7; 5; 5]
  | "I" => Some [7; 2; 2; 2; 7]
  | "J" => Some [1; 1; 1; 5; 7]
  | "K" => Some [5; 5; 6; 5; 5]
  | "L" => Some [4; 4; 4; 4; 7]
  | "M" => Some [5; 7; 5; 5; 5]
  | "N" => Some [5; 7; 7; 5; 5]
  | "O" => Some [7; 5; 5; 5; 7]
  | "P" => Some [7; 5; 7; 4; 4]
  | "Q" => Some [7; 5; 5; 7; 1]
  | "R" => Some [7; 5; 7; 5; 5]
  | "S" => Some [7; 4; 7; 1; 7]
  | "T" => Some [7; 2; 2; 2; 2]
  | "U" => Some [5; 5; 5; 5; 7]
  | "V" => Some [5; 5; 5; 5; 2]
  | "W" => Some [5; 5; 5; 7; 5]
  | "X" => Some [5; 5; 2; 5; 5]
  | "Y" => Some [5; 5; 7; 2; 2]
  | "Z" => Some [7; 1; 2; 4; 7]
  | ":" => Some [0; 2; 0; 2; 0]
  | "-" => Some [0; 0; 7; 0; 0]
  | "/" => Some [1; 2; 2; 4; 4]
  | "%" => Some [5; 1; 2; 4; 5]
  | "!" => Some [2; 2; 2; 0; 2]
  | "." => Some [0; 0; 0; 0; 2]
  | "+" => Some [0; 2; 7; 2; 0]
  | "*" => Some [5; 2; 7; 2; 5]
  | "<" => Some [1; 2; 4; 2; 1]
  | ">" => Some [4; 2; 1; 2; 4]
  | _ => None
  end.

Local Close Scope char_scope.

(** The body of the two inner loops for one [row] and one [bit]. *)
Definition pixel (rows : list Z) (x y scale row bit : Z) : list SDL_Rect :=
  if negb (Z.land (nth (Z.to_nat row) rows 0) (Z.shiftl 1 bit) =? 0)
  then [mkRect (Int32.add x (Int32.mul (Int32.sub 2 bit) scale))
          (Int32.add y (Int32.mul row scale)) scale scale]
  else [].

(** [for (row = 0; row < 5; row++) for (bit = 2; bit >= 0; bit--)] *)
Definition glyph_pixels (rows : list Z) (x y scale : Z) : list SDL_Rect :=
  flat_map (fun row => flat_map (pixel rows x y scale row) [2; 1; 0])
    [0; 1; 2; 3; 4].

Fixpoint drawPixelText (text : list ascii) (x y scale : Z) : list SDL_Rect :=
  match text with
  | [] => []
  | c :: rest =>
      match glyph c with
      | None => drawPixelText rest (Int32.add x (Int32.mul 4 scale)) y scale
      | Some rows =>
          glyph_pixels rows x y scale
          ++ drawPixelText rest (Int32.add x (Int32.mul 4 scale)) y scale
      end
  end.

(** The cursor after [n] characters: [x += 4*scale] for each. *)
Fixpoint cursor_after (n : nat) (x scale : Z) : Z :=
  match n with
  | O => x
  | S k => cursor_after k (Int32.add x (Int32.mul 4 scale)) scale
  end.

(** A square of side [scale] inside the box that starts at [(x, y)] and
    is [width] wide and [5 * scale] high. *)
Definition in_box (x y scale width : Z) (r : SDL_Rect) : Prop :=
  r_w r = scale /\ r_h r = scale /\
  x <= r_x r /\ r_x r + scale <= x + width /\
  y <= r_y r /\ r_y r + scale <= y + 5 * scale.

End PixelFont.

(** ** IEEE-754 single precision *)

Module Binary32.

Definition prec : Z := 24.
Definition emax : Z := 128.

Definition binary32 : Type := spec_float.

Definition from_Z (z : Z) : binary32 := binary_normalize prec emax z 0 false.

(** A decimal literal is rounded once: the quotient of two integers that
    are themselves exact in the format. *)
Definition literal (n d : Z) : binary32 := SFdiv prec emax (from_Z n) (from_Z d).

(** [(int)x] truncates toward zero; outside the range of [int] the
    conversion is undefined in C++, and saturates here as on AArch64. *)
Definition truncate (x : binary32) : Z :=
  match x with
  | S754_zero _ => 0
  | S754_nan => 0
  | S754_infinity s => if s then Int32.min_int else Int32.max_int
  | S754_finite s m e =>
      let mag := if 0 <=? e then Z.pos m * 2 ^ e else Z.quot (Z.pos m) (2 ^ (- e)) in
      let v := if s then - mag else mag in
      Z.max Int32.min_int (Z.min Int32.max_int v)
  end.

#[export] Instance ops : FloatOps binary32 := {
  of_int := from_Z;
  lit := literal;
  fadd := SFadd prec emax;
  fsub := SFsub prec emax;
  fmul := SFmul prec emax;
  fdiv := SFdiv prec emax;
  fneg := SFopp;
  fsqrt := SFsqrt prec emax;
  flt := SFltb;
  fle := SFleb;
  to_int := truncate
}.

(** A stand-in for the math library, for concrete runs only: [abs] is the
    [float] overload, and the trigonometric routines return their first
    argument.  No concrete run below depends on the choice: the routines
    are reached only from the sway of a non-boss enemy, the boss's spread
    fire and the boss's turn at the edge of its patrol, and the frames run
    below yield the same values for every math library. *)
#[export] Instance libm : Libm binary32 := {
  sinf := fun x => x;
  cosf := fun x => x;
  atan2f := fun y _ => y;
  c_abs := SFabs
}.

End Binary32.

(** ** Concrete games

    Every game below is the one [main] builds, taken out of the menu by a
    first touch, with a frame time of 50 ms (the cap of the main loop) and
    a few members set as stated; the generator yields 1 at every call. *)

Module Scenario.

Import Binary32.
Local Open Scope float_scope.

Definition seed : nat -> N := fun _ => 1%N.

Definition started : Game :=
  set_dt (lit 5 100)
    (exec (handle_event (Touch 360 600)) (exec main_init (default_Game seed))).

Definition basic_enemy (x y hp : Z) : EnemyJet :=
  mkEnemyJet #x #y (lit 600 10) (lit 800 10) true hp 30 0
    (lit 15 10) (lit 15 10) #0 (lit 60 10) 100.

Definition boss_enemy (x y hp : Z) : EnemyJet :=
  mkEnemyJet #x #y (lit 1000 10) (lit 300 10) true hp 500 3
    (lit 4 10) (lit 4 10) #0 (lit 60 10) 5000.

(** A bullet of [playerShoot] *)
Definition player_bullet (x y : Z) : Bullet :=
  mkBullet #x #y #0 #(-700) true false 10 C_BULLET.

(** A bullet of an enemy above the player, flying straight down *)
Definition enemy_bullet (x y dmg : Z) : Bullet :=
  mkBullet #x #y #0 (lit 3500 10) true true dmg (mkColor 255 50 50 255).

(** A missile of [playerFireMissile], flying straight up *)
Definition player_missile (x y : Z) : Missile :=
  mkMissile #x #y #0 #(-400) #x #(-100) true false 50 (lit 30 10).

(** A missile of a heavy enemy above the player, flying straight down *)
Definition enemy_missile (x y : Z) : Missile :=
  mkMissile #x #y #0 #400 #x #1080 true true 25 (lit 30 10).

(** One player bullet about to pass between two basic enemies *)
Definition two_targets : Game :=
  set_enemies [basic_enemy 100 110 30; basic_enemy 100 90 30]
    (set_bullets [player_bullet 100 135] started).

(** One player missile about to pass between two basic enemies *)
Definition two_targets_missile : Game :=
  set_enemies [basic_enemy 100 490 80; basic_enemy 100 470 80]
    (set_missiles [player_missile 100 500] started).

(** 100 s into the session: the boss is down to its last 10 hit points and
    a player bullet is about to reach it *)
Definition boss_nearly_dead : Game :=
  set_player (set_p_level 4 (player started))
    (set_gameTime #100
       (set_bossAlive true
          (set_enemies [boss_enemy 360 100 10]
             (set_bullets [player_bullet 360 140] started)))).

(** 100 s into the session with no boss around *)
Definition late_no_boss : Game := set_gameTime #100 started.

(** The same boss with a bomb about to go off *)
Definition boss_before_bomb : Game :=
  set_gameTime #100
    (set_bossAlive true (set_enemies [boss_enemy 360 100 10] started)).

(** Last life, 10 health, 5000 points, and an enemy missile closing in *)
Definition last_life_missile : Game :=
  set_player
    (set_p_hp 10 (set_p_lives 1 (set_p_score 5000 (player started))))
    (set_missiles [enemy_missile 360 1040] started).

(** Last life, 10 health, 5000 points, and an enemy bullet closing in *)
Definition last_life_bullet : Game :=
  set_player
    (set_p_hp 10 (set_p_lives 1 (set_p_score 5000 (player started))))
    (set_bullets [enemy_bullet 360 1060 20] started).

(** Shield up at 50, full health, and an enemy missile closing in *)
Definition shielded_missile : Game :=
  set_player
    (set_p_shieldActive true (set_p_shieldTimer (lit 50 10) (player started)))
    (set_missiles [enemy_missile 360 1040] started).

(** Shield up at 50, full health, and an enemy bullet closing in *)
Definition shielded_bullet : Game :=
  set_player
    (set_p_shieldActive true (set_p_shieldTimer (lit 50 10) (player started)))
    (set_bullets [enemy_bullet 360 1060 20] started).

(** A combo of 3 with a second left on its timer, and a player missile
    about to kill a basic enemy *)
Definition missile_kill : Game :=
  set_combo 3
    (set_comboTimer (lit 10 10)
       (set_enemies [basic_enemy 100 460 30]
          (set_missiles [player_missile 100 500] started))).

(** A player missile fired from the very spot where an enemy hovers *)
Definition coincident_missile : Missile := player_missile 300 500.
Definition coincident_enemy : EnemyJet := basic_enemy 300 500 80.

(** No missiles left *)
Definition out_of_ammo : Game :=
  set_player (set_p_ammo 0 (player started))
    (set_enemies [basic_enemy 100 110 30] started).

(** Three enemies (one of them already inactive) and three bombs *)
Definition bomb_run : Game :=
  set_enemies
    [basic_enemy 100 110 30; set_e_active false (basic_enemy 200 200 30);
     boss_enemy 360 100 500]
    (set_gameTime #100 (set_bossAlive true started)).

(** A pickup of kind [k] falling onto the player *)
Definition pickup (k : Z) : PowerUp :=
  mkPowerUp #360 #1070 (lit 800 10) true k #0.

(** The player dragged toward the top left corner *)
Definition dragged : Game := exec (handle_event (Touch 5 5)) started.

(** The session as the fatal bullet leaves it *)
Definition ended : Game := exec updateGame last_life_bullet.

(** The enemy spawn timer has reached the spawn interval of 2 s *)
Definition spawn_due : Game := set_enemySpawnTimer #2 started.

(** An enemy bullet on the player, who is invulnerable for 3 s more *)
Definition under_fire : Game :=
  set_player (set_p_invTimer (lit 30 10) (player last_life_bullet))
    last_life_bullet.

(** 10 health and three lives *)
Definition wounded : Game :=
  set_player (set_p_hp 10 (player started)) started.

(** An enemy that left the pool's active set *)
Definition wreck : EnemyJet := set_e_active false (basic_enemy 200 200 30).

(** The label of the health bar, which [drawHUD] writes at (12, 1292)
    with scale 3 *)
Definition hp_label : list Ascii.ascii :=
  [Ascii.ascii_of_nat 72; Ascii.ascii_of_nat 80].

End Scenario.

(** * Properties *)

(** ** Arithmetic modulo [2^32] *)

Lemma wrap_id (z : Z) : Int32.in_range z -> Int32.wrap z = z.
Proof.
  unfold Int32.in_range, Int32.wrap, Int32.min_int, Int32.max_int,
    Int32.half, Int32.modulus.
  intros H. rewrite Z.mod_small; lia.
Qed.

Lemma wrap_in_range (z : Z) : Int32.in_range (Int32.wrap z).
Proof.
  unfold Int32.in_range, Int32.wrap, Int32.min_int, Int32.max_int,
    Int32.half, Int32.modulus.
  pose proof (Z.mod_pos_bound (z + 2147483648) 4294967296 eq_refl). lia.
Qed.

Lemma wrap_add_wrap (a b : Z) : Int32.wrap (Int32.wrap a + b) = Int32.wrap (a + b).
Proof.
  unfold Int32.wrap, Int32.half, Int32.modulus.
  replace ((a + 2147483648) mod 4294967296 - 2147483648 + b + 2147483648)
    with ((a + 2147483648) mod 4294967296 + b) by lia.
  rewrite Zplus_mod_idemp_l. f_equal. f_equal. lia.
Qed.

Lemma add_exact (a b : Z) : Int32.in_range (a + b) -> Int32.add a b = a + b.
Proof. apply wrap_id. Qed.

Lemma sub_exact (a b : Z) : Int32.in_range (a - b) -> Int32.sub a b = a - b.
Proof. apply wrap_id. Qed.

(** ** The pixel font *)

Section Font.

Import PixelFont.

Lemma pixel_in_cell (rows : list Z) (x y scale row bit : Z) :
  0 <= row <= 4 -> 0 <= bit <= 2 -> 0 <= x -> 0 <= y -> 0 < scale ->
  x + 4 * scale <= Int32.max_int -> y + 5 * scale <= Int32.max_int ->
  Forall (in_box x y scale (3 * scale)) (pixel rows x y scale row bit).
Proof.
  intros Hr Hb Hx Hy Hs Hxm Hym. unfold pixel.
  destruct (negb _); [|constructor].
  assert (E1 : Int32.sub 2 bit = 2 - bit)
    by (apply sub_exact; unfold Int32.in_range, Int32.min_int, Int32.max_int,
          Int32.half in *; lia).
  assert (E2 : Int32.mul (2 - bit) scale = (2 - bit) * scale)
    by (apply wrap_id; unfold Int32.in_range, Int32.min_int, Int32.max_int,
          Int32.half in *; nia).
  assert (E3 : Int32.mul row scale = row * scale)
    by (apply wrap_id; unfold Int32.in_range, Int32.min_int, Int32.max_int,
          Int32.half in *; nia).
  assert (E4 : Int32.add x ((2 - bit) * scale) = x + (2 - bit) * scale)
    by (apply add_exact; unfold Int32.in_range, Int32.min_int, Int32.max_int,
          Int32.half in *; nia).
  assert (E5 : Int32.add y (row * scale) = y + row * scale)
    by (apply add_exact; unfold Int32.in_range, Int32.min_int, Int32.max_int,
          Int32.half in *; nia).
  rewrite E1, E2, E3, E4, E5.
  constructor; [|constructor]. unfold in_box. cbn [r_x r_y r_w r_h].
  repeat split; nia.
Qed.

Lemma pixel_length (rows : list Z) (x y scale row bit : Z) :
  (length (pixel rows x y scale row bit) <= 1)%nat.
Proof. unfold pixel. destruct (negb _); cbn; lia. Qed.

Lemma glyph_pixels_in_cell (rows : list Z) (x y scale : Z) :
  0 <= x -> 0 <= y -> 0 < scale ->
  x + 4 * scale <= Int32.max_int -> y + 5 * scale <= Int32.max_int ->
  Forall (in_box x y scale (3 * scale)) (glyph_pixels rows x y scale) /\
  (length (glyph_pixels rows x y scale) <= 15)%nat.
Proof.
  intros Hx Hy Hs Hxm Hym. unfold glyph_pixels. cbn [flat_map]. split.
  - repeat (apply Forall_app; split);
      try apply pixel_in_cell; try lia; constructor.
  - rewrite !length_app.
    repeat match goal with
           | |- context [length (pixel rows x y scale ?r ?b)] =>
               lazymatch goal with
               | H : (length (pixel rows x y scale r b) <= 1)%nat |- _ => fail
               | _ => pose proof (pixel_length rows x y scale r b)
               end
           end.
    cbn [length]. lia.
Qed.

Lemma advance_exact (x scale : Z) :
  0 <= x -> 0 < scale -> x + 4 * scale <= Int32.max_int ->
  Int32.add x (Int32.mul 4 scale) = x + 4 * scale.
Proof.
  intros Hx Hs Hm.
  assert (E : Int32.mul 4 scale = 4 * scale)
    by (apply wrap_id; unfold Int32.in_range, Int32.min_int, Int32.max_int,
          Int32.half in *; lia).
  rewrite E. apply add_exact.
  unfold Int32.in_range, Int32.min_int, Int32.max_int, Int32.half in *. lia.
Qed.

(** X27: a text is drawn character by character.  What [drawPixelText]
    fills for [s1 ++ s2] is what it fills for [s1], followed by what it
    fills for [s2] with the cursor moved on by the characters of [s1];
    and when [s1] holds only spaces and characters outside the font
    (lower-case letters, for instance) it fills nothing for [s1]: such
    characters move the cursor and draw nothing. *)
Theorem drawPixelText_app (s1 s2 : list Ascii.ascii) (x y scale : Z) :
  drawPixelText (s1 ++ s2) x y scale
  = drawPixelText s1 x y scale
    ++ drawPixelText s2 (cursor_after (length s1) x scale) y scale /\
  (Forall (fun c => glyph c = None) s1 -> drawPixelText s1 x y scale = []).
Proof.
  revert x. induction s1 as [|c s1 IH]; intros x.
  - split; reflexivity.
  - destruct (IH (Int32.add x (Int32.mul 4 scale))) as (I1 & I2).
    cbn [app drawPixelText length cursor_after]. split.
    + rewrite I1. destruct (glyph c); [rewrite app_assoc|]; reflexivity.
    + intros H. inversion H as [|? ? Hc Hs]; subst. rewrite Hc.
      apply I2. exact Hs.
Qed.

(** X28: a text stays in its box.  With the cursor at [(x, y)], a
    positive [scale] and no [int] overflow, every square that
    [drawPixelText] fills has side [scale] and lies inside the box from
    [(x, y)] that is [5 * scale] high and [4 * scale] wide per character,
    less the one column of [scale] that separates the characters; and at
    most 15 squares are filled per character. *)
Theorem drawPixelText_in_box (text : list Ascii.ascii) (x y scale : Z) :
  0 <= x -> 0 <= y -> 0 < scale ->
  x + 4 * scale * Z.of_nat (length text) <= Int32.max_int ->
  y + 5 * scale <= Int32.max_int ->
  Forall (in_box x y scale (4 * scale * Z.of_nat (length text) - scale))
    (drawPixelText text x y scale) /\
  (length (drawPixelText text x y scale) <= 15 * length text)%nat.
Proof.
  revert x. induction text as [|c text IH]; intros x Hx Hy Hs Hxm Hym.
  - split; [constructor | cbn; lia].
  - cbn [length] in *. cbn [drawPixelText].
    assert (Hxm1 : x + 4 * scale <= Int32.max_int) by nia.
    rewrite (advance_exact x scale Hx Hs Hxm1).
    destruct (IH (x + 4 * scale)) as (I1 & I2); try lia; try nia.
    assert (I1' : Forall
              (in_box x y scale (4 * scale * Z.of_nat (S (length text)) - scale))
              (drawPixelText text (x + 4 * scale) y scale)).
    { revert I1. apply Forall_impl. unfold in_box. intros r.
      intros (R1 & R2 & R3 & R4 & R5 & R6). repeat split; try assumption; nia. }
    destruct (glyph c) as [rows|].
    + destruct (glyph_pixels_in_cell rows x y scale Hx Hy Hs Hxm1 Hym)
        as (G1 & G2).
      split.
      * apply Forall_app. split; [|exact I1'].
        revert G1. apply Forall_impl. unfold in_box. intros r.
        intros (R1 & R2 & R3 & R4 & R5 & R6).
        repeat split; try assumption; nia.
      * rewrite length_app. lia.
    + split; [exact I1' | lia].
Qed.

End Font.

Section Properties.

Context {F : Type} {FO : FloatOps F} {LM : Libm F}.
Local Open Scope float_scope.

(** Unfolding the monad: each step of a block is exposed as a plain
    function of the game. *)
Ltac run :=
  unfold exec, when, modify_player, modify, get, bind, ret in *;
  cbn [fst snd] in *.

(** ** Firing without ammunition *)

(** C9: with [ammo = 0] the fire-munition action changes nothing: the game
    it returns is the game it was given, so ammo, score and the sizes of
    the five entity pools are unchanged. *)
Theorem playerFireMissile_no_ammo (g : Game) :
  p_ammo (player g) = 0 ->
  exec playerFireMissile g = g /\
  p_ammo (player (exec playerFireMissile g)) = p_ammo (player g) /\
  p_score (player (exec playerFireMissile g)) = p_score (player g) /\
  length (bullets (exec playerFireMissile g)) = length (bullets g) /\
  length (missiles (exec playerFireMissile g)) = length (missiles g) /\
  length (enemies (exec playerFireMissile g)) = length (enemies g) /\
  length (powerups (exec playerFireMissile g)) = length (powerups g) /\
  length (explosions (exec playerFireMissile g)) = length (explosions g).
Proof.
  intros Hammo.
  assert (E : exec playerFireMissile g = g).
  { unfold playerFireMissile. run. rewrite Hammo. reflexivity. }
  rewrite E. repeat split.
Qed.

(** ** Collecting a pickup *)

(** C10: a pickup that is visited while active, has not fallen past the
    bottom margin and lies within distance 40 of the player is collected,
    whatever the invulnerability timer says: it is deactivated, its kind
    takes effect (heal 30 up to the maximum; shield 30 up to the maximum,
    switched on for 5 s; rapid fire for 8 s; 5 missiles; 1 bomb) and the
    score grows by exactly 50 for every kind. *)
Theorem pickup_collected (g : Game) (pu : PowerUp) :
  let y' := pu_y pu +~ pu_vy pu *~ dt g in
  let p := player g in
  let pu' := fst (update_powerup pu g) in
  let p' := player (snd (update_powerup pu g)) in
  pu_active pu = true ->
  (y' >~ #(PLAY_H + 50)) = false ->
  (dist2D (pu_x pu) y' (p_x p) (p_y p) <~ #40) = true ->
  Int32.in_range (p_score p + 50) ->
  pu_active pu' = false /\
  p_score p' = p_score p + 50 /\
  (pu_type pu = 0 -> Int32.in_range (p_hp p + 30) ->
     p_hp p' = Z.min (p_maxHp p) (p_hp p + 30)) /\
  (pu_type pu = 1 -> Int32.in_range (p_shield p + 30) ->
     p_shield p' = Z.min (p_maxShield p) (p_shield p + 30) /\
     p_shieldActive p' = true /\ p_shieldTimer p' = lit 50 10) /\
  (pu_type pu = 2 -> p_rapidFire p' = true /\ p_rapidTimer p' = lit 80 10) /\
  (pu_type pu = 3 -> Int32.in_range (p_ammo p + 5) -> p_ammo p' = p_ammo p + 5) /\
  (pu_type pu = 4 -> Int32.in_range (p_bombs p + 1) -> p_bombs p' = p_bombs p + 1).
Proof.
  intros y' p pu' p' Hact Hbot Hnear Hscore.
  subst y' p pu' p'. unfold update_powerup. run.
  rewrite Hact. cbn in *. rewrite Hbot, Hnear. unfold collect. run.
  assert (Hmin : forall a b, imin a b = Z.min a b).
  { intros a b. unfold imin. destruct (Z.ltb_spec b a); lia. }
  split; [reflexivity|].
  split.
  { destruct (pu_type pu =? 0); [|destruct (pu_type pu =? 1);
      [|destruct (pu_type pu =? 2); [|destruct (pu_type pu =? 3);
      [|destruct (pu_type pu =? 4)]]]]; cbn; apply add_exact; assumption. }
  split; [|split; [|split; [|split]]]; intros Hty; try intros Hr;
    rewrite Hty; cbn; rewrite ?Hmin, ?add_exact by assumption;
    repeat split.
Qed.

(** ** The bomb *)

Lemma bomb_enemy_step (e : EnemyJet) (g : Game) :
  Int32.in_range (e_hp e - 150) ->
  bombed e (fst (bomb_enemy e g)) /\
  p_score (player (snd (bomb_enemy e g)))
    = (if bomb_kills e then Int32.add (p_score (player g)) (e_score e)
       else p_score (player g)) /\
  p_bombs (player (snd (bomb_enemy e g))) = p_bombs (player g).
Proof.
  intros He. unfold bomb_enemy, bombed, bomb_kills. run.
  destruct (e_active e) eqn:Hact; cbn; [|auto].
  rewrite (sub_exact _ _ He).
  destruct (e_hp e - 150 <=? 0); cbn; auto.
Qed.

Lemma bomb_loop (es : list EnemyJet) : forall g : Game,
  Forall (fun e => Int32.in_range (e_hp e - 150)) es ->
  Int32.in_range (p_score (player g)) ->
  Forall2 bombed es (fst (for_each bomb_enemy es g)) /\
  p_score (player (snd (for_each bomb_enemy es g)))
    = Int32.wrap (p_score (player g) + score_sum (filter bomb_kills es)) /\
  p_bombs (player (snd (for_each bomb_enemy es g))) = p_bombs (player g).
Proof.
  induction es as [|e es IH]; intros g Hhp Hsc.
  - cbn. rewrite Z.add_0_r, wrap_id by assumption. auto.
  - inversion Hhp as [|? ? He Hes]; subst.
    cbn [for_each]. run.
    destruct (bomb_enemy_step e g He) as (S1 & S2 & S3).
    destruct (IH (snd (bomb_enemy e g)) Hes) as (IH1 & IH2 & IH3).
    { rewrite S2. destruct (bomb_kills e); [apply wrap_in_range | assumption]. }
    rewrite IH2, IH3, S2, S3. cbn [filter].
    split; [constructor; assumption|]. split; [|reflexivity].
    destruct (bomb_kills e); cbn [score_sum fold_right]; [|reflexivity].
    unfold Int32.add, score_sum. rewrite wrap_add_wrap. f_equal. lia.
Qed.

(** C8: with at least one bomb in stock, the bomb action uses up one bomb,
    takes exactly 150 hit points from every active enemy, deactivates
    those left with no hit points (and no others), and adds to the score
    the plain sum of the [score] members of the enemies it killed, with no
    combo factor.  The side conditions say that no [int] overflows. *)
Theorem bomb_damage_conservation (g : Game) :
  0 < p_bombs (player g) ->
  Int32.in_range (p_bombs (player g)) ->
  Int32.in_range (p_score (player g)) ->
  Forall (fun e => Int32.in_range (e_hp e - 150)) (enemies g) ->
  Int32.in_range
    (p_score (player g) + score_sum (filter bomb_kills (enemies g))) ->
  p_bombs (player (exec playerBomb g)) = p_bombs (player g) - 1 /\
  Forall2 bombed (enemies g) (enemies (exec playerBomb g)) /\
  p_score (player (exec playerBomb g))
    = p_score (player g) + score_sum (filter bomb_kills (enemies g)).
Proof.
  intros Hpos Hb Hsc Hhp Hsum.
  unfold playerBomb. run.
  destruct (Z.leb_spec (p_bombs (player g)) 0) as [Hle|_]; [lia|].
  cbn.
  match goal with |- context [for_each bomb_enemy (enemies g) ?g1] =>
    destruct (bomb_loop (enemies g) g1 Hhp) as (L1 & L2 & L3) end.
  { cbn. assumption. }
  assert (Hsub : Int32.sub (p_bombs (player g)) 1 = p_bombs (player g) - 1).
  { apply sub_exact.
    unfold Int32.in_range, Int32.min_int, Int32.max_int, Int32.half in *. lia. }
  rewrite L2, L3. cbn. rewrite wrap_id by assumption. auto.
Qed.

(** ** Player projectiles against the enemy pool *)

Lemma bullet_vs_enemy_step (b : Bullet) (e : EnemyJet) (g : Game) :
  Int32.in_range (e_hp e - b_damage b) ->
  fst (fst (bullet_vs_enemy b e g))
    = (if within (b_x b) (b_y b) 50 30 e then set_b_active false b else b) /\
  struck (b_x b) (b_y b) 50 30 (b_damage b) e (snd (fst (bullet_vs_enemy b e g))).
Proof.
  intros Hr. unfold bullet_vs_enemy, struck, within. run.
  destruct (e_active e) eqn:Hact; cbn; [|auto].
  destruct (dist2D (b_x b) (b_y b) (e_x e) (e_y e)
              <~ #(if e_type e =? 3 then 50 else 30)); cbn; [|auto].
  rewrite (sub_exact _ _ Hr).
  destruct (e_hp e - b_damage b <=? 0); cbn; rewrite ?Hact; auto.
Qed.

Lemma bullet_vs_enemies (es : list EnemyJet) : forall (b : Bullet) (g : Game),
  Forall (fun e => Int32.in_range (e_hp e - b_damage b)) es ->
  fst (fst (for_each_with bullet_vs_enemy b es g))
    = (if existsb (within (b_x b) (b_y b) 50 30) es
       then set_b_active false b else b) /\
  Forall2 (struck (b_x b) (b_y b) 50 30 (b_damage b)) es
    (snd (fst (for_each_with bullet_vs_enemy b es g))).
Proof.
  induction es as [|e es IH]; intros b g Hr.
  - cbn. auto.
  - inversion Hr as [|? ? He Hes]; subst.
    cbn [for_each_with existsb]. run.
    destruct (bullet_vs_enemy_step b e g He) as (S1 & S2).
    rewrite S1.
    destruct (within (b_x b) (b_y b) 50 30 e); cbn [orb].
    + destruct (IH (set_b_active false b) (snd (bullet_vs_enemy b e g)) Hes)
        as (IH1 & IH2).
      rewrite IH1. split.
      * destruct (existsb _ es); reflexivity.
      * constructor; assumption.
    + destruct (IH b (snd (bullet_vs_enemy b e g)) Hes) as (IH1 & IH2).
      rewrite IH1. split; [reflexivity | constructor; assumption].
Qed.

Lemma missile_vs_enemy_step (m : Missile) (e : EnemyJet) (g : Game) :
  Int32.in_range (e_hp e - m_damage m) ->
  fst (fst (missile_vs_enemy m e g))
    = (if within (m_x m) (m_y m) 60 35 e then set_m_active false m else m) /\
  struck (m_x m) (m_y m) 60 35 (m_damage m) e (snd (fst (missile_vs_enemy m e g))).
Proof.
  intros Hr. unfold missile_vs_enemy, struck, within. run.
  destruct (e_active e) eqn:Hact; cbn; [|auto].
  destruct (dist2D (m_x m) (m_y m) (e_x e) (e_y e)
              <~ #(if e_type e =? 3 then 60 else 35)); cbn; [|auto].
  rewrite (sub_exact _ _ Hr).
  destruct (e_hp e - m_damage m <=? 0); cbn; rewrite ?Hact; auto.
Qed.

Lemma missile_vs_enemies (es : list EnemyJet) : forall (m : Missile) (g : Game),
  Forall (fun e => Int32.in_range (e_hp e - m_damage m)) es ->
  fst (fst (for_each_with missile_vs_enemy m es g))
    = (if existsb (within (m_x m) (m_y m) 60 35) es
       then set_m_active false m else m) /\
  Forall2 (struck (m_x m) (m_y m) 60 35 (m_damage m)) es
    (snd (fst (for_each_with missile_vs_enemy m es g))).
Proof.
  induction es as [|e es IH]; intros m g Hr.
  - cbn. auto.
  - inversion Hr as [|? ? He Hes]; subst.
    cbn [for_each_with existsb]. run.
    destruct (missile_vs_enemy_step m e g He) as (S1 & S2).
    rewrite S1.
    destruct (within (m_x m) (m_y m) 60 35 e); cbn [orb].
    + destruct (IH (set_m_active false m) (snd (missile_vs_enemy m e g)) Hes)
        as (IH1 & IH2).
      rewrite IH1. split.
      * destruct (existsb _ es); reflexivity.
      * constructor; assumption.
    + destruct (IH m (snd (missile_vs_enemy m e g)) Hes) as (IH1 & IH2).
      rewrite IH1. split; [reflexivity | constructor; assumption].
Qed.

(** C1, as the code has it: an active player bullet, once moved, takes its
    damage from every active enemy within the hit radius (50 for the boss,
    30 otherwise), not only from the first one, leaves every other enemy
    as it was, and is consumed as soon as one enemy is within the radius;
    likewise for an active player missile that has not expired, with radii
    60 and 35.  The side conditions say that no hit-point subtraction
    overflows. *)
Theorem player_projectile_hits_all_in_radius (g : Game) :
  (forall b : Bullet,
     b_active b = true -> b_isEnemy b = false ->
     Forall (fun e => Int32.in_range (e_hp e - b_damage b)) (enemies g) ->
     let x' := b_x b +~ b_vx b *~ dt g in
     let y' := b_y b +~ b_vy b *~ dt g in
     Forall2 (struck x' y' 50 30 (b_damage b)) (enemies g)
       (enemies (snd (update_bullet b g))) /\
     (existsb (within x' y' 50 30) (enemies g) = true ->
      b_active (fst (update_bullet b g)) = false)) /\
  (forall m : Missile,
     m_active m = true -> m_isEnemy m = false ->
     (m_life m -~ dt g <=~ #0) = false ->
     Forall (fun e => Int32.in_range (e_hp e - m_damage m)) (enemies g) ->
     let x' := m_x (missile_advanced g m) in
     let y' := m_y (missile_advanced g m) in
     Forall2 (struck x' y' 60 35 (m_damage m)) (enemies g)
       (enemies (snd (update_missile m g))) /\
     (existsb (within x' y' 60 35) (enemies g) = true ->
      m_active (fst (update_missile m g)) = false)).
Proof.
  split.
  - intros b Hact Hown Hr x' y'. subst x' y'.
    unfold update_bullet. run. rewrite Hact. cbn [negb].
    match goal with |- context [for_each_with bullet_vs_enemy ?b1 _ _] =>
      set (bm := b1) end.
    assert (Hown' : b_isEnemy bm = false).
    { subst bm. destruct (bullet_out_of_bounds _); cbn; assumption. }
    rewrite Hown'. cbn [negb fst snd].
    assert (Hx : b_x bm = b_x b +~ b_vx b *~ dt g)
      by (subst bm; destruct (bullet_out_of_bounds _); reflexivity).
    assert (Hy : b_y bm = b_y b +~ b_vy b *~ dt g)
      by (subst bm; destruct (bullet_out_of_bounds _); reflexivity).
    assert (Hd : b_damage bm = b_damage b)
      by (subst bm; destruct (bullet_out_of_bounds _); reflexivity).
    destruct (bullet_vs_enemies (enemies g) bm g) as (L1 & L2).
    { rewrite Hd. assumption. }
    rewrite Hx, Hy, Hd in *. split.
    + cbn. exact L2.
    + intros Hex. rewrite L1, Hex. reflexivity.
  - intros m Hact Hown Hlife Hr x' y'. subst x' y'.
    unfold update_missile. run. rewrite Hact. cbn [negb].
    cbn [m_life set_m_life]. rewrite Hlife.
    fold (missile_advanced g m).
    assert (Hown' : m_isEnemy (missile_advanced g m) = false).
    { unfold missile_advanced, homing. cbn [m_isEnemy set_m_y set_m_x set_m_life].
      rewrite Hown.
      destruct (negb false && _); [|cbn; assumption].
      destruct (homing_target _ _); cbn; assumption. }
    assert (Hd : m_damage (missile_advanced g m) = m_damage m).
    { unfold missile_advanced, homing. cbn [m_isEnemy set_m_y set_m_x set_m_life].
      rewrite Hown.
      destruct (negb false && _); [|reflexivity].
      destruct (homing_target _ _); reflexivity. }
    rewrite Hown'. cbn [negb fst snd].
    destruct (missile_vs_enemies (enemies g) (missile_advanced g m) g) as (L1 & L2).
    { rewrite Hd. assumption. }
    rewrite Hd in *. split.
    + cbn. exact L2.
    + intros Hex. rewrite L1, Hex.
      destruct (missile_out_of_bounds _); reflexivity.
Qed.

(** ** Guidance with a zero-length direction *)

(** C7, as the code has it: when the length of the vector from the missile
    to its target is not positive, the two quotients by that length are
    skipped, so nothing is divided by zero; the velocity is still blended,
    by the factor [3 * dt], toward 500 times the vector as it stands, that
    is toward zero when the two positions coincide, and so is not left
    unchanged. *)
Theorem steer_zero_length (d : F) (m : Missile) (target : EnemyJet) :
  let dx := e_x target -~ m_x m in
  let dy := e_y target -~ m_y m in
  (fsqrt (dx *~ dx +~ dy *~ dy) >~ #0) = false ->
  m_vx (steer d m target) = m_vx m +~ (dx *~ #500 -~ m_vx m) *~ (d *~ #3) /\
  m_vy (steer d m target) = m_vy m +~ (dy *~ #500 -~ m_vy m) *~ (d *~ #3) /\
  (forall es, homing_target m es = Some target -> m_isEnemy m = false ->
     homing d es m = steer d m target).
Proof.
  intros dx dy Hlen. subst dx dy.
  split; [|split].
  - unfold steer, lerp. cbn. rewrite Hlen. reflexivity.
  - unfold steer, lerp. cbn. rewrite Hlen. reflexivity.
  - intros es Ht Hown. unfold homing. rewrite Hown, Ht.
    destruct es; [discriminate Ht | reflexivity].
Qed.

(** ** The boss latch *)

Lemma spawnEnemy_boss (g : Game) :
  exists boss : EnemyJet,
    enemies (exec (spawnEnemy 3) g) = enemies g ++ [boss] /\
    e_type boss = 3 /\ e_active boss = true /\ e_hp boss = 500 /\
    bossAlive (exec (spawnEnemy 3) g) = bossAlive g.
Proof.
  unfold spawnEnemy, rand. run. cbn. eexists. repeat split.
Qed.

(** C2, as the code has it: the boss-spawn step spawns one Boss and sets
    the latch whenever the elapsed time exceeds 90 s and the latch is
    clear, and does nothing otherwise; a Boss killed by a bullet or by a
    missile clears the latch.  Nothing counts the spawns, so after such a
    kill the next frame spawns a Boss again. *)
Theorem boss_spawn_follows_latch (g : Game) :
  ((gameTime g >~ #90) = true -> bossAlive g = false ->
     bossAlive (exec spawn_boss g) = true /\
     exists boss : EnemyJet,
       enemies (exec spawn_boss g) = enemies g ++ [boss] /\
       e_type boss = 3 /\ e_active boss = true /\ e_hp boss = 500) /\
  ((gameTime g >~ #90) = false \/ bossAlive g = true ->
     exec spawn_boss g = g) /\
  (forall (b : Bullet) (e : EnemyJet),
     within (b_x b) (b_y b) 50 30 e = true -> e_type e = 3 ->
     Int32.sub (e_hp e) (b_damage b) <= 0 ->
     bossAlive (snd (bullet_vs_enemy b e g)) = false) /\
  (forall (m : Missile) (e : EnemyJet),
     within (m_x m) (m_y m) 60 35 e = true -> e_type e = 3 ->
     Int32.sub (e_hp e) (m_damage m) <= 0 ->
     bossAlive (snd (missile_vs_enemy m e g)) = false).
Proof.
  split; [|split; [|split]].
  - intros Ht Hb. unfold spawn_boss. run. rewrite Ht, Hb. cbn [negb andb].
    destruct (spawnEnemy_boss (set_bossAlive true g))
      as (boss & E1 & E2 & E3 & E4 & E5).
    unfold exec in *. split.
    + rewrite E5. reflexivity.
    + exists boss. rewrite E1. auto.
  - intros H. unfold spawn_boss. run.
    destruct H as [H|H]; rewrite H; cbn; [reflexivity|].
    rewrite andb_false_r. reflexivity.
  - intros b e Hin Hty Hhp. unfold within in Hin.
    apply andb_prop in Hin. destruct Hin as [Hact Hd].
    unfold bullet_vs_enemy, rand. run. rewrite Hact. cbn [negb].
    rewrite Hd. cbn.
    destruct (Z.leb_spec (Int32.sub (e_hp e) (b_damage b)) 0); [|lia].
    rewrite Hty. cbn.
    match goal with |- context [Int32.rem ?r 3 =? 0] =>
      destruct (Int32.rem r 3 =? 0) end; reflexivity.
  - intros m e Hin Hty Hhp. unfold within in Hin.
    apply andb_prop in Hin. destruct Hin as [Hact Hd].
    unfold missile_vs_enemy, rand. run. rewrite Hact. cbn [negb].
    rewrite Hd. cbn.
    destruct (Z.leb_spec (Int32.sub (e_hp e) (m_damage m)) 0); [|lia].
    rewrite Hty. cbn.
    match goal with |- context [Int32.rem ?r 2 =? 0] =>
      destruct (Int32.rem r 2 =? 0) end; reflexivity.
Qed.

(** ** The counters of the player *)

Lemma exec_seq (m k : M unit) (g : @Game F) :
  exec (bind m (fun _ => k)) g = exec k (exec m g).
Proof. reflexivity. Qed.

Lemma vital_standing (k : Z) (g g' : @Game F) :
  vital g' = vital g -> standing k g -> standing k g'.
Proof.
  unfold vital, standing, counters_ok, headroom, alive, blocked.
  intros E. injection E as -> -> -> -> -> -> -> -> ->. tauto.
Qed.

Ltac int_range :=
  unfold damage_ok, Int32.in_range, Int32.min_int, Int32.max_int,
    Int32.half in *.

(** Loops: an invariant indexed by the number of elements visited. *)
Lemma for_each_rule {A : Type} (body : A -> @M F A)
    (Inv : nat -> Game -> Prop) (P : A -> Prop) :
  (forall a g n, P a -> Inv n g -> Inv (S n) (snd (body a g))) ->
  forall l g n, Forall P l -> Inv n g ->
    Inv (n + length l)%nat (snd (for_each body l g)).
Proof.
  intros Hbody. induction l as [|a l IH]; intros g n Hl Hi.
  - cbn. rewrite Nat.add_0_r. assumption.
  - inversion Hl; subst. cbn [for_each length]. run.
    rewrite Nat.add_succ_r. apply (IH _ (S n)); auto.
Qed.

Lemma for_each_with_rule {S A : Type} (body : S -> A -> @M F (S * A))
    (Inv : nat -> Game -> Prop) (Q : S -> Prop) :
  (forall s a g n, Q s -> Inv n g ->
     Inv (Datatypes.S n) (snd (body s a g)) /\ Q (fst (fst (body s a g)))) ->
  forall l s g n, Q s -> Inv n g ->
    Inv (n + length l)%nat (snd (for_each_with body s l g)) /\
    Q (fst (fst (for_each_with body s l g))).
Proof.
  intros Hbody. induction l as [|a l IH]; intros s g n Hs Hi.
  - cbn. rewrite Nat.add_0_r. auto.
  - cbn [for_each_with length]. run.
    destruct (Hbody s a g n Hs Hi) as [Hi' Hs'].
    rewrite Nat.add_succ_r. apply (IH _ _ (Datatypes.S n)); auto.
Qed.

Lemma for_each_length {A : Type} (body : A -> @M F A) (l : list A) :
  forall g, length (fst (for_each body l g)) = length l.
Proof.
  induction l as [|a l IH]; intros g; [reflexivity|].
  cbn [for_each]. run. cbn. rewrite IH. reflexivity.
Qed.

Lemma for_each_with_length {S A : Type} (body : S -> A -> @M F (S * A))
    (l : list A) :
  forall s g, length (snd (fst (for_each_with body s l g))) = length l.
Proof.
  induction l as [|a l IH]; intros s g; [reflexivity|].
  cbn [for_each_with]. run. cbn. rewrite IH. reflexivity.
Qed.

Lemma wp_bind {A B : Type} (m : @M F A) (k : A -> @M F B) Q g :
  wp m (fun a g' => wp (k a) Q g') g -> wp (bind m k) Q g.
Proof. exact (fun H => H). Qed.

Lemma wp_ret {A : Type} (a : A) (Q : A -> @Game F -> Prop) g :
  Q a g -> wp (ret a) Q g.
Proof. exact (fun H => H). Qed.

Lemma wp_get (Q : @Game F -> @Game F -> Prop) g : Q g g -> wp get Q g.
Proof. exact (fun H => H). Qed.

Lemma wp_modify (f : @Game F -> @Game F) Q g : Q tt (f g) -> wp (modify f) Q g.
Proof. exact (fun H => H). Qed.

Lemma wp_modify_player (f : @Player F -> @Player F) Q g :
  Q tt (set_player (f (player g)) g) -> wp (modify_player f) Q g.
Proof. exact (fun H => H). Qed.

Lemma wp_rand (Q : Z -> @Game F -> Prop) g :
  Q (Z.of_N (rng g 0%nat) mod (RAND_MAX + 1)) (set_rng (fun n => rng g (S n)) g) ->
  wp rand Q g.
Proof. exact (fun H => H). Qed.

Lemma wp_weaken {A : Type} (m : @M F A) (Q Q' : A -> @Game F -> Prop) g :
  (forall a g', Q a g' -> Q' a g') -> wp m Q g -> wp m Q' g.
Proof. unfold wp. auto. Qed.

(** Reading members of rebuilt records. *)
Ltac norm_state :=
  repeat progress cbn [fst snd negb andb orb
    c_r c_g c_b c_a r_x r_y r_w r_h b_x b_y b_vx b_vy b_active b_isEnemy
    b_damage b_col m_x m_y m_vx m_vy m_targetX m_targetY m_active m_isEnemy
    m_damage m_life ex_x ex_y ex_radius ex_maxRadius ex_life ex_maxLife
    ex_col pu_x pu_y pu_vy pu_active pu_type pu_bob e_x e_y e_vx e_vy
    e_active e_hp e_maxHp e_type e_shootTimer e_shootInterval e_moveTimer
    e_depth e_score s_x s_y s_speed s_brightness s_size cl_x cl_y cl_speed
    cl_w cl_h cl_alpha mt_x mt_h mt_speed mt_col p_x p_y p_vx p_vy p_hp
    p_maxHp p_shield p_maxShield p_shieldActive p_shieldTimer p_score
    p_lives p_level p_kills p_ammo p_bombs p_rapidFire p_rapidTimer
    p_shootCooldown p_shootTimer p_thrusterAnim p_invTimer p_dragging
    p_dragOffX p_dragOffY p_tiltX p_tiltY state player bullets missiles
    explosions powerups enemies stars clouds mountains dt gameTime
    enemySpawnTimer enemySpawnInterval powerupSpawnTimer cloudTimer
    mountainTimer bossSpawnTimer bossAlive scrollY bgScrollY menuAnim
    gameoverTimer combo comboTimer highScore shakeTimer shakeAmt touchX
    touchY btnFire btnMissile btnBomb btnPause rng set_b_x set_b_y
    set_b_active set_m_x set_m_y set_m_vx set_m_vy set_m_active set_m_life
    set_ex_radius set_ex_life set_pu_y set_pu_active set_pu_bob set_e_x
    set_e_y set_e_vx set_e_vy set_e_active set_e_hp set_e_shootTimer
    set_e_moveTimer set_s_x set_s_y set_cl_x set_cl_y set_mt_x set_mt_h
    set_p_x set_p_y set_p_hp set_p_shield set_p_shieldActive
    set_p_shieldTimer set_p_score set_p_lives set_p_level set_p_kills
    set_p_ammo set_p_bombs set_p_rapidFire set_p_rapidTimer
    set_p_shootTimer set_p_thrusterAnim set_p_invTimer set_p_dragging
    set_p_tiltX set_state set_player set_bullets set_missiles
    set_explosions set_powerups set_enemies set_stars set_clouds
    set_mountains set_gameTime set_enemySpawnTimer set_powerupSpawnTimer
    set_bossAlive set_gameoverTimer set_combo set_comboTimer set_highScore
    set_shakeTimer set_shakeAmt set_touchX set_touchY set_rng set_dt
    set_menuAnim] in *.

Ltac wp_step :=
  lazymatch goal with
  | |- wp (bind _ _) _ _ => apply wp_bind
  | |- wp (ret _) _ _ => apply wp_ret
  | |- wp get _ _ => apply wp_get
  | |- wp (modify _) _ _ => apply wp_modify
  | |- wp (modify_player _) _ _ => apply wp_modify_player
  | |- wp rand _ _ => apply wp_rand
  | |- wp (spawnExplosion _ _ _ _) _ _ => unfold spawnExplosion at 1
  | |- wp (spawnBullet _ _ _ _ _ _ _) _ _ => unfold spawnBullet at 1
  | |- wp (spawnMissile _ _ _ _ _ _) _ _ => unfold spawnMissile at 1
  | |- wp (spawnPowerup _ _) _ _ => unfold spawnPowerup at 1
  | |- wp (when true _) _ _ => unfold when at 1
  | |- wp (when false _) _ _ => unfold when at 1
  end;
  cbv beta zeta; norm_state.

Ltac wp_steps := norm_state; repeat wp_step.

Ltac wp_branch :=
  lazymatch goal with
  | |- wp (when ?c _) _ _ => destruct c eqn:?
  | |- wp (if ?c then _ else _) _ _ => destruct c eqn:?
  | |- wp (bind (when ?c _) _) _ _ => destruct c eqn:?
  | |- wp (bind (if ?c then _ else _) _) _ _ => destruct c eqn:?
  end.

Ltac wp_go := norm_state; repeat (wp_step || wp_branch).

Ltac to_wp :=
  lazymatch goal with
  | |- ?P (exec ?m ?g) => change (wp m (fun _ g' => P g') g)
  | |- ?P (snd (?m ?g)) => change (wp m (fun _ g' => P g') g)
  end.

Ltac split_ifs :=
  repeat match goal with
         | |- context [if ?c then _ else _] => destruct c
         end.

(** ** The two ways the player is hit, and the two ways an enemy is killed

    What the bullet blocks do and the missile blocks leave out. *)

(** Whatever the missile and the game, an enemy missile that reaches the
    player touches neither the high score nor the shield. *)
Lemma missile_vs_player_leaves (m : Missile) (g : Game) :
  highScore (snd (missile_vs_player m g)) = highScore g /\
  p_shield (player (snd (missile_vs_player m g))) = p_shield (player g).
Proof.
  change (wp (missile_vs_player m)
            (fun _ g' => highScore g' = highScore g /\
                         p_shield (player g') = p_shield (player g)) g).
  unfold missile_vs_player. wp_go; auto.
Qed.

(** Whatever the missile, the enemy and the game, a player missile leaves
    the combo, its timer and the level as they are, kill or no kill. *)
Lemma missile_vs_enemy_leaves (m : Missile) (e : EnemyJet) (g : Game) :
  combo (snd (missile_vs_enemy m e g)) = combo g /\
  comboTimer (snd (missile_vs_enemy m e g)) = comboTimer g /\
  p_level (player (snd (missile_vs_enemy m e g))) = p_level (player g).
Proof.
  change (wp (missile_vs_enemy m e)
            (fun _ g' => combo g' = combo g /\ comboTimer g' = comboTimer g /\
                         p_level (player g') = p_level (player g)) g).
  unfold missile_vs_enemy. wp_go; auto.
Qed.

(** The bomb never clears the boss latch. *)
Lemma bomb_enemy_keeps_latch (e : EnemyJet) (g : Game) :
  bossAlive (snd (bomb_enemy e g)) = bossAlive g.
Proof.
  change (wp (bomb_enemy e) (fun _ g' => bossAlive g' = bossAlive g) g).
  unfold bomb_enemy. wp_go; auto.
Qed.

(** The fatal hit of an enemy bullet ends the session and records the
    score when it beats the high score. *)
Lemma bullet_death_records_high_score (b : Bullet) (g : Game) :
  (p_invTimer (player g) <=~ #0) = true ->
  (dist2D (b_x b) (b_y b) (p_x (player g)) (p_y (player g)) <~ #30) = true ->
  p_shieldActive (player g) && (p_shield (player g) >? 0) = false ->
  Int32.sub (p_hp (player g)) (b_damage b) <= 0 ->
  Int32.sub (p_lives (player g)) 1 <= 0 ->
  state (snd (bullet_vs_player b g)) = STATE_GAMEOVER /\
  highScore (snd (bullet_vs_player b g))
    = Z.max (p_score (player g)) (highScore g).
Proof.
  intros Hinv Hd Hsh Hhp Hl.
  change (wp (bullet_vs_player b)
            (fun _ g' => state g' = STATE_GAMEOVER /\
               highScore g' = Z.max (p_score (player g)) (highScore g)) g).
  unfold bullet_vs_player. wp_steps. rewrite Hinv, Hd, Hsh. cbn [andb].
  wp_steps.
  destruct (Z.leb_spec (Int32.sub (p_hp (player g)) (b_damage b)) 0); [|lia].
  wp_steps.
  destruct (Z.leb_spec (Int32.sub (p_lives (player g)) 1) 0); [|lia].
  wp_steps.
  destruct (Z.gtb_spec (p_score (player g)) (highScore g)); wp_steps;
    split; auto; lia.
Qed.

(** An enemy bullet that meets an active, non-empty shield is absorbed:
    the shield loses the damage, down to 0 at most, and the health is
    untouched. *)
Lemma bullet_absorbed_by_shield (b : Bullet) (g : Game) :
  (p_invTimer (player g) <=~ #0) = true ->
  (dist2D (b_x b) (b_y b) (p_x (player g)) (p_y (player g)) <~ #30) = true ->
  p_shieldActive (player g) = true -> 0 < p_shield (player g) ->
  0 < p_hp (player g) ->
  p_shield (player (snd (bullet_vs_player b g)))
    = Z.max 0 (Int32.sub (p_shield (player g)) (b_damage b)) /\
  p_hp (player (snd (bullet_vs_player b g))) = p_hp (player g) /\
  p_invTimer (player (snd (bullet_vs_player b g))) = lit 5 10.
Proof.
  intros Hinv Hd Hact Hsh Hhp.
  change (wp (bullet_vs_player b)
            (fun _ g' =>
               p_shield (player g')
                 = Z.max 0 (Int32.sub (p_shield (player g)) (b_damage b)) /\
               p_hp (player g') = p_hp (player g) /\
               p_invTimer (player g') = lit 5 10) g).
  unfold bullet_vs_player. wp_steps. rewrite Hinv, Hd, Hact. cbn [andb].
  destruct (Z.gtb_spec (p_shield (player g)) 0); [|lia].
  wp_steps.
  destruct (Z.ltb_spec (Int32.sub (p_shield (player g)) (b_damage b)) 0);
    wp_steps;
    (destruct (Z.leb_spec (p_hp (player g)) 0); [lia|]); wp_steps;
    repeat split; lia.
Qed.

Section Frame.

(** The invulnerability windows set by a hit, 0.5 s for a bullet and 1 s
    for a missile, are positive. *)
Hypothesis window_short : (lit 5 10 <=~ #0) = false.
Hypothesis window_missile : (lit 10 10 <=~ #0) = false.

(** [standing] for a game read off member by member; [side] settles
    which of its two cases holds. *)
Ltac standing_now side :=
  unfold standing, counters_ok, headroom; norm_state;
  split; [repeat split; int_range; lia|];
  split; [repeat split; int_range; lia|];
  split; [int_range; lia|];
  side.

Ltac still_alive := left; unfold alive; norm_state; int_range; lia.
Ltac session_over :=
  right; unfold blocked; norm_state; split; [assumption | reflexivity].

Lemma bullet_vs_player_standing (b : Bullet) (k : Z) (g : Game) :
  damage_ok (b_damage b) -> standing k g ->
  wp (bullet_vs_player b)
    (fun _ g' => standing k g' /\ enemies g' = enemies g /\
                 missiles g' = missiles g /\ powerups g' = powerups g) g.
Proof.
  intros Hd Hst. pose proof Hst as (Hc & Hh & Hlow & Hs).
  unfold bullet_vs_player. wp_steps.
  destruct (p_invTimer (player g) <=~ #0) eqn:Hinv; cbn [andb];
    [|wp_steps; auto].
  destruct (dist2D _ _ _ _ <~ #30); [|wp_steps; auto].
  destruct Hs as [(Hl & Hhp)|(Hb & _)];
    [|unfold blocked in Hb; congruence].
  unfold counters_ok, headroom in *.
  destruct Hc as ((Hs0 & Hs1) & Hhm & Ha & Hbo & Hli).
  destruct Hh as (H1 & H2 & H3 & H4 & H5).
  wp_steps.
  destruct (p_shieldActive (player g) && (p_shield (player g) >? 0)).
  - wp_steps.
    assert (E : Int32.sub (p_shield (player g)) (b_damage b)
                = p_shield (player g) - b_damage b)
      by (apply sub_exact; int_range; lia).
    rewrite E.
    destruct (Z.ltb_spec (p_shield (player g) - b_damage b) 0);
      wp_steps;
      (destruct (Z.leb_spec (p_hp (player g)) 0); [lia|]); wp_steps;
      (split; [standing_now still_alive | auto]).
  - wp_steps.
    assert (E : Int32.sub (p_hp (player g)) (b_damage b)
                = p_hp (player g) - b_damage b)
      by (apply sub_exact; int_range; lia).
    rewrite E.
    destruct (Z.leb_spec (p_hp (player g) - b_damage b) 0); wp_steps.
    + assert (E2 : Int32.sub (p_lives (player g)) 1 = p_lives (player g) - 1)
        by (apply sub_exact; int_range; lia).
      rewrite E2.
      destruct (Z.leb_spec (p_lives (player g) - 1) 0); wp_steps.
      * destruct (p_score (player g) >? highScore g); wp_steps;
          (split; [standing_now session_over | auto]).
      * split; [standing_now still_alive | auto].
    + split; [standing_now still_alive | auto].
Qed.

Lemma missile_vs_player_standing (m : Missile) (k : Z) (g : Game) :
  damage_ok (m_damage m) -> standing k g ->
  wp (missile_vs_player m)
    (fun _ g' => standing k g' /\ enemies g' = enemies g /\
                 powerups g' = powerups g) g.
Proof.
  intros Hd Hst. pose proof Hst as (Hc & Hh & Hlow & Hs).
  unfold missile_vs_player. wp_steps.
  destruct (p_invTimer (player g) <=~ #0) eqn:Hinv; cbn [andb];
    [|wp_steps; auto].
  destruct (dist2D _ _ _ _ <~ #35); [|wp_steps; auto].
  destruct Hs as [(Hl & Hhp)|(Hb & _)];
    [|unfold blocked in Hb; congruence].
  unfold counters_ok, headroom in *.
  destruct Hc as ((Hs0 & Hs1) & Hhm & Ha & Hbo & Hli).
  destruct Hh as (H1 & H2 & H3 & H4 & H5).
  wp_steps.
  assert (E : Int32.sub (p_hp (player g)) (m_damage m)
              = p_hp (player g) - m_damage m)
    by (apply sub_exact; int_range; lia).
  rewrite E.
  destruct (Z.leb_spec (p_hp (player g) - m_damage m) 0); wp_steps.
  - assert (E2 : Int32.sub (p_lives (player g)) 1 = p_lives (player g) - 1)
      by (apply sub_exact; int_range; lia).
    rewrite E2.
    destruct (Z.leb_spec (p_lives (player g) - 1) 0); wp_steps.
    + split; [standing_now session_over | auto].
    + split; [standing_now still_alive | auto].
  - split; [standing_now still_alive | auto].
Qed.

(** A player projectile leaves the vital members alone and drops at most
    one pickup per enemy. *)
Lemma bullet_vs_enemy_frame (b : Bullet) (e : EnemyJet) (g : Game) :
  wp (bullet_vs_enemy b e)
    (fun _ g' => vital g' = vital g /\ missiles g' = missiles g /\
                 (length (powerups g') <= S (length (powerups g)))%nat) g.
Proof.
  unfold bullet_vs_enemy.
  destruct (e_active e); cbn [negb]; [|wp_steps; auto].
  destruct (dist2D _ _ _ _ <~ _); [|wp_steps; auto].
  wp_steps.
  destruct (Int32.sub (e_hp e) (b_damage b) <=? 0); [|wp_steps; auto].
  wp_steps.
  destruct (e_type e =? 3); wp_steps;
    match goal with |- context [Int32.rem ?r 3 =? 0] =>
      destruct (Int32.rem r 3 =? 0) end;
    wp_steps; repeat split; auto; rewrite length_app; cbn; lia.
Qed.

Lemma missile_vs_enemy_frame (m : Missile) (e : EnemyJet) (g : Game) :
  wp (missile_vs_enemy m e)
    (fun _ g' => vital g' = vital g /\
                 (length (powerups g') <= S (length (powerups g)))%nat) g.
Proof.
  unfold missile_vs_enemy.
  destruct (e_active e); cbn [negb]; [|wp_steps; auto].
  destruct (dist2D _ _ _ _ <~ _); [|wp_steps; auto].
  wp_steps.
  destruct (Int32.sub (e_hp e) (m_damage m) <=? 0); [|wp_steps; auto].
  wp_steps.
  destruct (e_type e =? 3); wp_steps;
    match goal with |- context [Int32.rem ?r 2 =? 0] =>
      destruct (Int32.rem r 2 =? 0) end;
    wp_steps; repeat split; auto; rewrite length_app; cbn; lia.
Qed.

Lemma update_bullet_standing (b : Bullet) (k : Z) (g : Game) :
  damage_ok (b_damage b) -> standing k g ->
  wp (update_bullet b)
    (fun _ g' => standing k g' /\ missiles g' = missiles g /\
       length (enemies g') = length (enemies g) /\
       (length (powerups g')
        <= length (powerups g) + length (enemies g))%nat) g.
Proof.
  intros Hd Hst. unfold update_bullet.
  destruct (b_active b); cbn [negb];
    [|wp_steps; split; [assumption | repeat split; lia]].
  wp_steps.
  match goal with |- wp (if negb (b_isEnemy ?b1) then _ else _) _ _ =>
    set (bm := b1);
    assert (Hd' : damage_ok (b_damage bm))
      by (subst bm; destruct (bullet_out_of_bounds _); assumption);
    clearbody bm end.
  destruct (b_isEnemy bm); cbn [negb].
  - eapply wp_weaken; [|apply (bullet_vs_player_standing bm k g Hd' Hst)].
    cbv beta. intros _ g' (H1 & H2 & H3 & H4).
    rewrite H2, H3, H4. split; [assumption | repeat split; lia].
  - apply wp_bind.
    destruct (for_each_with_rule bullet_vs_enemy
      (fun n g' => vital g' = vital g /\ missiles g' = missiles g /\
                   (length (powerups g') <= length (powerups g) + n)%nat)
      (fun _ => True)) with (l := enemies g) (s := bm) (g := g) (n := 0%nat)
      as [(V & Ms & Pw) _].
    { intros s a g0 n _ (V & Ms & Pw).
      destruct (bullet_vs_enemy_frame s a g0) as (V' & Ms' & Pw').
      split; [|exact I]. split; [congruence|]. split; [congruence|]. lia. }
    { exact I. }
    { repeat split; auto. lia. }
    unfold wp at 1. cbv beta. wp_steps.
    rewrite for_each_with_length.
    split; [|repeat split; auto; lia].
    eapply vital_standing; [|exact Hst].
    unfold vital in *. norm_state. exact V.
Qed.

Lemma update_bullets_standing (k : Z) (g : Game) :
  Forall (fun b => damage_ok (b_damage b)) (bullets g) -> standing k g ->
  standing k (exec update_bullets g) /\
  missiles (exec update_bullets g) = missiles g /\
  length (enemies (exec update_bullets g)) = length (enemies g) /\
  (length (powerups (exec update_bullets g))
   <= length (powerups g) + length (bullets g) * length (enemies g))%nat.
Proof.
  intros Hd Hst.
  set (Inv := fun (n : nat) (g' : Game) =>
    standing k g' /\ missiles g' = missiles g /\
    length (enemies g') = length (enemies g) /\
    (length (powerups g') <= length (powerups g) + n * length (enemies g))%nat).
  assert (Hbody : forall b g0 n, damage_ok (b_damage b) -> Inv n g0 ->
                    Inv (S n) (snd (update_bullet b g0))).
  { intros b g0 n Hb (S1 & S2 & S3 & S4).
    destruct (update_bullet_standing b k g0 Hb S1) as (T1 & T2 & T3 & T4).
    split; [assumption|]. split; [congruence|]. split; [congruence|].
    rewrite S3 in T4. cbn [Nat.mul]. lia. }
  assert (H0 : Inv 0%nat g).
  { split; [assumption | repeat split; lia]. }
  destruct (for_each_rule update_bullet Inv _ Hbody (bullets g) g 0%nat Hd H0)
    as (S1 & S2 & S3 & S4).
  unfold update_bullets, exec.
  change (wp (bind get (fun g0 => bind (for_each update_bullet (bullets g0))
                                    (fun bs => modify (set_bullets bs))))
            (fun _ g' => standing k g' /\ missiles g' = missiles g /\
               length (enemies g') = length (enemies g) /\
               (length (powerups g')
                <= length (powerups g) + length (bullets g) * length (enemies g))%nat)
            g).
  wp_steps. unfold wp at 1. cbv beta. wp_steps.
  split; [|repeat split; auto; lia].
  eapply vital_standing; [|exact S1]. reflexivity.
Qed.

Lemma homing_damage (d : F) (es : list EnemyJet) (m : Missile) :
  m_damage (homing d es m) = m_damage m.
Proof.
  unfold homing. destruct (negb (m_isEnemy m) && _); [|reflexivity].
  destruct (homing_target m es); reflexivity.
Qed.

Lemma update_missile_standing (m : Missile) (k : Z) (g : Game) :
  damage_ok (m_damage m) -> standing k g ->
  wp (update_missile m)
    (fun _ g' => standing k g' /\
       length (enemies g') = length (enemies g) /\
       (length (powerups g')
        <= length (powerups g) + length (enemies g))%nat) g.
Proof.
  intros Hd Hst. unfold update_missile.
  destruct (m_active m); cbn [negb];
    [|wp_steps; split; [assumption | repeat split; lia]].
  wp_steps.
  destruct (m_life m -~ dt g <=~ #0);
    [wp_steps; split; [assumption | repeat split; lia]|].
  match goal with |- wp (bind (if negb (m_isEnemy ?m1) then _ else _) _) _ _ =>
    set (mm := m1);
    assert (Hd' : damage_ok (m_damage mm))
      by (subst mm; norm_state; rewrite homing_damage; assumption);
    clearbody mm end.
  apply wp_bind.
  destruct (m_isEnemy mm); cbn [negb].
  - eapply wp_weaken;
      [|match goal with |- wp (missile_vs_player ?mx) _ _ =>
          apply (missile_vs_player_standing mx k g Hd' Hst) end].
    cbv beta. intros m' g' (H1 & H2 & H3). wp_steps.
    rewrite H2, H3. split; [assumption | repeat split; lia].
  - apply wp_bind.
    set (Inv := fun (n : nat) (g' : Game) =>
      vital g' = vital g /\
      (length (powerups g') <= length (powerups g) + n)%nat).
    assert (Hbody : forall (s : Missile) a g0 n, True -> Inv n g0 ->
              Inv (S n) (snd (missile_vs_enemy s a g0)) /\ True).
    { intros s a g0 n _ (V & Pw).
      destruct (missile_vs_enemy_frame s a g0) as (V' & Pw').
      split; [|exact I]. split; [congruence | lia]. }
    assert (H0 : Inv 0%nat g) by (split; [reflexivity | lia]).
    match goal with |- context [for_each_with missile_vs_enemy ?mx _] =>
      destruct (for_each_with_rule missile_vs_enemy Inv (fun _ => True) Hbody
                  (enemies g) mx g 0%nat I H0) as [(V & Pw) _] end.
    unfold wp at 1. cbv beta. wp_steps.
    rewrite for_each_with_length.
    split; [|repeat split; auto; lia].
    eapply vital_standing; [|exact Hst].
    unfold vital in *. norm_state. exact V.
Qed.

Lemma update_missiles_standing (k : Z) (g : Game) :
  Forall (fun m => damage_ok (m_damage m)) (missiles g) -> standing k g ->
  standing k (exec update_missiles g) /\
  (length (powerups (exec update_missiles g))
   <= length (powerups g) + length (missiles g) * length (enemies g))%nat.
Proof.
  intros Hd Hst.
  set (Inv := fun (n : nat) (g' : Game) =>
    standing k g' /\ length (enemies g') = length (enemies g) /\
    (length (powerups g') <= length (powerups g) + n * length (enemies g))%nat).
  assert (Hbody : forall m g0 n, damage_ok (m_damage m) -> Inv n g0 ->
                    Inv (S n) (snd (update_missile m g0))).
  { intros m g0 n Hm (S1 & S2 & S3).
    destruct (update_missile_standing m k g0 Hm S1) as (T1 & T2 & T3).
    split; [assumption|]. split; [congruence|].
    rewrite S2 in T3. cbn [Nat.mul]. lia. }
  assert (H0 : Inv 0%nat g).
  { split; [assumption | repeat split; lia]. }
  destruct (for_each_rule update_missile Inv _ Hbody (missiles g) g 0%nat Hd H0)
    as (S1 & S2 & S3).
  unfold update_missiles, exec.
  change (wp (bind get (fun g0 => bind (for_each update_missile (missiles g0))
                                    (fun ms => modify (set_missiles ms))))
            (fun _ g' => standing k g' /\
               (length (powerups g')
                <= length (powerups g) + length (missiles g) * length (enemies g))%nat)
            g).
  wp_steps. unfold wp at 1. cbv beta. wp_steps.
  split; [|lia].
  eapply vital_standing; [|exact S1]. reflexivity.
Qed.

(** *** The blocks that leave the counters alone *)

Lemma update_timers_lined_up nb ne np (g0 g : Game) :
  lined_up nb ne np g0 g -> lined_up nb ne np g0 (exec update_timers g).
Proof.
  intros H. to_wp. unfold update_timers. wp_go.
  unfold lined_up, core in *. norm_state. split_ifs; norm_state; exact H.
Qed.

Lemma playerShoot_pools (g : Game) :
  core (exec playerShoot g) = core g /\
  missiles (exec playerShoot g) = missiles g /\
  enemies (exec playerShoot g) = enemies g /\
  powerups (exec playerShoot g) = powerups g /\
  exists bs, bullets (exec playerShoot g) = bullets g ++ bs /\
             (length bs <= 2)%nat /\
             Forall (fun b => damage_ok (b_damage b)) bs.
Proof.
  change (wp playerShoot
    (fun _ g' => core g' = core g /\ missiles g' = missiles g /\
       enemies g' = enemies g /\ powerups g' = powerups g /\
       exists bs, bullets g' = bullets g ++ bs /\ (length bs <= 2)%nat /\
                  Forall (fun b => damage_ok (b_damage b)) bs) g).
  unfold playerShoot. wp_go.
  - repeat split. exists []. rewrite app_nil_r. repeat split; auto.
  - repeat split. eexists. rewrite <- app_assoc. split; [reflexivity|].
    cbn. split; [lia|]. repeat constructor; cbn; int_range; lia.
Qed.

Lemma move_player_lined_up nb ne np (g0 g : Game) :
  lined_up nb ne np g0 g -> lined_up (nb + 2) ne np g0 (exec move_player g).
Proof.
  intros (C & Ms & D & Lb & Le & Lp). to_wp. unfold move_player. wp_go.
  - match goal with |- wp playerShoot _ ?g1 =>
      destruct (playerShoot_pools g1) as (P1 & P2 & P3 & P4 & bs & P5 & P6 & P7)
    end.
    unfold wp, exec in *. cbv beta. unfold lined_up.
    rewrite P1, P2, P3, P4, P5.
    unfold core in *. norm_state. split_ifs; norm_state;
      (split; [exact C|]); (split; [exact Ms|]);
      (split; [apply Forall_app; split; assumption|]);
      rewrite length_app; repeat split; lia.
  - unfold lined_up, core in *. norm_state. split_ifs; norm_state;
      repeat split; auto; lia.
Qed.

Lemma for_each_pools {A : Type} (body : A -> @M F A) :
  (forall a g, pools (snd (body a g)) = pools g) ->
  forall l g, pools (snd (for_each body l g)) = pools g.
Proof.
  intros Hbody l g.
  pose proof (for_each_rule body (fun _ g' => pools g' = pools g)
                (fun _ => True)) as R.
  apply (R (fun a g0 n _ H => eq_trans (Hbody a g0) H) l g 0%nat).
  - clear. induction l; constructor; auto.
  - reflexivity.
Qed.

Lemma pools_lined_up nb ne np (g0 g g' : @Game F) :
  pools g' = pools g -> lined_up nb ne np g0 g -> lined_up nb ne np g0 g'.
Proof.
  unfold pools, lined_up. intros E (C & Ms & D & L).
  assert (E1 : core g' = core g) by congruence.
  assert (E2 : bullets g' = bullets g) by congruence.
  assert (E3 : missiles g' = missiles g) by congruence.
  assert (E4 : enemies g' = enemies g) by congruence.
  assert (E5 : powerups g' = powerups g) by congruence.
  rewrite E1, E2, E3, E4, E5. auto.
Qed.

Lemma scroll_background_pools (g : Game) :
  pools (exec scroll_background g) = pools g.
Proof.
  assert (Hs : forall d s g, pools (snd (scroll_star d s g)) = pools g).
  { intros d s g1.
    change (wp (scroll_star d s) (fun _ g' => pools g' = pools g1) g1).
    unfold scroll_star. wp_go; reflexivity. }
  assert (Hc : forall d c g, pools (snd (scroll_cloud d c g)) = pools g).
  { intros d c g1.
    change (wp (scroll_cloud d c) (fun _ g' => pools g' = pools g1) g1).
    unfold scroll_cloud. wp_go; reflexivity. }
  assert (Hm : forall d m g, pools (snd (scroll_mountain d m g)) = pools g).
  { intros d m g1.
    change (wp (scroll_mountain d m) (fun _ g' => pools g' = pools g1) g1).
    unfold scroll_mountain. wp_go; reflexivity. }
  unfold scroll_background, exec. run.
  match goal with |- pools (set_mountains _ ?g3) = _ =>
    transitivity (pools g3); [reflexivity|] end.
  rewrite for_each_pools by apply Hm.
  match goal with |- pools (set_clouds _ ?g2) = _ =>
    transitivity (pools g2); [reflexivity|] end.
  rewrite for_each_pools by apply Hc.
  match goal with |- pools (set_stars _ ?g1) = _ =>
    transitivity (pools g1); [reflexivity|] end.
  rewrite for_each_pools by apply Hs. reflexivity.
Qed.

Lemma spawnEnemy_pools (type : Z) (g : Game) :
  wp (spawnEnemy type)
    (fun _ g' => core g' = core g /\ bullets g' = bullets g /\
       missiles g' = missiles g /\ powerups g' = powerups g /\
       length (enemies g') = S (length (enemies g))) g.
Proof.
  unfold spawnEnemy. wp_go;
    repeat split; rewrite length_app; cbn; lia.
Qed.

Lemma spawnPowerup_pools (x y : F) (g : Game) :
  wp (spawnPowerup x y)
    (fun _ g' => core g' = core g /\ bullets g' = bullets g /\
       missiles g' = missiles g /\ enemies g' = enemies g /\
       length (powerups g') = S (length (powerups g))) g.
Proof.
  unfold spawnPowerup. wp_go.
  repeat split; rewrite length_app; cbn; lia.
Qed.

Lemma spawn_enemies_lined_up nb ne np (g0 g : Game) :
  lined_up nb ne np g0 g -> lined_up nb (ne + 1) np g0 (exec spawn_enemies g).
Proof.
  intros (C & Ms & D & Lb & Le & Lp). to_wp. unfold spawn_enemies. wp_go;
    try (eapply wp_weaken; [|apply spawnEnemy_pools];
         cbv beta; intros _ g' (P1 & P2 & P3 & P4 & P5);
         unfold lined_up; rewrite P1, P2, P3, P4, P5);
    unfold lined_up, core in *; norm_state;
    repeat split; auto; lia.
Qed.

Lemma spawn_boss_lined_up nb ne np (g0 g : Game) :
  lined_up nb ne np g0 g -> lined_up nb (ne + 1) np g0 (exec spawn_boss g).
Proof.
  intros (C & Ms & D & Lb & Le & Lp). to_wp. unfold spawn_boss. wp_go;
    try (eapply wp_weaken; [|apply spawnEnemy_pools];
         cbv beta; intros _ g' (P1 & P2 & P3 & P4 & P5);
         unfold lined_up; rewrite P1, P2, P3, P4, P5);
    unfold lined_up, core in *; norm_state;
    repeat split; auto; lia.
Qed.

Lemma spawn_powerups_lined_up nb ne np (g0 g : Game) :
  lined_up nb ne np g0 g -> lined_up nb ne (np + 1) g0 (exec spawn_powerups g).
Proof.
  intros (C & Ms & D & Lb & Le & Lp). to_wp. unfold spawn_powerups. wp_go;
    unfold lined_up, core in *; norm_state;
    rewrite ?length_app; cbn [length]; repeat split; auto; lia.
Qed.

Lemma update_enemy_core (e : EnemyJet) (g : Game) :
  wp (update_enemy e)
    (fun _ g' => core g' = core g /\ powerups g' = powerups g) g.
Proof.
  unfold update_enemy, enemy_shoot, boss_spread.
  destruct (e_active e); cbn [negb]; wp_go; auto.
Qed.

Lemma update_enemies_core (g : Game) :
  core (exec update_enemies g) = core g /\
  powerups (exec update_enemies g) = powerups g.
Proof.
  set (Inv := fun (n : nat) (g' : Game) =>
                core g' = core g /\ powerups g' = powerups g).
  assert (Hbody : forall e g0 n, True -> Inv n g0 ->
                    Inv (S n) (snd (update_enemy e g0))).
  { intros e g0 n _ (C & P).
    destruct (update_enemy_core e g0) as (C' & P'). split; congruence. }
  assert (Hall : Forall (fun _ : EnemyJet => True) (enemies g))
    by (clear; induction (enemies g); constructor; auto).
  destruct (for_each_rule update_enemy Inv _ Hbody (enemies g) g 0%nat Hall)
    as (C & P); [split; reflexivity|].
  unfold update_enemies, exec. run. split; [exact C | exact P].
Qed.

Lemma tidy_core (g : Game) :
  core (exec cleanup (exec update_explosions g)) = core g /\
  powerups (exec cleanup (exec update_explosions g)) = powerups g.
Proof. split; reflexivity. Qed.

Lemma shield_and_level_core (g : Game) :
  core (exec shield_and_level g) = core g.
Proof.
  change (wp shield_and_level (fun _ g' => core g' = core g) g).
  unfold shield_and_level. wp_go.
  unfold core. norm_state. split_ifs; reflexivity.
Qed.

(** *** Collecting pickups *)

Lemma imin_spec (a b : Z) : imin a b = Z.min a b.
Proof. unfold imin. destruct (Z.ltb_spec b a); lia. Qed.

Lemma update_powerup_settled (pu : PowerUp) (g : Game) :
  settled g ->
  p_ammo (player g) + 5 <= Int32.max_int ->
  p_bombs (player g) + 1 <= Int32.max_int ->
  wp (update_powerup pu)
    (fun _ g' => settled g' /\
       p_ammo (player g') <= p_ammo (player g) + 5 /\
       p_bombs (player g') <= p_bombs (player g) + 1) g.
Proof.
  intros Hst Ha Hb. pose proof Hst as (Hc & Hh & Hlow & Hs).
  unfold counters_ok, headroom in Hc, Hh.
  destruct Hc as ((Hs0 & Hs1) & Hhm & Ha0 & Hb0 & Hl0).
  destruct Hh as (H1 & H2 & H3 & H4 & H5).
  assert (E1 : Int32.add (p_hp (player g)) 30 = p_hp (player g) + 30)
    by (apply add_exact; int_range; lia).
  assert (E2 : Int32.add (p_shield (player g)) 30 = p_shield (player g) + 30)
    by (apply add_exact; int_range; lia).
  assert (E3 : Int32.add (p_ammo (player g)) 5 = p_ammo (player g) + 5)
    by (apply add_exact; int_range; lia).
  assert (E4 : Int32.add (p_bombs (player g)) 1 = p_bombs (player g) + 1)
    by (apply add_exact; int_range; lia).
  unfold update_powerup, collect.
  destruct (pu_active pu); cbn [negb]; wp_go;
    try (split; [exact Hst | lia]);
    rewrite ?E1, ?E2, ?E3, ?E4, ?imin_spec;
    (split; [|lia]);
    unfold settled, counters_ok, headroom, alive in *; norm_state;
    (split; [repeat split; lia|]);
    (split; [repeat split; lia|]);
    (split; [int_range; lia|]);
    (destruct Hs as [(Hl & Hhp)|Hover]; [left; lia | right; assumption]).
Qed.

Lemma update_powerups_settled (g : Game) :
  settled g ->
  p_ammo (player g) + 5 * Z.of_nat (length (powerups g)) <= Int32.max_int ->
  p_bombs (player g) + Z.of_nat (length (powerups g)) <= Int32.max_int ->
  settled (exec update_powerups g).
Proof.
  intros Hst Ha Hb.
  set (N := length (powerups g)) in *.
  set (Inv := fun (n : nat) (g' : @Game F) =>
    (n <= N)%nat ->
    settled g' /\
    p_ammo (player g') <= p_ammo (player g) + 5 * Z.of_nat n /\
    p_bombs (player g') <= p_bombs (player g) + Z.of_nat n).
  assert (Hbody : forall pu g0 n, True -> Inv n g0 ->
                    Inv (S n) (snd (update_powerup pu g0))).
  { intros pu g0 n _ Hi Hn.
    destruct Hi as (S1 & S2 & S3); [lia|].
    destruct (update_powerup_settled pu g0 S1) as (T1 & T2 & T3); [lia | lia |].
    split; [assumption | lia]. }
  assert (Hall : Forall (fun _ : PowerUp => True) (powerups g))
    by (clear; induction (powerups g); constructor; auto).
  assert (H0 : Inv 0%nat g).
  { intros _. split; [assumption | lia]. }
  pose proof (for_each_rule update_powerup Inv _ Hbody (powerups g) g 0%nat
                Hall H0) as Hend.
  destruct Hend as (S1 & _); [subst N; lia|].
  unfold update_powerups, exec. run.
  unfold settled, counters_ok, headroom, alive in *. norm_state. exact S1.
Qed.

(** *** The whole frame and the three actions *)

Lemma core_standing (k : Z) (g0 g : @Game F) :
  core g = core g0 -> counters_ok (player g0) -> headroom k (player g0) ->
  alive (player g0) -> standing k g.
Proof.
  unfold core, standing, counters_ok, headroom, alive.
  intros E Hc Hh Ha.
  assert (E1 : p_hp (player g) = p_hp (player g0)) by congruence.
  assert (E2 : p_maxHp (player g) = p_maxHp (player g0)) by congruence.
  assert (E3 : p_shield (player g) = p_shield (player g0)) by congruence.
  assert (E4 : p_maxShield (player g) = p_maxShield (player g0)) by congruence.
  assert (E5 : p_ammo (player g) = p_ammo (player g0)) by congruence.
  assert (E6 : p_bombs (player g) = p_bombs (player g0)) by congruence.
  assert (E7 : p_lives (player g) = p_lives (player g0)) by congruence.
  rewrite E1, E2, E3, E4, E5, E6, E7.
  split; [assumption|]. split; [assumption|]. split; [int_range; lia|].
  left. assumption.
Qed.

Lemma core_settled (g g' : @Game F) :
  core g' = core g -> settled g -> settled g'.
Proof.
  unfold core, settled, counters_ok, headroom, alive. intros E.
  assert (E0 : state g' = state g) by congruence.
  assert (E1 : p_hp (player g') = p_hp (player g)) by congruence.
  assert (E2 : p_maxHp (player g') = p_maxHp (player g)) by congruence.
  assert (E3 : p_shield (player g') = p_shield (player g)) by congruence.
  assert (E4 : p_maxShield (player g') = p_maxShield (player g)) by congruence.
  assert (E5 : p_ammo (player g') = p_ammo (player g)) by congruence.
  assert (E6 : p_bombs (player g') = p_bombs (player g)) by congruence.
  assert (E7 : p_lives (player g') = p_lives (player g)) by congruence.
  rewrite E0, E1, E2, E3, E4, E5, E6, E7. tauto.
Qed.

Lemma updateGame_settled (g : Game) :
  counters_ok (player g) -> alive (player g) ->
  headroom (pickups_bound g) (player g) ->
  Forall (fun b => damage_ok (b_damage b)) (bullets g) ->
  Forall (fun m => damage_ok (m_damage m)) (missiles g) ->
  settled (exec updateGame g).
Proof.
  intros Hc Hal Hh Hdb Hdm.
  set (K := pickups_bound g) in *.
  unfold updateGame. rewrite !exec_seq.
  set (nb := length (bullets g)). set (ne := length (enemies g)).
  set (np := length (powerups g)). set (nm := length (missiles g)).
  assert (L0 : lined_up nb ne np g g).
  { unfold lined_up. subst nb ne np. repeat split; auto. }
  apply update_timers_lined_up in L0.
  apply move_player_lined_up in L0.
  apply (pools_lined_up _ _ _ _ _ _ (scroll_background_pools _)) in L0.
  apply spawn_enemies_lined_up in L0.
  apply spawn_boss_lined_up in L0.
  apply spawn_powerups_lined_up in L0.
  match type of L0 with lined_up _ _ _ _ ?x => set (g6 := x) in * end.
  destruct L0 as (C6 & M6 & D6 & Lb6 & Le6 & Lp6).
  assert (S6 : standing K g6) by (eapply core_standing; eauto).
  destruct (update_bullets_standing K g6 D6 S6) as (S7 & M7 & E7 & P7).
  set (g7 := exec update_bullets g6) in *.
  assert (D7 : Forall (fun m => damage_ok (m_damage m)) (missiles g7))
    by (rewrite M7, M6; assumption).
  destruct (update_missiles_standing K g7 D7 S7) as (S8 & P8).
  set (g8 := exec update_missiles g7) in *.
  destruct (update_enemies_core g8) as (C9 & P9).
  set (g9 := exec update_enemies g8) in *.
  destruct (tidy_core g9) as (C11 & P11).
  set (g11 := exec cleanup (exec update_explosions g9)) in *.
  assert (Hlen : Z.of_nat (length (powerups g11)) <= K).
  { rewrite P11, P9. subst K. unfold pickups_bound.
    fold nb ne np nm.
    assert (Hm : length (missiles g7) = nm) by (rewrite M7, M6; reflexivity).
    rewrite Hm, E7 in P8.
    assert (B1 : (length (bullets g6) * length (enemies g6)
                  <= (nb + 2) * (ne + 1 + 1))%nat)
      by (apply Nat.mul_le_mono; assumption).
    assert (B2 : (nm * length (enemies g6) <= nm * (ne + 1 + 1))%nat)
      by (apply Nat.mul_le_mono_l; assumption).
    lia. }
  assert (S11 : settled g11).
  { apply (core_settled g8); [congruence|].
    destruct S8 as (A1 & A2 & A3 & A4).
    unfold settled, headroom in *.
    assert (0 <= K) by (subst K; unfold pickups_bound; lia).
    split; [assumption|]. split; [lia|]. split; [assumption|].
    destruct A4 as [A4|(_ & A4)]; auto. }
  assert (Hroom : p_ammo (player g11) + 5 * K <= Int32.max_int /\
                  p_bombs (player g11) + K <= Int32.max_int).
  { destruct S8 as (_ & A2 & _). unfold headroom in A2.
    assert (E : core g11 = core g8) by congruence. unfold core in E.
    assert (E5 : p_ammo (player g11) = p_ammo (player g8)) by congruence.
    assert (E6 : p_bombs (player g11) = p_bombs (player g8)) by congruence.
    rewrite E5, E6. lia. }
  apply (core_settled (exec update_powerups g11));
    [apply shield_and_level_core|].
  apply update_powerups_settled; [assumption | lia | lia].
Qed.

Lemma bomb_enemy_core (e : EnemyJet) (g : Game) :
  core (snd (bomb_enemy e g)) = core g.
Proof.
  change (wp (bomb_enemy e) (fun _ g' => core g' = core g) g).
  unfold bomb_enemy. destruct (e_active e); cbn [negb]; wp_go; reflexivity.
Qed.

Lemma playerBomb_core (g : Game) :
  p_bombs (player g) <= Int32.max_int -> counters_ok (player g) ->
  counters_ok (player (exec playerBomb g)).
Proof.
  intros Hb Hc.
  set (Inv := fun (n : nat) (g' : @Game F) => counters_ok (player g')).
  assert (Hbody : forall e g0 n, True -> Inv n g0 ->
                    Inv (S n) (snd (bomb_enemy e g0))).
  { intros e g0 n _ Hi. unfold Inv in *.
    pose proof (bomb_enemy_core e g0) as E. unfold core in E.
    unfold counters_ok in *.
    assert (E3 : p_shield (player (snd (bomb_enemy e g0)))
                 = p_shield (player g0)) by congruence.
    assert (E4 : p_maxShield (player (snd (bomb_enemy e g0)))
                 = p_maxShield (player g0)) by congruence.
    assert (E1 : p_hp (player (snd (bomb_enemy e g0))) = p_hp (player g0))
      by congruence.
    assert (E2 : p_maxHp (player (snd (bomb_enemy e g0)))
                 = p_maxHp (player g0)) by congruence.
    assert (E5 : p_ammo (player (snd (bomb_enemy e g0)))
                 = p_ammo (player g0)) by congruence.
    assert (E6 : p_bombs (player (snd (bomb_enemy e g0)))
                 = p_bombs (player g0)) by congruence.
    assert (E7 : p_lives (player (snd (bomb_enemy e g0)))
                 = p_lives (player g0)) by congruence.
    rewrite E1, E2, E3, E4, E5, E6, E7. assumption. }
  assert (Hall : Forall (fun _ : EnemyJet => True) (enemies g))
    by (clear; induction (enemies g); constructor; auto).
  unfold playerBomb, exec. run.
  destruct (Z.leb_spec (p_bombs (player g)) 0); [assumption|].
  cbn [fst snd].
  match goal with |- context [for_each bomb_enemy (enemies g) ?g1] =>
    pose proof (for_each_rule bomb_enemy Inv _ Hbody (enemies g) g1 0%nat
                  Hall) as Hend end.
  unfold Inv in Hend. unfold counters_ok in *. norm_state.
  apply Hend. norm_state.
  rewrite sub_exact by (int_range; lia). lia.
Qed.

(** C6, as the code has it: starting from counters within their bounds,
    a frame keeps [0 <= shield <= maxShield], [health <= maxHealth] and
    [ammo, bombs, lives >= 0], and so does each of the three actions; a
    frame that does not end the session leaves the player alive, with
    positive health and at least one life.  Health has no floor at 0 (the
    fatal hit leaves it where the subtraction put it) and ammo and bombs
    have no maximum.  The side conditions: the player is alive when the
    frame starts, every bullet and missile carries a non-negative damage,
    no [int] overflows, and the invulnerability windows of 0.5 s and 1 s
    compare as positive. *)
Theorem counters_kept_by_frame_and_actions (g : Game) :
  counters_ok (player g) ->
  (alive (player g) ->
   headroom (pickups_bound g) (player g) ->
   Forall (fun b => damage_ok (b_damage b)) (bullets g) ->
   Forall (fun m => damage_ok (m_damage m)) (missiles g) ->
   counters_ok (player (exec updateGame g)) /\
   (state (exec updateGame g) <> STATE_GAMEOVER ->
    alive (player (exec updateGame g)))) /\
  counters_ok (player (exec playerShoot g)) /\
  (p_ammo (player g) <= Int32.max_int ->
   counters_ok (player (exec playerFireMissile g))) /\
  (p_bombs (player g) <= Int32.max_int ->
   counters_ok (player (exec playerBomb g))).
Proof.
  intros Hc. split; [|split; [|split]].
  - intros Hal Hh Hdb Hdm.
    destruct (updateGame_settled g Hc Hal Hh Hdb Hdm) as (S1 & _ & _ & S4).
    split; [assumption|]. intros Hst. destruct S4; [assumption | contradiction].
  - destruct (playerShoot_pools g) as (E & _). unfold core in E.
    unfold counters_ok in *.
    assert (E1 : p_hp (player (exec playerShoot g)) = p_hp (player g))
      by congruence.
    assert (E2 : p_maxHp (player (exec playerShoot g)) = p_maxHp (player g))
      by congruence.
    assert (E3 : p_shield (player (exec playerShoot g)) = p_shield (player g))
      by congruence.
    assert (E4 : p_maxShield (player (exec playerShoot g))
                 = p_maxShield (player g)) by congruence.
    assert (E5 : p_ammo (player (exec playerShoot g)) = p_ammo (player g))
      by congruence.
    assert (E6 : p_bombs (player (exec playerShoot g)) = p_bombs (player g))
      by congruence.
    assert (E7 : p_lives (player (exec playerShoot g)) = p_lives (player g))
      by congruence.
    rewrite E1, E2, E3, E4, E5, E6, E7. assumption.
  - intros Ha. unfold playerFireMissile, exec. run.
    destruct (Z.leb_spec (p_ammo (player g)) 0); [assumption|].
    destruct (fold_left _ _ _) as [[d tx] ty]. unfold spawnMissile. run.
    unfold counters_ok in *. norm_state.
    rewrite sub_exact by (int_range; lia). lia.
  - intros Hb. apply playerBomb_core; assumption.
Qed.

End Frame.

(** ** Loops under a relation between games *)

Lemma for_each_rel {A : Type} (R : @Game F -> @Game F -> Prop)
    (body : A -> @M F A) :
  (forall g, R g g) ->
  (forall g1 g2 g3, R g1 g2 -> R g2 g3 -> R g1 g3) ->
  (forall a g, R g (snd (body a g))) ->
  forall l g, R g (snd (for_each body l g)).
Proof.
  intros Hr Ht Hb. induction l as [|a l IH]; intros g.
  - apply Hr.
  - cbn [for_each]. run. eapply Ht; [apply Hb | apply IH].
Qed.

Lemma for_each_with_rel {S A : Type} (R : @Game F -> @Game F -> Prop)
    (body : S -> A -> @M F (S * A)) :
  (forall g, R g g) ->
  (forall g1 g2 g3, R g1 g2 -> R g2 g3 -> R g1 g3) ->
  (forall s a g, R g (snd (body s a g))) ->
  forall l s g, R g (snd (for_each_with body s l g)).
Proof.
  intros Hr Ht Hb. induction l as [|a l IH]; intros s g.
  - apply Hr.
  - cbn [for_each_with]. run. eapply Ht; [apply Hb | apply IH].
Qed.

(** What the loop makes of the elements it visits. *)
Lemma for_each_Forall {A : Type} (P : A -> Prop) (body : A -> @M F A) :
  (forall a g, P a -> P (fst (body a g))) ->
  forall l g, Forall P l -> Forall P (fst (for_each body l g)).
Proof.
  intros Hb. induction l as [|a l IH]; intros g Hl.
  - constructor.
  - inversion Hl; subst. cbn [for_each]. run. constructor; auto.
Qed.

Lemma for_each_with_Forall {S A : Type} (PS : S -> Prop) (PA : A -> Prop)
    (body : S -> A -> @M F (S * A)) :
  (forall s a g, PS s -> PS (fst (fst (body s a g)))) ->
  (forall s a g, PS s -> PA a -> PA (snd (fst (body s a g)))) ->
  forall l s g, PS s ->
    PS (fst (fst (for_each_with body s l g))) /\
    (Forall PA l -> Forall PA (snd (fst (for_each_with body s l g)))).
Proof.
  intros HS HA. induction l as [|a l IH]; intros s g Hs.
  - cbn. auto.
  - cbn [for_each_with]. run.
    destruct (IH (fst (fst (body s a g))) (snd (body s a g)) (HS s a g Hs))
      as (I1 & I2).
    split; [exact I1|]. intros Hl. inversion Hl; subst.
    constructor; auto.
Qed.

(** The two loops as steps of a block: the rest of the block is entered
    with a list of the same length, whose elements keep what the body
    keeps, in a game related to the one the loop started in. *)
Lemma wp_for_each {A : Type} (R : @Game F -> @Game F -> Prop) (P : A -> Prop)
    (body : A -> @M F A) (l : list A) (g : @Game F)
    (Q : list A -> @Game F -> Prop) :
  (forall g, R g g) ->
  (forall g1 g2 g3, R g1 g2 -> R g2 g3 -> R g1 g3) ->
  (forall a g, R g (snd (body a g))) ->
  (forall a g, P a -> P (fst (body a g))) ->
  (forall l' g', length l' = length l -> (Forall P l -> Forall P l') ->
     R g g' -> Q l' g') ->
  wp (for_each body l) Q g.
Proof.
  intros Hr Ht Hb Hp HQ. unfold wp. apply HQ.
  - apply for_each_length.
  - apply for_each_Forall. exact Hp.
  - apply for_each_rel; assumption.
Qed.

Lemma wp_for_each_with {S A : Type} (R : @Game F -> @Game F -> Prop)
    (PS : S -> Prop) (PA : A -> Prop)
    (body : S -> A -> @M F (S * A)) (s : S) (l : list A) (g : @Game F)
    (Q : S * list A -> @Game F -> Prop) :
  (forall g, R g g) ->
  (forall g1 g2 g3, R g1 g2 -> R g2 g3 -> R g1 g3) ->
  (forall s a g, R g (snd (body s a g))) ->
  (forall s a g, PS s -> PS (fst (fst (body s a g)))) ->
  (forall s a g, PS s -> PA a -> PA (snd (fst (body s a g)))) ->
  PS s ->
  (forall r g', length (snd r) = length l -> PS (fst r) ->
     (Forall PA l -> Forall PA (snd r)) -> R g g' -> Q r g') ->
  wp (for_each_with body s l) Q g.
Proof.
  intros Hr Ht Hb HS HA Hs HQ. unfold wp.
  destruct (for_each_with_Forall PS PA body HS HA l s g Hs) as (F1 & F2).
  apply HQ.
  - apply for_each_with_length.
  - exact F1.
  - exact F2.
  - apply for_each_with_rel; assumption.
Qed.

(** ** What a frame carries over *)

Lemma carried_refl (g : @Game F) : carried g g.
Proof. unfold carried. auto. Qed.

Lemma carried_trans (g1 g2 g3 : @Game F) :
  carried g1 g2 -> carried g2 g3 -> carried g1 g3.
Proof.
  unfold carried. intros (A1 & S1 & H1) (A2 & S2 & H2).
  split; [congruence|]. split.
  - destruct S2 as [S2|S2]; [rewrite S2; exact S1 | right; exact S2].
  - destruct H2 as [H2|(H2 & H2')].
    + rewrite H2. destruct H1 as [H1|(H1 & H1')]; [left; exact H1|].
      right. split; [|exact H1']. destruct S2 as [S2|S2]; congruence.
    + right. split; [exact H2|]. destruct H1 as [H1|(_ & H1')]; lia.
Qed.

(** [carried] for a game read off member by member. *)
Ltac carried_now :=
  unfold carried, anchor, fixtures; norm_state;
  (split; [reflexivity|]); split; auto.

Ltac carried_loop :=
  first [ apply (wp_for_each carried (fun _ => True))
        | apply (wp_for_each_with carried (fun _ => True) (fun _ => True)) ];
  [ exact carried_refl | exact carried_trans | .. ].

Lemma carried_left (g g1 g2 : @Game F) :
  carried g g1 -> anchor g2 = anchor g1 -> state g2 = state g1 ->
  highScore g2 = highScore g1 -> carried g g2.
Proof.
  intros C A S H. apply (carried_trans _ g1); [exact C|].
  unfold carried. rewrite A, S, H. auto.
Qed.

Lemma scroll_background_carried (g : Game) :
  wp scroll_background (fun _ g' => carried g g') g.
Proof.
  assert (Hs : forall d s g, carried g (snd (scroll_star d s g))).
  { intros d s g1.
    change (wp (scroll_star d s) (fun _ g' => carried g1 g') g1).
    unfold scroll_star. wp_go; carried_now. }
  assert (Hc : forall d c g, carried g (snd (scroll_cloud d c g))).
  { intros d c g1.
    change (wp (scroll_cloud d c) (fun _ g' => carried g1 g') g1).
    unfold scroll_cloud. wp_go; carried_now. }
  assert (Hm : forall d m g, carried g (snd (scroll_mountain d m g))).
  { intros d m g1.
    change (wp (scroll_mountain d m) (fun _ g' => carried g1 g') g1).
    unfold scroll_mountain. wp_go; carried_now. }
  assert (Hset : forall (g0 g1 g2 : @Game F),
            carried g0 g1 -> fixtures g2 = fixtures g0 ->
            (p_x (player g2), p_y (player g2), gameTime g2, state g2,
             highScore g2)
            = (p_x (player g1), p_y (player g1), gameTime g1, state g1,
               highScore g1) ->
            carried g0 g2).
  { intros g0 g1 g2 (A & S & H) Fx E. unfold carried, anchor in *.
    injection E as E1 E2 E3 E4 E5. rewrite Fx, E1, E2, E3, E4, E5.
    split; [|split; assumption]. congruence. }
  unfold scroll_background. wp_steps.
  carried_loop; [apply Hs | auto |]. intros ss g1 L1 _ C1. wp_steps.
  assert (C1' : carried g (set_stars ss g1)).
  { apply (Hset g g1); [exact C1 | | reflexivity].
    destruct C1 as (A & _). unfold anchor, fixtures in *. norm_state.
    rewrite L1. congruence. }
  carried_loop; [apply Hc | auto |]. intros cs g2 L2 _ C2. wp_steps.
  pose proof (carried_trans _ _ _ C1' C2) as C2'.
  assert (C2'' : carried g (set_clouds cs g2)).
  { apply (Hset g g2); [exact C2' | | reflexivity].
    destruct C2' as (A & _). unfold anchor, fixtures in *. norm_state.
    rewrite L2. congruence. }
  carried_loop; [apply Hm | auto |]. intros ms g3 L3 _ C3. wp_steps.
  pose proof (carried_trans _ _ _ C2'' C3) as C3'.
  apply (Hset g g3); [exact C3' | | reflexivity].
  destruct C3' as (A & _). unfold anchor, fixtures in *. norm_state.
  rewrite L3. congruence.
Qed.

Lemma spawnEnemy_carried (type : Z) (g : Game) :
  wp (spawnEnemy type) (fun _ g' => carried g g') g.
Proof. unfold spawnEnemy. wp_go; carried_now. Qed.

Lemma spawn_enemies_carried (g : Game) :
  wp spawn_enemies (fun _ g' => carried g g') g.
Proof.
  unfold spawn_enemies. wp_go;
    try (eapply wp_weaken; [|apply spawnEnemy_carried];
         cbv beta; intros _ g' C;
         eapply carried_trans; [|exact C]);
    carried_now.
Qed.

Lemma spawn_boss_carried (g : Game) :
  wp spawn_boss (fun _ g' => carried g g') g.
Proof.
  unfold spawn_boss. wp_go;
    try (eapply wp_weaken; [|apply spawnEnemy_carried];
         cbv beta; intros _ g' C;
         eapply carried_trans; [|exact C]);
    carried_now.
Qed.

Lemma spawn_powerups_carried (g : Game) :
  wp spawn_powerups (fun _ g' => carried g g') g.
Proof. unfold spawn_powerups. wp_go; carried_now. Qed.

Lemma bullet_vs_enemy_carried (b : Bullet) (e : EnemyJet) (g : Game) :
  carried g (snd (bullet_vs_enemy b e g)).
Proof.
  change (wp (bullet_vs_enemy b e) (fun _ g' => carried g g') g).
  unfold bullet_vs_enemy. wp_go; carried_now.
Qed.

Lemma missile_vs_enemy_carried (m : Missile) (e : EnemyJet) (g : Game) :
  carried g (snd (missile_vs_enemy m e g)).
Proof.
  change (wp (missile_vs_enemy m e) (fun _ g' => carried g g') g).
  unfold missile_vs_enemy. wp_go; carried_now.
Qed.

(** The one place where the session ends on a new high score. *)
Lemma bullet_vs_player_carried (b : Bullet) (g : Game) :
  wp (bullet_vs_player b) (fun _ g' => carried g g') g.
Proof.
  unfold bullet_vs_player. wp_steps.
  wp_branch; [|wp_steps; carried_now].
  wp_steps. wp_branch.
  - wp_steps.
    destruct (Int32.sub (p_shield (player g)) (b_damage b) <? 0);
      wp_go; carried_now;
      (right; split; [reflexivity | apply Z.gtb_lt; assumption]).
  - wp_go; carried_now;
      (right; split; [reflexivity | apply Z.gtb_lt; assumption]).
Qed.

Lemma missile_vs_player_carried (m : Missile) (g : Game) :
  wp (missile_vs_player m) (fun _ g' => carried g g') g.
Proof. unfold missile_vs_player. wp_go; carried_now. Qed.

Lemma update_bullet_carried (b : Bullet) (g : Game) :
  carried g (snd (update_bullet b g)).
Proof.
  change (wp (update_bullet b) (fun _ g' => carried g g') g).
  unfold update_bullet. wp_go.
  - carried_now.
  - carried_loop; [apply bullet_vs_enemy_carried | auto | auto | exact I |].
    intros r g1 _ _ _ C. wp_steps.
    apply (carried_left g g1); [exact C | reflexivity ..].
  - apply bullet_vs_player_carried.
Qed.

Lemma update_bullets_carried (g : Game) :
  wp update_bullets (fun _ g' => carried g g') g.
Proof.
  unfold update_bullets. wp_steps.
  carried_loop; [apply update_bullet_carried | auto |].
  intros bs g1 _ _ C. wp_steps.
  apply (carried_left g g1); [exact C | reflexivity ..].
Qed.

Lemma update_missile_carried (m : Missile) (g : Game) :
  carried g (snd (update_missile m g)).
Proof.
  change (wp (update_missile m) (fun _ g' => carried g g') g).
  unfold update_missile. wp_go.
  - carried_now.
  - carried_now.
  - carried_loop; [apply missile_vs_enemy_carried | auto | auto | exact I |].
    intros r g1 _ _ _ C. wp_steps.
    apply (carried_left g g1); [exact C | reflexivity ..].
  - eapply wp_weaken; [|apply missile_vs_player_carried].
    cbv beta. intros m' g' C. wp_steps. exact C.
Qed.

Lemma update_missiles_carried (g : Game) :
  wp update_missiles (fun _ g' => carried g g') g.
Proof.
  unfold update_missiles. wp_steps.
  carried_loop; [apply update_missile_carried | auto |].
  intros ms g1 _ _ C. wp_steps.
  apply (carried_left g g1); [exact C | reflexivity ..].
Qed.

Lemma update_enemy_carried (e : EnemyJet) (g : Game) :
  carried g (snd (update_enemy e g)).
Proof.
  change (wp (update_enemy e) (fun _ g' => carried g g') g).
  unfold update_enemy, enemy_shoot, boss_spread. wp_go; carried_now.
Qed.

Lemma update_enemies_carried (g : Game) :
  wp update_enemies (fun _ g' => carried g g') g.
Proof.
  unfold update_enemies. wp_steps.
  carried_loop; [apply update_enemy_carried | auto |].
  intros es g1 _ _ C. wp_steps.
  apply (carried_left g g1); [exact C | reflexivity ..].
Qed.

Lemma update_explosions_carried (g : Game) :
  wp update_explosions (fun _ g' => carried g g') g.
Proof. unfold update_explosions. wp_go; carried_now. Qed.

Lemma cleanup_carried (g : @Game F) :
  wp cleanup (fun _ g' => carried g g') g.
Proof. unfold cleanup. wp_go; carried_now. Qed.

Lemma update_powerup_carried (pu : PowerUp) (g : Game) :
  carried g (snd (update_powerup pu g)).
Proof.
  change (wp (update_powerup pu) (fun _ g' => carried g g') g).
  unfold update_powerup, collect. wp_go; carried_now.
Qed.

Lemma update_powerups_carried (g : Game) :
  wp update_powerups (fun _ g' => carried g g') g.
Proof.
  unfold update_powerups. wp_steps.
  carried_loop; [apply update_powerup_carried | auto |].
  intros ps g1 _ _ C. wp_steps.
  apply (carried_left g g1); [exact C | reflexivity ..].
Qed.

Lemma shield_and_level_carried (g : Game) :
  wp shield_and_level (fun _ g' => carried g g') g.
Proof.
  unfold shield_and_level. wp_go.
  unfold carried, anchor, fixtures. norm_state.
  split_ifs; norm_state; (split; [reflexivity|]); split; auto.
Qed.

Lemma after_the_move_carried (g : @Game F) : carried g (exec after_the_move g).
Proof.
  unfold after_the_move. rewrite !exec_seq.
  eapply carried_trans; [|exact (update_powerups_carried _)].
  eapply carried_trans; [|exact (cleanup_carried _)].
  eapply carried_trans; [|exact (update_explosions_carried _)].
  eapply carried_trans; [|exact (update_enemies_carried _)].
  eapply carried_trans; [|exact (update_missiles_carried _)].
  eapply carried_trans; [|exact (update_bullets_carried _)].
  eapply carried_trans; [|exact (spawn_powerups_carried _)].
  eapply carried_trans; [|exact (spawn_boss_carried _)].
  eapply carried_trans; [|exact (spawn_enemies_carried _)].
  exact (scroll_background_carried _).
Qed.

Lemma updateGame_stages (g : @Game F) :
  exec updateGame g
  = exec shield_and_level
      (exec after_the_move (exec move_player (exec update_timers g))).
Proof. unfold updateGame, after_the_move. rewrite !exec_seq. reflexivity. Qed.

(** The two blocks that open the frame: the clock advances by the frame
    time and the player is moved, then clamped. *)
Lemma update_timers_frame (g : @Game F) :
  wp update_timers
    (fun _ g' =>
       fixtures g' = fixtures g /\ state g' = state g /\
       highScore g' = highScore g /\
       gameTime g' = gameTime g +~ dt g /\
       p_x (player g') = p_x (player g) /\ p_y (player g') = p_y (player g))
    g.
Proof.
  unfold update_timers. wp_go.
  unfold fixtures. norm_state. split_ifs; norm_state; repeat split.
Qed.

Lemma playerShoot_frame (g : @Game F) :
  wp playerShoot
    (fun _ g' =>
       anchor g' = anchor g /\ state g' = state g /\
       highScore g' = highScore g) g.
Proof.
  unfold playerShoot. wp_go; unfold anchor, fixtures; norm_state; auto.
Qed.

Lemma anchor_parts (g g' : @Game F) :
  anchor g' = anchor g ->
  fixtures g' = fixtures g /\ p_x (player g') = p_x (player g) /\
  p_y (player g') = p_y (player g) /\ gameTime g' = gameTime g.
Proof.
  unfold anchor. intros A.
  split; [exact (f_equal (fun t => fst (fst (fst t))) A)|].
  split; [exact (f_equal (fun t => snd (fst (fst t))) A)|].
  split; [exact (f_equal (fun t => snd (fst t)) A)|].
  exact (f_equal snd A).
Qed.

Lemma move_player_frame (g : @Game F) :
  wp move_player
    (fun _ g' =>
       fixtures g' = fixtures g /\ state g' = state g /\
       highScore g' = highScore g /\ gameTime g' = gameTime g /\
       exists x y,
         p_x (player g') = clamp x #40 #(SCREEN_W - 40) /\
         p_y (player g') = clamp y #60 #(PLAY_H - 80)) g.
Proof.
  unfold move_player. wp_steps.
  destruct (p_dragging (player g)) eqn:Hd; wp_steps; rewrite ?Hd;
    wp_steps.
  - eapply wp_weaken; [|apply playerShoot_frame].
    cbv beta. intros _ g' (A & S & H).
    destruct (anchor_parts _ _ A) as (A1 & A2 & A3 & A4).
    rewrite A1, A2, A3, A4, S, H.
    unfold fixtures. norm_state. rewrite Hd.
    repeat split. eexists. eexists. split; reflexivity.
  - unfold fixtures. norm_state. rewrite Hd.
    repeat split. eexists. eexists. split; reflexivity.
Qed.

Lemma clamp_between (v lo hi : F) :
  ordered lo hi -> between lo hi (clamp v lo hi).
Proof.
  unfold ordered, between, clamp. intros (H1 & H2 & H3).
  destruct (v <~ lo) eqn:E1; [auto|].
  destruct (v >~ hi) eqn:E2; auto.
Qed.

(** The frame as a whole, read off its stages. *)
Lemma updateGame_frame (g : @Game F) :
  fixtures (exec updateGame g) = fixtures g /\
  gameTime (exec updateGame g) = gameTime g +~ dt g /\
  (exists x y,
     p_x (player (exec updateGame g)) = clamp x #40 #(SCREEN_W - 40) /\
     p_y (player (exec updateGame g)) = clamp y #60 #(PLAY_H - 80)) /\
  (state (exec updateGame g) = state g \/
   state (exec updateGame g) = STATE_GAMEOVER) /\
  (highScore (exec updateGame g) = highScore g \/
   (state (exec updateGame g) = STATE_GAMEOVER /\
    highScore g < highScore (exec updateGame g))) /\
  p_level (player (exec updateGame g))
    = Int32.add 1 (to_int ((gameTime g +~ dt g) /~ #30)).
Proof.
  rewrite updateGame_stages.
  destruct (update_timers_frame g) as (T1 & T2 & T3 & T4 & _).
  fold (exec update_timers g) in T1, T2, T3, T4.
  set (g1 := exec update_timers g) in *. clearbody g1.
  destruct (move_player_frame g1) as (M1 & M2 & M3 & M4 & x & y & M5 & M6).
  fold (exec move_player g1) in M1, M2, M3, M4, M5, M6.
  set (g2 := exec move_player g1) in *. clearbody g2.
  pose proof (after_the_move_carried g2) as C.
  set (g12 := exec after_the_move g2) in *. clearbody g12.
  assert (L : p_level (player (exec shield_and_level g12))
              = Int32.add 1 (to_int (gameTime g12 /~ #30))).
  { change (wp shield_and_level
              (fun _ g' => p_level (player g')
                           = Int32.add 1 (to_int (gameTime g12 /~ #30))) g12).
    unfold shield_and_level. wp_go. reflexivity. }
  pose proof (carried_trans _ _ _ C (shield_and_level_carried g12))
    as (A & S & H).
  fold (exec shield_and_level g12) in A, S, H.
  set (g13 := exec shield_and_level g12) in *. clearbody g13.
  destruct C as (A12 & _).
  destruct (anchor_parts _ _ A) as (A1 & A2 & A3 & A4).
  destruct (anchor_parts _ _ A12) as (_ & _ & _ & B4).
  split; [rewrite A1, M1, T1; reflexivity|].
  split; [rewrite A4, M4, T4; reflexivity|].
  split; [exists x, y; rewrite A2, A3; split; assumption|].
  split; [rewrite <- T2, <- M2; exact S|].
  split; [rewrite <- T3, <- M3; exact H|].
  rewrite L, B4, M4, T4. reflexivity.
Qed.

(** X1: a frame assigns none of these members: the frame time, the spawn
    interval, the touch target, the four buttons, the menu and scroll
    clocks, the maxima of health and shield, the gun cooldown, the drag
    flag, the player's velocity; and it keeps the number of stars, clouds
    and mountains. *)
Theorem updateGame_leaves_fixtures (g : @Game F) :
  fixtures (exec updateGame g) = fixtures g.
Proof. exact (proj1 (updateGame_frame g)). Qed.

(** X2: a frame advances the elapsed time by the frame time, and ends with
    the level at [1 + (int)(elapsed / 30)] for the new elapsed time,
    whatever was killed during the frame: the level is a function of the
    clock alone. *)
Theorem updateGame_clock_and_level (g : @Game F) :
  gameTime (exec updateGame g) = gameTime g +~ dt g /\
  p_level (player (exec updateGame g))
    = Int32.add 1 (to_int (gameTime (exec updateGame g) /~ #30)).
Proof.
  destruct (updateGame_frame g) as (_ & T & _ & _ & _ & L).
  rewrite T. split; [reflexivity | exact L].
Qed.

(** X3: after every frame the player is inside the margins of the play
    area: not left of 40, not right of [SCREEN_W - 40], not above 60 and
    not below [PLAY_H - 80], wherever the touch target is and whatever the
    frame time.  The side conditions say that the four bounds compare as
    bounds should. *)
Theorem player_stays_in_play_area (g : @Game F) :
  ordered #40 #(SCREEN_W - 40) -> ordered #60 #(PLAY_H - 80) ->
  between #40 #(SCREEN_W - 40) (p_x (player (exec updateGame g))) /\
  between #60 #(PLAY_H - 80) (p_y (player (exec updateGame g))).
Proof.
  intros Hx Hy.
  destruct (updateGame_frame g) as (_ & _ & (x & y & Px & Py) & _).
  rewrite Px, Py. split; apply clamp_between; assumption.
Qed.

(** X4: a frame leaves the high score as it is, unless the session ends
    in that frame, and then the high score has grown. *)
Theorem high_score_changes_only_at_session_end (g : @Game F) :
  highScore (exec updateGame g) = highScore g \/
  (state (exec updateGame g) = STATE_GAMEOVER /\
   highScore g < highScore (exec updateGame g)).
Proof. exact (proj1 (proj2 (proj2 (proj2 (proj2 (updateGame_frame g)))))). Qed.

(** ** Input and the session state *)

Lemma same_refl {T : Type} (view : @Game F -> T) (g : @Game F) :
  same view g g.
Proof. reflexivity. Qed.

Lemma same_trans {T : Type} (view : @Game F -> T) (g1 g2 g3 : @Game F) :
  same view g1 g2 -> same view g2 g3 -> same view g1 g3.
Proof. unfold same. congruence. Qed.

Lemma playerShoot_scene (g : @Game F) :
  wp playerShoot (fun _ g' => scene g' = scene g) g.
Proof. unfold playerShoot. wp_go; reflexivity. Qed.

Lemma playerFireMissile_scene (g : @Game F) :
  wp playerFireMissile (fun _ g' => scene g' = scene g) g.
Proof.
  unfold playerFireMissile. wp_steps. wp_branch; wp_steps; [reflexivity|].
  destruct (fold_left _ _ _) as [[d tx] ty]. wp_steps. reflexivity.
Qed.

Lemma bomb_enemy_scene (e : EnemyJet) (g : @Game F) :
  same scene g (snd (bomb_enemy e g)).
Proof.
  change (wp (bomb_enemy e) (fun _ g' => scene g' = scene g) g).
  unfold bomb_enemy. wp_go; reflexivity.
Qed.

Lemma playerBomb_scene (g : @Game F) :
  wp playerBomb (fun _ g' => scene g' = scene g) g.
Proof.
  unfold playerBomb. wp_steps. wp_branch; wp_steps; [reflexivity|].
  apply (wp_for_each (same scene) (fun _ => True));
    [apply same_refl | apply same_trans | apply bomb_enemy_scene | auto |].
  intros es g1 _ _ C. wp_steps. exact C.
Qed.

Lemma scene_parts (g g' : @Game F) :
  scene g' = scene g ->
  backdrop g' = backdrop g /\ state g' = state g /\
  (touchX g', touchY g', p_dragging (player g'))
  = (touchX g, touchY g, p_dragging (player g)).
Proof.
  intros E. split; [exact (f_equal (fun t => fst (fst t)) E)|].
  split; [exact (f_equal (fun t => snd (fst t)) E) | exact (f_equal snd E)].
Qed.

Lemma restart_backdrop (g : @Game F) :
  wp restart
    (fun _ g' => backdrop g' = backdrop g /\ state g' = STATE_PLAYING) g.
Proof. unfold restart. wp_go. split; reflexivity. Qed.

Lemma action_in_play (m : @M F unit) (g : @Game F) :
  state g = STATE_PLAYING ->
  wp m (fun _ g' => scene g' = scene g) g ->
  wp m (fun _ g' => backdrop g' = backdrop g /\
                    state g' = STATE_PLAYING) g.
Proof.
  intros E Hm. eapply wp_weaken; [|exact Hm].
  cbv beta. intros _ g' S. destruct (scene_parts _ _ S) as (S1 & S2 & _).
  split; [exact S1 | congruence].
Qed.

(** What an event makes of the session state, and that it leaves the
    backdrop alone. *)
Lemma handle_event_state (ev : Event) (g : @Game F) :
  backdrop (exec (handle_event ev) g) = backdrop g /\
  match state g with
  | STATE_MENU =>
      state (exec (handle_event ev) g)
      = match ev with Touch _ _ => STATE_PLAYING | _ => STATE_MENU end
  | STATE_PAUSED =>
      state (exec (handle_event ev) g)
      = match ev with
        | Touch _ _ | KeyP => STATE_PLAYING
        | _ => STATE_PAUSED
        end
  | STATE_GAMEOVER =>
      state (exec (handle_event ev) g)
      = match ev with Touch _ _ => STATE_PLAYING | _ => STATE_GAMEOVER end
  | STATE_WIN => state (exec (handle_event ev) g) = STATE_WIN
  | STATE_PLAYING =>
      match ev with
      | KeyP => state (exec (handle_event ev) g) = STATE_PAUSED
      | Touch _ _ =>
          state (exec (handle_event ev) g) = STATE_PLAYING \/
          state (exec (handle_event ev) g) = STATE_PAUSED
      | _ => state (exec (handle_event ev) g) = STATE_PLAYING
      end
  end.
Proof.
  change (wp (handle_event ev)
    (fun _ g' =>
       backdrop g' = backdrop g /\
       match state g with
       | STATE_MENU =>
           state g'
           = match ev with Touch _ _ => STATE_PLAYING | _ => STATE_MENU end
       | STATE_PAUSED =>
           state g'
           = match ev with
             | Touch _ _ | KeyP => STATE_PLAYING
             | _ => STATE_PAUSED
             end
       | STATE_GAMEOVER =>
           state g'
           = match ev with Touch _ _ => STATE_PLAYING | _ => STATE_GAMEOVER end
       | STATE_WIN => state g' = STATE_WIN
       | STATE_PLAYING =>
           match ev with
           | KeyP => state g' = STATE_PAUSED
           | Touch _ _ => state g' = STATE_PLAYING \/ state g' = STATE_PAUSED
           | _ => state g' = STATE_PLAYING
           end
       end) g).
  unfold handle_event, handleTouch, handleTouchUp, playing. wp_steps.
  destruct (state g) eqn:E; destruct ev; wp_steps; rewrite ?E; wp_go;
    try (split; reflexivity);
    try (split; [reflexivity | auto; fail]).
  all: try (eapply wp_weaken; [|apply (action_in_play _ _ E)];
            [cbv beta; intros _ g' (B & S); split; [exact B | auto]
            | first [ apply playerShoot_scene
                    | apply playerFireMissile_scene
                    | apply playerBomb_scene ] ]).
  all: try (eapply wp_weaken; [|apply restart_backdrop];
            cbv beta; intros _ g' (B & S); split; assumption).
Qed.

Lemma handle_events_backdrop (evs : list Event) : forall g : @Game F,
  backdrop (exec (handle_events evs) g) = backdrop g.
Proof.
  induction evs as [|ev evs IH]; intros g; [reflexivity|].
  cbn [handle_events]. rewrite exec_seq, IH.
  exact (proj1 (handle_event_state ev g)).
Qed.

Lemma handle_events_not_win (evs : list Event) : forall g : @Game F,
  state g <> STATE_WIN -> state (exec (handle_events evs) g) <> STATE_WIN.
Proof.
  induction evs as [|ev evs IH]; intros g Hg; [exact Hg|].
  cbn [handle_events]. rewrite exec_seq. apply IH.
  pose proof (proj2 (handle_event_state ev g)) as T.
  destruct (state g); destruct ev; try congruence;
    destruct T as [T|T]; congruence.
Qed.

Lemma update_state (g : @Game F) :
  fixtures (exec update g) = fixtures g /\
  (state (exec update g) = state g \/
   (state g = STATE_PLAYING /\ state (exec update g) = STATE_GAMEOVER)).
Proof.
  change (wp update
    (fun _ g' => fixtures g' = fixtures g /\
       (state g' = state g \/
        (state g = STATE_PLAYING /\ state g' = STATE_GAMEOVER))) g).
  unfold update. wp_steps.
  destruct (state g) eqn:E; wp_steps; try (split; [reflexivity | auto]).
  destruct (updateGame_frame g) as (Fx & _ & _ & S & _).
  unfold wp. fold (exec updateGame g). rewrite E in S.
  split; [exact Fx|]. destruct S as [S|S]; auto.
Qed.

Lemma render_writes_keeps (g : @Game F) :
  wp render_writes
    (fun _ g' => state g' = state g /\ dt g' = dt g /\
                 highScore g' = highScore g) g.
Proof.
  unfold render_writes, renderGame_writes, set_buttons. wp_steps.
  destruct (state g) eqn:E; wp_go; repeat split; exact E.
Qed.

Lemma fixtures_dt (g g' : @Game F) :
  fixtures g' = fixtures g -> dt g' = dt g.
Proof.
  intros E.
  exact (f_equal (fun t => fst (fst (fst (fst (fst (fst (fst t))))))) E).
Qed.

Lemma backdrop_dt (g g' : @Game F) :
  backdrop g' = backdrop g -> dt g' = dt g.
Proof.
  intros E.
  exact (f_equal (fun t => fst (fst (fst (fst (fst (fst t)))))) E).
Qed.

Lemma main_loop_iteration_stages (ms : Z) (evs : list Event) (g : @Game F) :
  exec (main_loop_iteration ms evs) g
  = exec render_writes
      (exec update (exec (handle_events evs) (exec (frame_time ms) g))).
Proof.
  unfold main_loop_iteration, main_loop_turn, frame_time.
  rewrite !exec_seq. reflexivity.
Qed.


(** X6: no iteration of the main loop enters [STATE_WIN]: whatever the
    events and the elapsed milliseconds, a game that is not in that state
    is not in it after the iteration. *)
Theorem win_is_never_entered (ms : Z) (evs : list Event) (g : @Game F) :
  state g <> STATE_WIN ->
  state (exec (main_loop_iteration ms evs) g) <> STATE_WIN.
Proof.
  intros Hg. rewrite main_loop_iteration_stages.
  assert (H0 : state (exec (frame_time ms) g) <> STATE_WIN).
  { change (wp (frame_time ms) (fun _ g' => state g' <> STATE_WIN) g).
    unfold frame_time. wp_go. split_ifs; exact Hg. }
  pose proof (handle_events_not_win evs _ H0) as H1.
  set (g1 := exec (handle_events evs) (exec (frame_time ms) g)) in *.
  clearbody g1.
  destruct (update_state g1) as (_ & U).
  destruct (render_writes_keeps (exec update g1)) as (R & _).
  fold (exec render_writes (exec update g1)) in R. rewrite R.
  destruct U as [U|(_ & U)]; rewrite U; [exact H1 | discriminate].
Qed.

(** X7: the frame time that an iteration of the main loop leaves is never
    above 0.05 s, whatever the elapsed milliseconds and the events: the
    cap is applied before anything reads the frame time, and nothing
    assigns it afterwards.  The side condition says that 0.05 is not
    below itself. *)
Theorem frame_time_is_capped (ms : Z) (evs : list Event) (g : @Game F) :
  (lit 5 100 <~ lit 5 100) = false ->
  (dt (exec (main_loop_iteration ms evs) g) >~ lit 5 100) = false.
Proof.
  intros Hirr. rewrite main_loop_iteration_stages.
  assert (H0 : (dt (exec (frame_time ms) g) >~ lit 5 100) = false).
  { change (wp (frame_time ms) (fun _ g' => (dt g' >~ lit 5 100) = false) g).
    unfold frame_time. wp_steps.
    destruct (#ms /~ lit 10000 10 >~ lit 5 100) eqn:E; norm_state;
      assumption. }
  set (g0 := exec (frame_time ms) g) in *. clearbody g0.
  pose proof (backdrop_dt _ _ (handle_events_backdrop evs g0)) as H1.
  set (g1 := exec (handle_events evs) g0) in *. clearbody g1.
  pose proof (fixtures_dt _ _ (proj1 (update_state g1))) as H2.
  destruct (render_writes_keeps (exec update g1)) as (_ & R & _).
  fold (exec render_writes (exec update g1)) in R.
  rewrite R, H2, H1. exact H0.
Qed.

(** X8: input never touches the backdrop: whatever the events, handling
    them leaves the frame time, the high score, the menu and game-over
    clocks, the spawn interval and the two spawn timers, the buttons and
    the background as they are, and draws nothing from the generator. *)
Theorem input_leaves_backdrop (evs : list Event) (g : @Game F) :
  backdrop (exec (handle_events evs) g) = backdrop g.
Proof. apply handle_events_backdrop. Qed.

(** X9: the touch that follows the end of a session starts a new one:
    the five pools are empty, the clock is at 0, the boss latch is clear
    and the player is the one [initPlayer] makes (3 lives, 100 health, 10
    missiles, 3 bombs, no points).  The high score is kept; so are the
    combo, its timer and the two spawn timers, which the restart does not
    reset. *)
Theorem restart_resets_session (tx ty : Z) (g : @Game F) :
  state g = STATE_GAMEOVER ->
  let g' := exec (handle_event (Touch tx ty)) g in
  state g' = STATE_PLAYING /\
  (bullets g', missiles g', enemies g') = ([], [], []) /\
  (explosions g', powerups g') = ([], []) /\
  gameTime g' = #0 /\ bossAlive g' = false /\
  player g' = initPlayer (player g) /\
  (p_score (player g'), p_lives (player g'), p_hp (player g'),
   p_ammo (player g'), p_bombs (player g')) = (0, 3, 100, 10, 3) /\
  highScore g' = highScore g /\
  (combo g', comboTimer g', enemySpawnTimer g', powerupSpawnTimer g')
  = (combo g, comboTimer g, enemySpawnTimer g, powerupSpawnTimer g).
Proof.
  intros E g'. subst g'.
  change (wp (handle_event (Touch tx ty))
    (fun _ g' =>
       state g' = STATE_PLAYING /\
       (bullets g', missiles g', enemies g') = ([], [], []) /\
       (explosions g', powerups g') = ([], []) /\
       gameTime g' = #0 /\ bossAlive g' = false /\
       player g' = initPlayer (player g) /\
       (p_score (player g'), p_lives (player g'), p_hp (player g'),
        p_ammo (player g'), p_bombs (player g')) = (0, 3, 100, 10, 3) /\
       highScore g' = highScore g /\
       (combo g', comboTimer g', enemySpawnTimer g', powerupSpawnTimer g')
       = (combo g, comboTimer g, enemySpawnTimer g, powerupSpawnTimer g)) g).
  unfold handle_event, handleTouch. wp_steps. rewrite E.
  unfold restart. wp_steps. repeat split.
Qed.

(** X10: pausing loses nothing.  From play, [P] pauses; the update of the
    loop then does nothing at all; and [P] again, or a touch anywhere,
    gives back the very game that was paused. *)
Theorem pause_and_resume (tx ty : Z) (g : @Game F) :
  state g = STATE_PLAYING ->
  exec update (exec (handle_event KeyP) g) = exec (handle_event KeyP) g /\
  exec (handle_event KeyP) (exec update (exec (handle_event KeyP) g)) = g /\
  exec (handle_event (Touch tx ty)) (exec update (exec (handle_event KeyP) g))
  = g.
Proof.
  intros E.
  assert (P : exec (handle_event KeyP) g = set_state STATE_PAUSED g).
  { unfold exec, handle_event, modify, bind, get. cbn [fst snd].
    rewrite E. reflexivity. }
  rewrite P.
  assert (U : exec update (set_state STATE_PAUSED g) = set_state STATE_PAUSED g)
    by reflexivity.
  rewrite U. split; [reflexivity|].
  destruct g. cbn in E. subst. split; reflexivity.
Qed.

(** ** The three actions *)

Lemma playerShoot_cooling (g : @Game F) :
  (p_shootTimer (player g) >~ #0) = true -> exec playerShoot g = g.
Proof.
  intros H. unfold playerShoot, exec, bind, get. cbn [fst snd].
  rewrite H. reflexivity.
Qed.

Lemma playerShoot_sets_cooldown (g : @Game F) :
  (p_shootTimer (player g) >~ #0) = false ->
  p_shootTimer (player (exec playerShoot g))
  = (if p_rapidFire (player g) then lit 5 100 else p_shootCooldown (player g)).
Proof.
  intros H.
  change (wp playerShoot
    (fun _ g' =>
       p_shootTimer (player g')
       = (if p_rapidFire (player g) then lit 5 100
          else p_shootCooldown (player g))) g).
  unfold playerShoot. wp_steps. rewrite H. wp_steps. reflexivity.
Qed.

(** X11: the gun fires once per cooldown.  While the shot timer runs, the
    shoot action returns the game it was given; and when the cooldown that
    a shot sets (0.05 s under rapid fire, the player's own otherwise) is
    positive, a second shoot action right after the first changes nothing:
    two presses in one frame fire one double shot. *)
Theorem playerShoot_twice_fires_once (g : @Game F) :
  ((if p_rapidFire (player g) then lit 5 100 else p_shootCooldown (player g))
   >~ #0) = true ->
  exec playerShoot (exec playerShoot g) = exec playerShoot g /\
  ((p_shootTimer (player g) >~ #0) = true -> exec playerShoot g = g).
Proof.
  intros Hcd. split; [|apply playerShoot_cooling].
  destruct (p_shootTimer (player g) >~ #0) eqn:E.
  - rewrite (playerShoot_cooling g E). apply playerShoot_cooling. exact E.
  - apply playerShoot_cooling.
    rewrite (playerShoot_sets_cooldown g E). exact Hcd.
Qed.

Lemma bomb_enemy_latch_and_level (e : EnemyJet) (g : @Game F) :
  same (fun g => (bossAlive g, p_level (player g))) g (snd (bomb_enemy e g)).
Proof.
  change (wp (bomb_enemy e)
    (fun _ g' => (bossAlive g', p_level (player g'))
                 = (bossAlive g, p_level (player g))) g).
  unfold bomb_enemy. wp_go; reflexivity.
Qed.

(** X12: the bomb never clears the boss latch and never raises the level,
    whatever it kills, the boss included. *)
Theorem bomb_never_clears_boss_latch (g : @Game F) :
  bossAlive (exec playerBomb g) = bossAlive g /\
  p_level (player (exec playerBomb g)) = p_level (player g).
Proof.
  assert (H : wp playerBomb
    (fun _ g' => (bossAlive g', p_level (player g'))
                 = (bossAlive g, p_level (player g))) g).
  { unfold playerBomb. wp_steps. wp_branch; wp_steps; [reflexivity|].
    apply (wp_for_each (same (fun g => (bossAlive g, p_level (player g))))
             (fun _ => True));
      [apply same_refl | apply same_trans | apply bomb_enemy_latch_and_level
      | auto |].
    intros es g1 _ _ C. wp_steps. exact C. }
  unfold wp in H. fold (exec playerBomb g) in H.
  split; [exact (f_equal fst H) | exact (f_equal snd H)].
Qed.

(** ** The spawn blocks *)

(** X13: while the boss latch is set, the two spawn blocks of a frame add
    no enemy, however long the spawn timer has run, and leave the latch
    set. *)
Theorem no_spawn_while_boss_latch_set (g : @Game F) :
  bossAlive g = true ->
  enemies (exec spawn_boss (exec spawn_enemies g)) = enemies g /\
  bossAlive (exec spawn_boss (exec spawn_enemies g)) = true.
Proof.
  intros Hb.
  assert (H1 : wp spawn_enemies
            (fun _ g' => enemies g' = enemies g /\ bossAlive g' = true) g).
  { unfold spawn_enemies. wp_steps. rewrite Hb.
    wp_go; split; auto. }
  unfold wp in H1. fold (exec spawn_enemies g) in H1.
  destruct H1 as (E1 & B1).
  set (g1 := exec spawn_enemies g) in *. clearbody g1.
  assert (H2 : wp spawn_boss
            (fun _ g' => enemies g' = enemies g1 /\ bossAlive g' = true) g1).
  { unfold spawn_boss. wp_steps. rewrite B1, andb_false_r.
    wp_steps. split; auto. }
  unfold wp in H2. fold (exec spawn_boss g1) in H2.
  destruct H2 as (E2 & B2). split; [congruence | exact B2].
Qed.

Lemma rand_rem_bound (g : @Game F) (n : Z) :
  0 < n ->
  0 <= Int32.rem (Z.of_N (rng g 0%nat) mod (RAND_MAX + 1)) n < n.
Proof.
  intros Hn. unfold Int32.rem. apply Z.rem_bound_pos; [|exact Hn].
  apply Z.mod_pos_bound. unfold RAND_MAX. lia.
Qed.

Lemma spawnEnemy_regular (type : Z) (g : @Game F) :
  0 <= type <= 2 ->
  wp (spawnEnemy type)
    (fun _ g' =>
       exists e,
         enemies g' = enemies g ++ [e] /\ e_type e = type /\
         e_active e = true /\ e_hp e = e_maxHp e /\
         e_shootTimer e = e_shootInterval e /\
         (e_hp e, e_score e)
         = (if type =? 0 then (30, 100)
            else if type =? 1 then (20, 200) else (80, 500))) g.
Proof.
  intros Ht. unfold spawnEnemy. wp_steps.
  destruct (type =? 0) eqn:E0;
    [|destruct (type =? 1) eqn:E1;
      [|destruct (type =? 2) eqn:E2;
        [|apply Z.eqb_neq in E0, E1, E2; lia]]];
    wp_steps; eexists; repeat split.
Qed.

(** X14: when the spawn timer is due and no boss is around, the spawn
    block adds exactly one enemy and resets the timer.  The enemy is
    active, at full health, has just reloaded, and is Basic, Fast or Heavy
    with the health and score of its archetype (30/100, 20/200, 80/500),
    never a Boss; it is Basic while the elapsed time is not above 30 s,
    and not Heavy while it is not above 60 s. *)
Theorem spawn_enemies_archetype (g : @Game F) :
  (enemySpawnTimer g +~ dt g
   >=~ fmax (lit 5 10) (enemySpawnInterval g -~ gameTime g *~ lit 2 100))
  = true ->
  bossAlive g = false ->
  enemySpawnTimer (exec spawn_enemies g) = #0 /\
  exists e,
    enemies (exec spawn_enemies g) = enemies g ++ [e] /\
    e_active e = true /\ e_hp e = e_maxHp e /\
    e_shootTimer e = e_shootInterval e /\
    0 <= e_type e <= 2 /\
    (e_hp e, e_score e)
    = (if e_type e =? 0 then (30, 100)
       else if e_type e =? 1 then (20, 200) else (80, 500)) /\
    ((gameTime g >~ #60) = false -> e_type e <= 1) /\
    ((gameTime g >~ #60) = false -> (gameTime g >~ #30) = false ->
     e_type e = 0).
Proof.
  intros Hdue Hb.
  change (wp spawn_enemies
    (fun _ g' =>
       enemySpawnTimer g' = #0 /\
       exists e,
         enemies g' = enemies g ++ [e] /\
         e_active e = true /\ e_hp e = e_maxHp e /\
         e_shootTimer e = e_shootInterval e /\
         0 <= e_type e <= 2 /\
         (e_hp e, e_score e)
         = (if e_type e =? 0 then (30, 100)
            else if e_type e =? 1 then (20, 200) else (80, 500)) /\
         ((gameTime g >~ #60) = false -> e_type e <= 1) /\
         ((gameTime g >~ #60) = false -> (gameTime g >~ #30) = false ->
          e_type e = 0)) g).
  assert (Fin : forall (type : Z) (g1 : @Game F),
            0 <= type <= 2 ->
            ((gameTime g >~ #60) = false -> type <= 1) ->
            ((gameTime g >~ #60) = false -> (gameTime g >~ #30) = false ->
             type = 0) ->
            enemies g1 = enemies g -> enemySpawnTimer g1 = #0 ->
            wp (spawnEnemy type)
              (fun _ g' =>
                 enemySpawnTimer g' = #0 /\
                 exists e,
                   enemies g' = enemies g ++ [e] /\
                   e_active e = true /\ e_hp e = e_maxHp e /\
                   e_shootTimer e = e_shootInterval e /\
                   0 <= e_type e <= 2 /\
                   (e_hp e, e_score e)
                   = (if e_type e =? 0 then (30, 100)
                      else if e_type e =? 1 then (20, 200) else (80, 500)) /\
                   ((gameTime g >~ #60) = false -> e_type e <= 1) /\
                   ((gameTime g >~ #60) = false ->
                    (gameTime g >~ #30) = false -> e_type e = 0)) g1).
  { intros type g1 Ht H60 H30 Hes Htm.
    assert (Htimer : wp (spawnEnemy type)
              (fun _ g' => enemySpawnTimer g' = enemySpawnTimer g1) g1).
    { unfold spawnEnemy. wp_go; reflexivity. }
    pose proof (spawnEnemy_regular type g1 Ht) as Hreg.
    unfold wp in *. destruct Hreg as (e & R1 & R2 & R3 & R4 & R5 & R6).
    split; [congruence|]. exists e. rewrite R1, Hes, R2.
    repeat split; auto; lia. }
  unfold spawn_enemies. wp_steps. rewrite Hdue. wp_steps.
  destruct (gameTime g >~ #60) eqn:E60.
  - wp_steps. rewrite Hb. wp_steps.
    pose proof (rand_rem_bound g 3 ltac:(lia)) as Hr.
    apply Fin; try reflexivity; try discriminate; intros; lia.
  - destruct (gameTime g >~ #30) eqn:E30.
    + wp_steps. rewrite Hb. wp_steps.
      pose proof (rand_rem_bound g 2 ltac:(lia)) as Hr.
      apply Fin; try reflexivity; try discriminate; intros; lia.
    + wp_steps. rewrite Hb. wp_steps.
      apply Fin; try reflexivity; intros; lia.
Qed.

(** ** Missiles *)

Lemma nearest_from_inactive (x y : F) (es : list EnemyJet) :
  Forall (fun e => e_active e = false) es ->
  forall acc, fold_left (nearest_from x y) es acc = acc.
Proof.
  induction 1 as [|e es He _ IH]; intros acc; [reflexivity|].
  cbn [fold_left]. rewrite <- (IH acc) at 2. f_equal.
  unfold nearest_from. destruct acc as [[d tx] ty]. rewrite He. reflexivity.
Qed.

(** X15: with a missile in stock, the fire-missile action takes one from
    the stock and launches exactly one missile: the player's own, active,
    of damage 50 and with 3 s to live, from 40 above the player.  With no
    active enemy in the pool it is aimed straight up, at the point
    [(x, -100)] above the player.  Bullets, enemies and score are left
    alone. *)
Theorem playerFireMissile_launch (g : @Game F) :
  0 < p_ammo (player g) -> p_ammo (player g) <= Int32.max_int ->
  exists m,
    missiles (exec playerFireMissile g) = missiles g ++ [m] /\
    p_ammo (player (exec playerFireMissile g)) = p_ammo (player g) - 1 /\
    (m_isEnemy m, m_active m, m_damage m, m_life m)
    = (false, true, 50, lit 30 10) /\
    (m_x m, m_y m) = (p_x (player g), p_y (player g) -~ #40) /\
    (Forall (fun e => e_active e = false) (enemies g) ->
     (m_targetX m, m_targetY m) = (p_x (player g), #(-100))) /\
    (bullets (exec playerFireMissile g), enemies (exec playerFireMissile g),
     p_score (player (exec playerFireMissile g)))
    = (bullets g, enemies g, p_score (player g)).
Proof.
  intros Hpos Hmax.
  change (wp playerFireMissile
    (fun _ g' =>
       exists m,
         missiles g' = missiles g ++ [m] /\
         p_ammo (player g') = p_ammo (player g) - 1 /\
         (m_isEnemy m, m_active m, m_damage m, m_life m)
         = (false, true, 50, lit 30 10) /\
         (m_x m, m_y m) = (p_x (player g), p_y (player g) -~ #40) /\
         (Forall (fun e => e_active e = false) (enemies g) ->
          (m_targetX m, m_targetY m) = (p_x (player g), #(-100))) /\
         (bullets g', enemies g', p_score (player g'))
         = (bullets g, enemies g, p_score (player g))) g).
  unfold playerFireMissile. wp_steps.
  destruct (Z.leb_spec (p_ammo (player g)) 0); [lia|]. wp_steps.
  destruct (fold_left _ _ _) as [[d tx] ty] eqn:Ef. wp_steps.
  eexists. split; [reflexivity|]. norm_state.
  split; [apply sub_exact; int_range; lia|].
  split; [reflexivity|]. split; [reflexivity|]. split; [|reflexivity].
  intros Hin. rewrite (nearest_from_inactive _ _ _ Hin) in Ef.
  injection Ef as _ <- <-. reflexivity.
Qed.

Lemma nearer_fold (m : Missile) (es : list EnemyJet) :
  forall (acc : F * option EnemyJet) (t : EnemyJet),
    snd (fold_left (nearer m) es acc) = Some t ->
    snd acc = Some t \/ (In t es /\ e_active t = true).
Proof.
  induction es as [|e es IH]; intros acc t H; [left; exact H|].
  cbn [fold_left] in H. destruct (IH _ _ H) as [H1|(H1 & H2)].
  - unfold nearer in H1. destruct (e_active e) eqn:Ha; cbn [negb] in H1;
      [|left; exact H1].
    destruct (_ <~ fst acc); [|left; exact H1].
    cbn [snd] in H1. injection H1 as <-. right. split; [left; reflexivity|].
    exact Ha.
  - right. split; [right; exact H1 | exact H2].
Qed.

(** X16: the target the guidance picks for a missile is always an enemy
    of the pool that is active: an inactive enemy is never steered at. *)
Theorem homing_target_is_active (m : Missile) (es : list EnemyJet)
    (t : EnemyJet) :
  homing_target m es = Some t -> In t es /\ e_active t = true.
Proof.
  intros H. destruct (nearer_fold m es _ t H) as [H1|H1];
    [discriminate H1 | exact H1].
Qed.

Lemma nearer_inactive (m : Missile) (es : list EnemyJet) :
  Forall (fun e => e_active e = false) es ->
  forall acc, fold_left (nearer m) es acc = acc.
Proof.
  induction 1 as [|e es He _ IH]; intros acc; [reflexivity|].
  cbn [fold_left]. rewrite <- (IH acc) at 2. f_equal.
  unfold nearer. rewrite He. reflexivity.
Qed.

(** X17: a missile with no live target flies straight on: when no enemy
    of the pool is active the guidance step returns the missile as it is,
    velocity included; and it never steers an enemy missile. *)
Theorem homing_without_target (d : F) (es : list EnemyJet) (m : Missile) :
  Forall (fun e => e_active e = false) es \/ m_isEnemy m = true ->
  homing d es m = m.
Proof.
  intros [H|H]; unfold homing.
  - unfold homing_target. rewrite (nearer_inactive m es H). cbn [snd].
    destruct (negb (m_isEnemy m) && _); reflexivity.
  - rewrite H. reflexivity.
Qed.

(** ** Being hit *)

Lemma unharmed_refl (g : @Game F) : unharmed g g.
Proof. intros _. reflexivity. Qed.

Lemma unharmed_trans (g1 g2 g3 : @Game F) :
  unharmed g1 g2 -> unharmed g2 g3 -> unharmed g1 g3.
Proof.
  unfold unharmed, blocked. intros H1 H2 Hb.
  pose proof (H1 Hb) as V1.
  assert (I : p_invTimer (player g2) = p_invTimer (player g1))
    by exact (f_equal (fun t => snd (fst (fst t))) V1).
  rewrite H2; [exact V1|]. rewrite I. exact Hb.
Qed.

Lemma bullet_vs_enemy_unharmed (b : Bullet) (e : EnemyJet) (g : @Game F) :
  unharmed g (snd (bullet_vs_enemy b e g)).
Proof. intros _. exact (proj1 (bullet_vs_enemy_frame b e g)). Qed.

Lemma missile_vs_enemy_unharmed (m : Missile) (e : EnemyJet) (g : @Game F) :
  unharmed g (snd (missile_vs_enemy m e g)).
Proof. intros _. exact (proj1 (missile_vs_enemy_frame m e g)). Qed.

Lemma update_bullet_unharmed (b : Bullet) (g : @Game F) :
  unharmed g (snd (update_bullet b g)).
Proof.
  change (wp (update_bullet b) (fun _ g' => unharmed g g') g).
  unfold update_bullet. wp_go.
  - apply unharmed_refl.
  - apply (wp_for_each_with unharmed (fun _ => True) (fun _ => True));
      [ exact unharmed_refl | exact unharmed_trans
      | apply bullet_vs_enemy_unharmed | auto | auto | exact I |].
    intros r g1 _ _ _ C. wp_steps. intros Hb. rewrite <- (C Hb). reflexivity.
  - unfold bullet_vs_player. wp_steps.
    destruct (p_invTimer (player g) <=~ #0) eqn:E; cbn [andb].
    + apply (wp_weaken _ (fun _ _ => True)); [|exact I].
      intros _ g' _ Hb. unfold blocked in Hb. congruence.
    + wp_steps. apply unharmed_refl.
Qed.

Lemma update_missile_unharmed (m : Missile) (g : @Game F) :
  unharmed g (snd (update_missile m g)).
Proof.
  change (wp (update_missile m) (fun _ g' => unharmed g g') g).
  unfold update_missile. wp_go.
  - apply unharmed_refl.
  - apply unharmed_refl.
  - apply (wp_for_each_with unharmed (fun _ => True) (fun _ => True));
      [ exact unharmed_refl | exact unharmed_trans
      | apply missile_vs_enemy_unharmed | auto | auto | exact I |].
    intros r g1 _ _ _ C. wp_steps. intros Hb. rewrite <- (C Hb). reflexivity.
  - unfold missile_vs_player. wp_steps.
    destruct (p_invTimer (player g) <=~ #0) eqn:E; cbn [andb].
    + apply (wp_weaken _ (fun _ _ => True)); [|exact I].
      intros m' g' _. wp_steps. intros Hb. unfold blocked in Hb. congruence.
    + wp_steps. apply unharmed_refl.
Qed.

(** X18: while the invulnerability timer runs, nothing that flies can
    harm the player: the bullet block and the missile block of a frame
    leave the health, the shield, the lives, the stocks, the timer itself
    and the session state exactly as they were, whatever is in the
    pools. *)
Theorem invulnerable_through_collisions (g : @Game F) :
  blocked (player g) ->
  vital (exec update_bullets g) = vital g /\
  vital (exec update_missiles g) = vital g.
Proof.
  intros Hb. split.
  - assert (H : wp update_bullets (fun _ g' => unharmed g g') g).
    { unfold update_bullets. wp_steps.
      apply (wp_for_each unharmed (fun _ => True));
        [ exact unharmed_refl | exact unharmed_trans
        | apply update_bullet_unharmed | auto |].
      intros bs g1 _ _ C. wp_steps. intros Hb'. rewrite <- (C Hb').
      reflexivity. }
    exact (H Hb).
  - assert (H : wp update_missiles (fun _ g' => unharmed g g') g).
    { unfold update_missiles. wp_steps.
      apply (wp_for_each unharmed (fun _ => True));
        [ exact unharmed_refl | exact unharmed_trans
        | apply update_missile_unharmed | auto |].
      intros ms g1 _ _ C. wp_steps. intros Hb'. rewrite <- (C Hb').
      reflexivity. }
    exact (H Hb).
Qed.

(** X19: losing a life that is not the last one.  When an enemy bullet
    (not absorbed by the shield) or an enemy missile takes the health to 0
    or below and a life is left after the loss, the player loses exactly
    one life, is back at full health and is invulnerable for 3 s; the
    session goes on and the high score is not touched; the projectile is
    consumed. *)
Theorem life_lost_and_respawn (g : @Game F) :
  (p_invTimer (player g) <=~ #0) = true ->
  0 < Int32.sub (p_lives (player g)) 1 ->
  (forall b : Bullet,
     (dist2D (b_x b) (b_y b) (p_x (player g)) (p_y (player g)) <~ #30) = true ->
     p_shieldActive (player g) && (p_shield (player g) >? 0) = false ->
     Int32.sub (p_hp (player g)) (b_damage b) <= 0 ->
     let g' := snd (bullet_vs_player b g) in
     b_active (fst (bullet_vs_player b g)) = false /\
     p_lives (player g') = Int32.sub (p_lives (player g)) 1 /\
     p_hp (player g') = p_maxHp (player g) /\
     p_invTimer (player g') = lit 30 10 /\
     state g' = state g /\ highScore g' = highScore g) /\
  (forall m : Missile,
     (dist2D (m_x m) (m_y m) (p_x (player g)) (p_y (player g)) <~ #35) = true ->
     Int32.sub (p_hp (player g)) (m_damage m) <= 0 ->
     let g' := snd (missile_vs_player m g) in
     m_active (fst (missile_vs_player m g)) = false /\
     p_lives (player g') = Int32.sub (p_lives (player g)) 1 /\
     p_hp (player g') = p_maxHp (player g) /\
     p_invTimer (player g') = lit 30 10 /\
     state g' = state g /\ highScore g' = highScore g).
Proof.
  intros Hinv Hl. split.
  - intros b Hd Hsh Hhp g'. subst g'.
    change (wp (bullet_vs_player b)
      (fun b' g' =>
         b_active b' = false /\
         p_lives (player g') = Int32.sub (p_lives (player g)) 1 /\
         p_hp (player g') = p_maxHp (player g) /\
         p_invTimer (player g') = lit 30 10 /\
         state g' = state g /\ highScore g' = highScore g) g).
    unfold bullet_vs_player. wp_steps. rewrite Hinv, Hd, Hsh. cbn [andb].
    wp_steps.
    destruct (Z.leb_spec (Int32.sub (p_hp (player g)) (b_damage b)) 0); [|lia].
    wp_steps.
    destruct (Z.leb_spec (Int32.sub (p_lives (player g)) 1) 0); [lia|].
    wp_steps. repeat split.
  - intros m Hd Hhp g'. subst g'.
    change (wp (missile_vs_player m)
      (fun m' g' =>
         m_active m' = false /\
         p_lives (player g') = Int32.sub (p_lives (player g)) 1 /\
         p_hp (player g') = p_maxHp (player g) /\
         p_invTimer (player g') = lit 30 10 /\
         state g' = state g /\ highScore g' = highScore g) g).
    unfold missile_vs_player. wp_steps. rewrite Hinv, Hd. cbn [andb].
    wp_steps.
    destruct (Z.leb_spec (Int32.sub (p_hp (player g)) (m_damage m)) 0); [|lia].
    wp_steps.
    destruct (Z.leb_spec (Int32.sub (p_lives (player g)) 1) 0); [lia|].
    wp_steps. repeat split.
Qed.

(** ** Kills *)

(** X20: a gun kill.  A player bullet that takes the last hit points of an
    enemy within its radius deactivates the enemy and itself, adds the
    enemy's score times [1 + combo / 5] (the combo as it stood before the
    kill), counts one kill, raises the combo by one and restarts its
    timer at 2 s.  The side conditions say that the combo is not negative
    and that no [int] overflows. *)
Theorem gun_kill_accounting (b : Bullet) (e : EnemyJet) (g : @Game F) :
  within (b_x b) (b_y b) 50 30 e = true ->
  Int32.sub (e_hp e) (b_damage b) <= 0 ->
  0 <= combo g < Int32.max_int ->
  p_kills (player g) < Int32.max_int -> Int32.min_int <= p_kills (player g) ->
  Int32.in_range (e_score e * (1 + combo g / 5)) ->
  Int32.in_range (p_score (player g) + e_score e * (1 + combo g / 5)) ->
  let r := bullet_vs_enemy b e g in
  b_active (fst (fst r)) = false /\ e_active (snd (fst r)) = false /\
  p_score (player (snd r))
  = p_score (player g) + e_score e * (1 + combo g / 5) /\
  p_kills (player (snd r)) = p_kills (player g) + 1 /\
  combo (snd r) = combo g + 1 /\ comboTimer (snd r) = lit 20 10.
Proof.
  intros Hin Hhp Hc Hk Hk' Hm Hs r. subst r.
  unfold within in Hin. apply andb_prop in Hin. destruct Hin as [Hact Hd].
  change (wp (bullet_vs_enemy b e)
    (fun r g' =>
       b_active (fst r) = false /\ e_active (snd r) = false /\
       p_score (player g')
       = p_score (player g) + e_score e * (1 + combo g / 5) /\
       p_kills (player g') = p_kills (player g) + 1 /\
       combo g' = combo g + 1 /\ comboTimer g' = lit 20 10) g).
  assert (Ediv : Int32.div (combo g) 5 = combo g / 5).
  { unfold Int32.div. rewrite Z.quot_div_nonneg by lia.
    apply wrap_id. int_range.
    pose proof (Z.div_pos (combo g) 5 ltac:(lia) ltac:(lia)).
    pose proof (Z.div_le_upper_bound (combo g) 5 (combo g) ltac:(lia)
                  ltac:(lia)).
    lia. }
  assert (E1 : Int32.add 1 (Int32.div (combo g) 5) = 1 + combo g / 5).
  { rewrite Ediv. apply add_exact. int_range.
    pose proof (Z.div_pos (combo g) 5 ltac:(lia) ltac:(lia)).
    pose proof (Z.div_le_upper_bound (combo g) 5 (combo g) ltac:(lia)
                  ltac:(lia)).
    lia. }
  assert (E2 : Int32.mul (e_score e) (1 + combo g / 5)
               = e_score e * (1 + combo g / 5)) by (apply wrap_id; exact Hm).
  assert (E3 : Int32.add (p_score (player g)) (e_score e * (1 + combo g / 5))
               = p_score (player g) + e_score e * (1 + combo g / 5))
    by (apply add_exact; exact Hs).
  assert (E4 : Int32.add (p_kills (player g)) 1 = p_kills (player g) + 1)
    by (apply add_exact; int_range; lia).
  assert (E5 : Int32.add (combo g) 1 = combo g + 1)
    by (apply add_exact; int_range; lia).
  unfold bullet_vs_enemy. rewrite Hact. cbn [negb]. rewrite Hd. wp_steps.
  destruct (Z.leb_spec (Int32.sub (e_hp e) (b_damage b)) 0); [|lia].
  wp_steps. rewrite E1, E2, E3.
  destruct (e_type e =? 3); wp_steps;
    match goal with |- context [Int32.rem ?r 3 =? 0] =>
      destruct (Int32.rem r 3 =? 0) end;
    wp_steps; rewrite ?E4, ?E5; repeat split.
Qed.

Lemma missile_vs_enemy_beyond (m : Missile) (e : EnemyJet) (g : @Game F) :
  same beyond_missiles g (snd (missile_vs_enemy m e g)).
Proof.
  change (wp (missile_vs_enemy m e)
            (fun _ g' => beyond_missiles g' = beyond_missiles g) g).
  unfold missile_vs_enemy. wp_go; reflexivity.
Qed.

Lemma update_missile_beyond (m : Missile) (g : @Game F) :
  same beyond_missiles g (snd (update_missile m g)).
Proof.
  change (wp (update_missile m)
            (fun _ g' => beyond_missiles g' = beyond_missiles g) g).
  unfold update_missile. wp_go; try reflexivity.
  - apply (wp_for_each_with (same beyond_missiles)
             (fun _ => True) (fun _ => True));
      [ apply same_refl | apply same_trans
      | apply missile_vs_enemy_beyond | auto | auto | exact I |].
    intros r g1 _ _ _ C. wp_steps. exact C.
  - unfold missile_vs_player. wp_go; reflexivity.
Qed.

(** X21: the missile block of a frame assigns neither the combo nor its
    timer, neither the high score nor the shield, its flag and its timer,
    nor the level, the stocks of missiles and bombs or the bullet pool:
    whatever the missiles of either side hit or kill, these are after the
    block what they were before it. *)
Theorem missile_block_leaves (g : @Game F) :
  beyond_missiles (exec update_missiles g) = beyond_missiles g.
Proof.
  change (wp update_missiles
            (fun _ g' => beyond_missiles g' = beyond_missiles g) g).
  unfold update_missiles. wp_steps.
  apply (wp_for_each (same beyond_missiles) (fun _ => True));
    [ apply same_refl | apply same_trans | apply update_missile_beyond
    | auto |].
  intros ms g1 _ _ C. wp_steps. exact C.
Qed.

(** ** Compaction *)

Lemma filter_all {A : Type} (f : A -> bool) (l : list A) :
  Forall (fun a => f a = true) (filter f l).
Proof.
  apply Forall_forall. intros a Ha. apply filter_In in Ha. apply Ha.
Qed.

Lemma fleet_parts (g g' : @Game F) :
  fleet g' = fleet g ->
  bullets g' = bullets g /\ missiles g' = missiles g /\
  enemies g' = enemies g.
Proof.
  intros E. split; [exact (f_equal (fun t => fst (fst t)) E)|].
  split; [exact (f_equal (fun t => snd (fst t)) E) | exact (f_equal snd E)].
Qed.

Lemma update_powerup_fleet (pu : PowerUp) (g : @Game F) :
  same fleet g (snd (update_powerup pu g)).
Proof.
  change (wp (update_powerup pu) (fun _ g' => fleet g' = fleet g) g).
  unfold update_powerup, collect. wp_go; reflexivity.
Qed.

Lemma cleanup_active (g : @Game F) :
  wp cleanup
    (fun _ g' =>
       Forall (fun b => b_active b = true) (bullets g') /\
       Forall (fun m => m_active m = true) (missiles g') /\
       Forall (fun e => e_active e = true) (enemies g')) g.
Proof. unfold cleanup. wp_go. repeat split; apply filter_all. Qed.

Lemma update_powerups_active (g : @Game F) :
  wp update_powerups
    (fun _ g' => fleet g' = fleet g /\
       Forall (fun pu => pu_active pu = true) (powerups g')) g.
Proof.
  unfold update_powerups. wp_steps.
  apply (wp_for_each (same fleet) (fun _ => True));
    [ apply same_refl | apply same_trans | apply update_powerup_fleet
    | auto |].
  intros ps g1 _ _ C1. wp_steps. split; [exact C1 | apply filter_all].
Qed.

Lemma shield_and_level_pools (g : @Game F) :
  wp shield_and_level
    (fun _ g' => fleet g' = fleet g /\ powerups g' = powerups g) g.
Proof. unfold shield_and_level. wp_go. split; reflexivity. Qed.

Lemma updateGame_tail (g : @Game F) :
  exists g10,
    exec updateGame g
    = exec shield_and_level (exec update_powerups (exec cleanup g10)).
Proof.
  unfold updateGame. rewrite !exec_seq. eexists. reflexivity.
Qed.

(** X22: every frame ends with the four pools compacted: each bullet,
    missile, enemy and pickup that is still in its pool is active. *)
Theorem pools_hold_only_active (g : @Game F) :
  Forall (fun b => b_active b = true) (bullets (exec updateGame g)) /\
  Forall (fun m => m_active m = true) (missiles (exec updateGame g)) /\
  Forall (fun e => e_active e = true) (enemies (exec updateGame g)) /\
  Forall (fun pu => pu_active pu = true) (powerups (exec updateGame g)).
Proof.
  destruct (updateGame_tail g) as (g10 & ->).
  pose proof (cleanup_active g10) as C. unfold wp in C.
  fold (exec cleanup g10) in C.
  set (g11 := exec cleanup g10) in *. clearbody g11.
  pose proof (update_powerups_active g11) as P. unfold wp in P.
  fold (exec update_powerups g11) in P. destruct P as (P1 & P2).
  set (g12 := exec update_powerups g11) in *. clearbody g12.
  pose proof (shield_and_level_pools g12) as S. unfold wp in S.
  fold (exec shield_and_level g12) in S. destruct S as (S1 & S2).
  set (g13 := exec shield_and_level g12) in *. clearbody g13.
  destruct (fleet_parts _ _ S1) as (E1 & E2 & E3).
  destruct (fleet_parts _ _ P1) as (D1 & D2 & D3).
  rewrite E1, E2, E3, S2, D1, D2, D3. destruct C as (C1 & C2 & C3). auto.
Qed.

(** ** What the pools hold *)

Lemma rem_of_rand (x : N) (n : Z) :
  0 < n -> 0 <= Int32.rem (Z.of_N x mod (RAND_MAX + 1)) n < n.
Proof.
  intros Hn. unfold Int32.rem. apply Z.rem_bound_pos; [|exact Hn].
  apply Z.mod_pos_bound. unfold RAND_MAX. lia.
Qed.

(** Loops under an invariant of the game and a property of the elements,
    which the body may rely on and has to keep. *)
Lemma for_each_inv {A : Type} (Inv : @Game F -> Prop) (P : A -> Prop)
    (body : A -> @M F A) :
  (forall a g, P a -> Inv g -> Inv (snd (body a g)) /\ P (fst (body a g))) ->
  forall l g, Forall P l -> Inv g ->
    Inv (snd (for_each body l g)) /\ Forall P (fst (for_each body l g)).
Proof.
  intros Hb. induction l as [|a l IH]; intros g Hl Hi.
  - cbn. auto.
  - inversion Hl as [|? ? Ha Hl']; subst. cbn [for_each]. run.
    destruct (Hb a g Ha Hi) as (I1 & P1).
    destruct (IH _ Hl' I1) as (I2 & P2).
    split; [exact I2 | constructor; assumption].
Qed.

Lemma for_each_with_inv {S A : Type} (Inv : @Game F -> Prop)
    (PS : S -> Prop) (PA : A -> Prop) (body : S -> A -> @M F (S * A)) :
  (forall s a g, PS s -> PA a -> Inv g ->
     Inv (snd (body s a g)) /\ PS (fst (fst (body s a g))) /\
     PA (snd (fst (body s a g)))) ->
  forall l s g, PS s -> Forall PA l -> Inv g ->
    Inv (snd (for_each_with body s l g)) /\
    PS (fst (fst (for_each_with body s l g))) /\
    Forall PA (snd (fst (for_each_with body s l g))).
Proof.
  intros Hb. induction l as [|a l IH]; intros s g Hs Hl Hi.
  - cbn. auto.
  - inversion Hl as [|? ? Ha Hl']; subst. cbn [for_each_with]. run.
    destruct (Hb s a g Hs Ha Hi) as (I1 & S1 & A1).
    destruct (IH _ _ S1 Hl' I1) as (I2 & S2 & A2).
    split; [exact I2|]. split; [exact S2 | constructor; assumption].
Qed.

Lemma wp_for_each_inv {A : Type} (Inv : @Game F -> Prop) (P : A -> Prop)
    (body : A -> @M F A) (l : list A) (g : @Game F)
    (Q : list A -> @Game F -> Prop) :
  (forall a g, P a -> Inv g -> wp (body a) (fun a' g' => Inv g' /\ P a') g) ->
  Forall P l -> Inv g ->
  (forall l' g', Forall P l' -> Inv g' -> Q l' g') ->
  wp (for_each body l) Q g.
Proof.
  intros Hb Hl Hi HQ. unfold wp.
  destruct (for_each_inv Inv P body Hb l g Hl Hi) as (I & Pl). auto.
Qed.

Lemma wp_for_each_with_inv {S A : Type} (Inv : @Game F -> Prop)
    (PS : S -> Prop) (PA : A -> Prop) (body : S -> A -> @M F (S * A))
    (s : S) (l : list A) (g : @Game F) (Q : S * list A -> @Game F -> Prop) :
  (forall s a g, PS s -> PA a -> Inv g ->
     wp (body s a) (fun r g' => Inv g' /\ PS (fst r) /\ PA (snd r)) g) ->
  PS s -> Forall PA l -> Inv g ->
  (forall r g', PS (fst r) -> Forall PA (snd r) -> Inv g' -> Q r g') ->
  wp (for_each_with body s l) Q g.
Proof.
  intros Hb Hs Hl Hi HQ. unfold wp.
  destruct (for_each_with_inv Inv PS PA body Hb l s g Hs Hl Hi)
    as (I & S1 & A1). auto.
Qed.

Lemma Forall_filter {A : Type} (P : A -> Prop) (f : A -> bool) (l : list A) :
  Forall P l -> Forall P (filter f l).
Proof.
  intros H. apply Forall_forall. intros a Ha. apply filter_In in Ha.
  destruct Ha as (Ha & _). revert a Ha. apply Forall_forall. exact H.
Qed.

Lemma sound_same_stock (g g' : @Game F) :
  stock g' = stock g -> sound g -> sound g'.
Proof.
  intros E. unfold sound, stocked.
  rewrite (f_equal (fun t => fst (fst (fst t))) E : powerups g' = powerups g).
  rewrite (f_equal (fun t => snd (fst (fst t))) E : bullets g' = bullets g).
  rewrite (f_equal (fun t => snd (fst t)) E : missiles g' = missiles g).
  rewrite (f_equal snd E : enemies g' = enemies g). auto.
Qed.

(** [sound] for a game whose pools are read off member by member: each
    is the pool of a sound game, possibly with new elements at its end. *)
Ltac sound_now Hs :=
  let K := fresh "K" in let B := fresh "B" in
  let M := fresh "M" in let E := fresh "E" in
  pose proof Hs as ((K & B & M) & E);
  unfold sound, stocked; norm_state;
  repeat match goal with |- _ /\ _ => split end;
  try assumption;
  try (apply Forall_app; split; [assumption|]).

Lemma spawnPowerup_sound (x y : F) (g : @Game F) :
  sound g -> wp (spawnPowerup x y) (fun _ g' => sound g') g.
Proof.
  intros Hs. unfold spawnPowerup. wp_go. sound_now Hs.
  repeat constructor; unfold kind_ok; norm_state;
    match goal with |- context [Z.of_N ?x] =>
      pose proof (rem_of_rand x 5 ltac:(lia)) end; lia.
Qed.

Lemma spawnEnemy_sound (type : Z) (g : @Game F) :
  0 <= type <= 3 -> sound g -> wp (spawnEnemy type) (fun _ g' => sound g') g.
Proof.
  intros Ht Hs. unfold spawnEnemy. wp_steps.
  destruct (type =? 0) eqn:E0;
    [|destruct (type =? 1) eqn:E1;
      [|destruct (type =? 2) eqn:E2;
        [|destruct (type =? 3) eqn:E3;
          [|apply Z.eqb_neq in E0, E1, E2, E3; lia]]]];
    wp_steps; sound_now Hs;
    repeat constructor; unfold enemy_ok; norm_state;
    repeat split; intros; lia.
Qed.

Lemma update_timers_stock (g : @Game F) :
  wp update_timers (fun _ g' => stock g' = stock g) g.
Proof.
  unfold update_timers. wp_go. unfold stock. norm_state.
  split_ifs; reflexivity.
Qed.

Lemma playerShoot_sound (g : @Game F) :
  sound g -> wp playerShoot (fun _ g' => sound g') g.
Proof.
  intros Hs. unfold playerShoot. wp_go; sound_now Hs.
  rewrite <- app_assoc. apply Forall_app. split; [assumption|].
  repeat constructor.
Qed.

Lemma move_player_sound (g : @Game F) :
  sound g -> wp move_player (fun _ g' => sound g') g.
Proof.
  intros Hs. unfold move_player. wp_go.
  - apply playerShoot_sound. revert Hs. apply sound_same_stock.
    unfold stock. norm_state. split_ifs; reflexivity.
  - revert Hs. apply sound_same_stock.
    unfold stock. norm_state. split_ifs; reflexivity.
Qed.

Lemma scroll_background_sound (g : @Game F) :
  sound g -> sound (exec scroll_background g).
Proof.
  apply sound_same_stock.
  pose proof (scroll_background_pools g) as E. unfold pools in E.
  unfold stock.
  rewrite (f_equal snd E : powerups _ = powerups g).
  rewrite (f_equal (fun t => snd (fst t)) E : enemies _ = enemies g).
  rewrite (f_equal (fun t => snd (fst (fst t))) E : missiles _ = missiles g).
  rewrite (f_equal (fun t => snd (fst (fst (fst t)))) E
           : bullets _ = bullets g).
  reflexivity.
Qed.

Lemma spawn_enemies_sound (g : @Game F) :
  sound g -> wp spawn_enemies (fun _ g' => sound g') g.
Proof.
  intros Hs. unfold spawn_enemies. wp_go;
    try (apply spawnEnemy_sound;
         [ try match goal with |- context [Z.of_N ?x] =>
             pose proof (rem_of_rand x 3 ltac:(lia));
             pose proof (rem_of_rand x 2 ltac:(lia)) end; lia
         | ]);
    (revert Hs; apply sound_same_stock; reflexivity).
Qed.

Lemma spawn_boss_sound (g : @Game F) :
  sound g -> wp spawn_boss (fun _ g' => sound g') g.
Proof.
  intros Hs. unfold spawn_boss. wp_go;
    try (apply spawnEnemy_sound; [lia|]);
    (revert Hs; apply sound_same_stock; reflexivity).
Qed.

Lemma spawn_powerups_sound (g : @Game F) :
  sound g -> wp spawn_powerups (fun _ g' => sound g') g.
Proof.
  intros Hs. unfold spawn_powerups. wp_steps. wp_branch; wp_steps.
  - sound_now Hs.
    repeat constructor; unfold kind_ok; norm_state;
      match goal with |- context [Int32.rem (Z.of_N ?x mod _) 5] =>
        pose proof (rem_of_rand x 5 ltac:(lia)) end; lia.
  - revert Hs. apply sound_same_stock. reflexivity.
Qed.

Lemma drop_sound (c : bool) (x y : F) (g : @Game F) :
  sound g -> wp (when c (spawnPowerup x y)) (fun _ g' => sound g') g.
Proof.
  intros Hs. destruct c; [apply spawnPowerup_sound; exact Hs|].
  wp_steps. exact Hs.
Qed.

Lemma bullet_vs_enemy_sound (b : Bullet) (e : EnemyJet) (g : @Game F) :
  b_isEnemy b = false /\ b_damage b = 10 -> enemy_ok e -> sound g ->
  wp (bullet_vs_enemy b e)
    (fun r g' =>
       sound g' /\ (b_isEnemy (fst r) = false /\ b_damage (fst r) = 10) /\
       enemy_ok (snd r)) g.
Proof.
  intros (Hown & Hdmg) He Hs. pose proof He as (H1 & H2 & H3).
  unfold bullet_vs_enemy.
  destruct (e_active e) eqn:Hact; cbn [negb]; [|wp_steps; auto].
  specialize (H3 eq_refl).
  destruct (dist2D _ _ _ _ <~ _); [|wp_steps; auto].
  wp_steps. rewrite Hdmg.
  assert (E : Int32.sub (e_hp e) 10 = e_hp e - 10)
    by (apply sub_exact; int_range; lia).
  rewrite E.
  destruct (Z.leb_spec (e_hp e - 10) 0); wp_steps.
  - destruct (e_type e =? 3); wp_steps;
      (eapply wp_weaken;
       [|apply drop_sound; revert Hs; apply sound_same_stock; reflexivity]);
      cbv beta; intros _ g' Hs'; wp_steps;
      (split; [exact Hs'|]); (split; [auto|]);
      unfold enemy_ok; norm_state; repeat split; intros;
      try discriminate; lia.
  - split; [revert Hs; apply sound_same_stock; reflexivity|].
    split; [auto|].
    unfold enemy_ok; norm_state; repeat split; intros; lia.
Qed.

Lemma missile_vs_enemy_sound (m : Missile) (e : EnemyJet) (g : @Game F) :
  m_isEnemy m = false /\ m_damage m = 50 -> enemy_ok e -> sound g ->
  wp (missile_vs_enemy m e)
    (fun r g' =>
       sound g' /\ (m_isEnemy (fst r) = false /\ m_damage (fst r) = 50) /\
       enemy_ok (snd r)) g.
Proof.
  intros (Hown & Hdmg) He Hs. pose proof He as (H1 & H2 & H3).
  unfold missile_vs_enemy.
  destruct (e_active e) eqn:Hact; cbn [negb]; [|wp_steps; auto].
  specialize (H3 eq_refl).
  destruct (dist2D _ _ _ _ <~ _); [|wp_steps; auto].
  wp_steps. rewrite Hdmg.
  assert (E : Int32.sub (e_hp e) 50 = e_hp e - 50)
    by (apply sub_exact; int_range; lia).
  rewrite E.
  destruct (Z.leb_spec (e_hp e - 50) 0); wp_steps.
  - destruct (e_type e =? 3); wp_steps;
      (eapply wp_weaken;
       [|apply drop_sound; revert Hs; apply sound_same_stock; reflexivity]);
      cbv beta; intros _ g' Hs'; wp_steps;
      (split; [exact Hs'|]); (split; [auto|]);
      unfold enemy_ok; norm_state; repeat split; intros;
      try discriminate; lia.
  - split; [revert Hs; apply sound_same_stock; reflexivity|].
    split; [auto|].
    unfold enemy_ok; norm_state; repeat split; intros; lia.
Qed.

Lemma bullet_vs_player_sound (b : Bullet) (g : @Game F) :
  bullet_as_made b -> sound g ->
  wp (bullet_vs_player b) (fun b' g' => sound g' /\ bullet_as_made b') g.
Proof.
  intros Hb Hs. unfold bullet_vs_player. wp_go;
    (split; [revert Hs; apply sound_same_stock; reflexivity | exact Hb]).
Qed.

Lemma missile_vs_player_sound (m : Missile) (g : @Game F) :
  missile_as_made m -> sound g ->
  wp (missile_vs_player m) (fun m' g' => sound g' /\ missile_as_made m') g.
Proof.
  intros Hm Hs. unfold missile_vs_player. wp_go;
    (split; [revert Hs; apply sound_same_stock; reflexivity | exact Hm]).
Qed.

Lemma sound_enemies (g : @Game F) (es : list EnemyJet) :
  sound g -> Forall enemy_ok es -> sound (set_enemies es g).
Proof.
  intros (S1 & _) He. split; [exact S1 | exact He].
Qed.

Lemma update_bullet_sound (b : Bullet) (g : @Game F) :
  bullet_as_made b -> sound g ->
  wp (update_bullet b) (fun b' g' => sound g' /\ bullet_as_made b') g.
Proof.
  intros Hb Hs. unfold update_bullet.
  destruct (b_active b); cbn [negb]; [|wp_steps; auto].
  wp_steps.
  match goal with |- wp (if negb (b_isEnemy ?b1) then _ else _) _ _ =>
    set (bm := b1);
    assert (Hbm : bullet_as_made bm)
      by (subst bm; destruct (bullet_out_of_bounds _); exact Hb);
    clearbody bm end.
  destruct (b_isEnemy bm) eqn:Hown; cbn [negb].
  - apply bullet_vs_player_sound; assumption.
  - apply wp_bind.
    apply (wp_for_each_with_inv sound
             (fun s => b_isEnemy s = false /\ b_damage s = 10) enemy_ok).
    + intros s a g0. apply bullet_vs_enemy_sound.
    + unfold bullet_as_made in Hbm. rewrite Hown in Hbm. auto.
    + apply Hs.
    + exact Hs.
    + intros r g1 (R1 & R2) Hes Hs1. wp_steps.
      split; [apply sound_enemies; assumption|].
      unfold bullet_as_made. rewrite R1. exact R2.
Qed.

Lemma update_bullets_sound (g : @Game F) :
  sound g -> wp update_bullets (fun _ g' => sound g') g.
Proof.
  intros Hs. unfold update_bullets. wp_steps.
  apply (wp_for_each_inv sound bullet_as_made);
    [ apply update_bullet_sound | apply Hs | exact Hs |].
  intros bs g1 Hbs ((K & _ & M) & E). wp_steps.
  unfold sound, stocked. norm_state. auto.
Qed.

Lemma homing_owner (d : F) (es : list EnemyJet) (m : Missile) :
  m_isEnemy (homing d es m) = m_isEnemy m.
Proof.
  unfold homing. destruct (negb (m_isEnemy m) && _); [|reflexivity].
  destruct (homing_target m es); reflexivity.
Qed.

Lemma update_missile_sound (m : Missile) (g : @Game F) :
  missile_as_made m -> sound g ->
  wp (update_missile m) (fun m' g' => sound g' /\ missile_as_made m') g.
Proof.
  intros Hm Hs. unfold update_missile.
  destruct (m_active m); cbn [negb]; [|wp_steps; auto].
  wp_steps.
  destruct (m_life m -~ dt g <=~ #0); [wp_steps; auto|].
  match goal with |- wp (bind (if negb (m_isEnemy ?m1) then _ else _) _) _ _ =>
    set (mm := m1);
    assert (Hmm : missile_as_made mm)
      by (subst mm; unfold missile_as_made in *; norm_state;
          rewrite homing_damage, homing_owner; exact Hm);
    clearbody mm end.
  assert (Hend : forall m' : Missile,
            missile_as_made m' ->
            missile_as_made
              (if missile_out_of_bounds m' then set_m_active false m' else m')).
  { intros m' H. destruct (missile_out_of_bounds m'); exact H. }
  apply wp_bind.
  destruct (m_isEnemy mm) eqn:Hown; cbn [negb].
  - eapply wp_weaken; [|apply missile_vs_player_sound; eassumption].
    cbv beta. intros m' g' (S1 & S2). wp_steps. auto.
  - apply wp_bind.
    apply (wp_for_each_with_inv sound
             (fun s => m_isEnemy s = false /\ m_damage s = 50) enemy_ok).
    + intros s a g0. apply missile_vs_enemy_sound.
    + unfold missile_as_made in Hmm. rewrite Hown in Hmm. auto.
    + apply Hs.
    + exact Hs.
    + intros r g1 (R1 & R2) Hes Hs1. wp_steps.
      split; [apply sound_enemies; assumption|].
      apply Hend. unfold missile_as_made. rewrite R1. exact R2.
Qed.

Lemma update_missiles_sound (g : @Game F) :
  sound g -> wp update_missiles (fun _ g' => sound g') g.
Proof.
  intros Hs. unfold update_missiles. wp_steps.
  apply (wp_for_each_inv sound missile_as_made);
    [ apply update_missile_sound | apply Hs | exact Hs |].
  intros ms g1 Hms ((K & B & _) & E). wp_steps.
  unfold sound, stocked. norm_state. auto.
Qed.

Lemma enemy_move_keeps (d : F) (e : EnemyJet) :
  (e_active (enemy_move d e), e_hp (enemy_move d e), e_maxHp (enemy_move d e),
   e_type (enemy_move d e))
  = (e_active e, e_hp e, e_maxHp e, e_type e).
Proof. unfold enemy_move. split_ifs; reflexivity. Qed.

Lemma enemy_ok_keeps (e e' : @EnemyJet F) :
  (e_hp e', e_maxHp e') = (e_hp e, e_maxHp e) ->
  (e_active e' = true -> e_active e = true) ->
  enemy_ok e -> enemy_ok e'.
Proof.
  intros E Ha (H1 & H2 & H3). injection E as E1 E2.
  unfold enemy_ok. rewrite E1, E2. auto.
Qed.

Lemma enemy_shoot_sound (e : EnemyJet) (g : @Game F) :
  sound g -> wp (enemy_shoot e) (fun _ g' => sound g') g.
Proof.
  intros Hs. unfold enemy_shoot, boss_spread. wp_go; sound_now Hs;
    rewrite <- ?app_assoc; try (apply Forall_app; split; [assumption|]);
    repeat first [apply Forall_nil | apply Forall_cons];
    unfold bullet_as_made, missile_as_made; norm_state;
    split_ifs; auto.
Qed.

Lemma update_enemy_sound (e : EnemyJet) (g : @Game F) :
  enemy_ok e -> sound g ->
  wp (update_enemy e) (fun e' g' => sound g' /\ enemy_ok e') g.
Proof.
  intros He Hs. unfold update_enemy.
  destruct (e_active e) eqn:Hact; cbn [negb]; [|wp_steps; auto].
  wp_steps.
  match goal with |- context [enemy_move ?d ?e1] =>
    pose proof (enemy_move_keeps d e1) as K;
    set (em := enemy_move d e1) in *; clearbody em end.
  norm_state. injection K as K1 K2 K3 K4.
  assert (Hem : enemy_ok em).
  { apply (enemy_ok_keeps e); [congruence | intros _; exact Hact | exact He]. }
  wp_branch; wp_steps.
  - split; [exact Hs|].
    apply (enemy_ok_keeps em); [reflexivity | discriminate | exact Hem].
  - wp_branch; wp_steps.
    + eapply wp_weaken; [|apply enemy_shoot_sound; exact Hs].
      cbv beta. intros _ g' Hs'. wp_steps. split; [exact Hs'|].
      apply (enemy_ok_keeps em); [reflexivity | auto | exact Hem].
    + split; [exact Hs|].
      apply (enemy_ok_keeps em); [reflexivity | auto | exact Hem].
Qed.

Lemma update_enemies_sound (g : @Game F) :
  sound g -> wp update_enemies (fun _ g' => sound g') g.
Proof.
  intros Hs. unfold update_enemies. wp_steps.
  apply (wp_for_each_inv sound enemy_ok);
    [ apply update_enemy_sound | apply Hs | exact Hs |].
  intros es g1 Hes Hs1. wp_steps. apply sound_enemies; assumption.
Qed.

Lemma tidy_sound (g : @Game F) :
  sound g -> sound (exec cleanup (exec update_explosions g)).
Proof.
  intros ((K & B & M) & E).
  change (wp (bind update_explosions (fun _ => cleanup))
            (fun _ g' => sound g') g).
  unfold update_explosions, cleanup. wp_go.
  unfold sound, stocked. norm_state.
  repeat split; try apply Forall_filter; assumption.
Qed.

Lemma update_powerup_sound (pu : PowerUp) (g : @Game F) :
  kind_ok pu -> sound g ->
  wp (update_powerup pu) (fun pu' g' => sound g' /\ kind_ok pu') g.
Proof.
  intros Hk Hs. unfold update_powerup, collect. wp_go;
    (split; [revert Hs; apply sound_same_stock; reflexivity | exact Hk]).
Qed.

Lemma update_powerups_sound (g : @Game F) :
  sound g -> wp update_powerups (fun _ g' => sound g') g.
Proof.
  intros Hs. unfold update_powerups. wp_steps.
  apply (wp_for_each_inv sound kind_ok);
    [ apply update_powerup_sound | apply Hs | exact Hs |].
  intros ps g1 Hps ((_ & B & M) & E). wp_steps.
  unfold sound, stocked. norm_state.
  repeat split; try apply Forall_filter; assumption.
Qed.

Lemma shield_and_level_sound (g : @Game F) :
  sound g -> wp shield_and_level (fun _ g' => sound g') g.
Proof.
  intros Hs. unfold shield_and_level. wp_go.
  revert Hs. apply sound_same_stock. unfold stock. norm_state.
  split_ifs; reflexivity.
Qed.

Lemma updateGame_sound (g : @Game F) : sound g -> sound (exec updateGame g).
Proof.
  intros Hs. unfold updateGame. rewrite !exec_seq.
  apply shield_and_level_sound. apply update_powerups_sound.
  apply tidy_sound. apply update_enemies_sound. apply update_missiles_sound.
  apply update_bullets_sound. apply spawn_powerups_sound.
  apply spawn_boss_sound. apply spawn_enemies_sound.
  apply scroll_background_sound. apply move_player_sound.
  revert Hs. apply sound_same_stock. apply update_timers_stock.
Qed.

Lemma playerFireMissile_sound (g : @Game F) :
  sound g -> wp playerFireMissile (fun _ g' => sound g') g.
Proof.
  intros Hs. unfold playerFireMissile. wp_steps.
  wp_branch; wp_steps; [exact Hs|].
  destruct (fold_left _ _ _) as [[d tx] ty]. wp_steps. sound_now Hs.
  apply Forall_cons; [reflexivity | apply Forall_nil].
Qed.

Lemma bomb_enemy_sound (e : EnemyJet) (g : @Game F) :
  enemy_ok e -> sound g ->
  wp (bomb_enemy e) (fun e' g' => sound g' /\ enemy_ok e') g.
Proof.
  intros He Hs. pose proof He as (H1 & H2 & H3). unfold bomb_enemy.
  destruct (e_active e) eqn:Hact; cbn [negb]; [|wp_steps; auto].
  specialize (H3 eq_refl). wp_steps.
  assert (E : Int32.sub (e_hp e) 150 = e_hp e - 150)
    by (apply sub_exact; int_range; lia).
  rewrite E.
  destruct (Z.leb_spec (e_hp e - 150) 0); wp_steps;
    (split; [revert Hs; apply sound_same_stock; reflexivity|]);
    unfold enemy_ok; norm_state; repeat split; intros;
    try discriminate; lia.
Qed.

Lemma playerBomb_sound (g : @Game F) :
  sound g -> wp playerBomb (fun _ g' => sound g') g.
Proof.
  intros Hs. unfold playerBomb. wp_steps.
  wp_branch; wp_steps; [exact Hs|].
  apply (wp_for_each_inv sound enemy_ok);
    [ apply bomb_enemy_sound | apply Hs
    | revert Hs; apply sound_same_stock; reflexivity |].
  intros es g1 Hes ((K & B & M) & _). wp_steps.
  unfold sound, stocked. norm_state. auto.
Qed.

Lemma restart_sound (g : @Game F) : wp restart (fun _ g' => sound g') g.
Proof.
  unfold restart. wp_go. unfold sound, stocked. norm_state.
  repeat split; apply Forall_nil.
Qed.

Lemma handle_event_sound (ev : Event) (g : @Game F) :
  sound g -> wp (handle_event ev) (fun _ g' => sound g') g.
Proof.
  intros Hs. unfold handle_event, handleTouch, handleTouchUp. wp_steps.
  destruct ev; wp_steps.
  - wp_branch; wp_steps; [apply playerShoot_sound|]; exact Hs.
  - wp_branch; wp_steps; [apply playerFireMissile_sound|]; exact Hs.
  - wp_branch; wp_steps; [apply playerBomb_sound|]; exact Hs.
  - destruct (state g); wp_steps; exact Hs.
  - destruct (state g); wp_go;
      first [ apply playerShoot_sound; exact Hs
            | apply playerFireMissile_sound; exact Hs
            | apply playerBomb_sound; exact Hs
            | apply restart_sound
            | exact Hs ].
  - exact Hs.
Qed.

Lemma handle_events_sound (evs : list Event) : forall g : @Game F,
  sound g -> sound (exec (handle_events evs) g).
Proof.
  induction evs as [|ev evs IH]; intros g Hs; [exact Hs|].
  cbn [handle_events]. rewrite exec_seq. apply IH.
  apply handle_event_sound. exact Hs.
Qed.

Lemma update_sound (g : @Game F) : sound g -> sound (exec update g).
Proof.
  intros Hs.
  change (wp update (fun _ g' => sound g') g).
  unfold update. wp_steps. destruct (state g); wp_steps; try exact Hs.
  apply updateGame_sound. exact Hs.
Qed.

Lemma render_writes_stock (g : @Game F) :
  wp render_writes (fun _ g' => stock g' = stock g) g.
Proof.
  unfold render_writes, renderGame_writes, set_buttons. wp_steps.
  destruct (state g); wp_go; reflexivity.
Qed.

Lemma frame_time_stock (ms : Z) (g : @Game F) :
  wp (frame_time ms) (fun _ g' => stock g' = stock g) g.
Proof.
  unfold frame_time. wp_go. unfold stock. norm_state. split_ifs; reflexivity.
Qed.

(** X23: the pools stay as the source makes them.  If every pickup has a
    kind in [0 .. 4], every bullet and missile the damage the source
    gives it (10 for the guns; 10, 15 or 20 for enemy fire; 50 and 25 for
    missiles), and every enemy [-150 < hp <= maxHp <= 500] with [hp > 0]
    while it is active, then the same holds after a frame, after any
    events, and after a full iteration of the main loop.  No subtraction
    of hit points can then overflow, and the collection [switch] always
    finds its case. *)
Theorem pools_stay_sound (ms : Z) (evs : list Event) (g : @Game F) :
  sound g ->
  sound (exec updateGame g) /\
  sound (exec (handle_events evs) g) /\
  sound (exec (main_loop_iteration ms evs) g).
Proof.
  intros Hs. split; [apply updateGame_sound; exact Hs|].
  split; [apply handle_events_sound; exact Hs|].
  rewrite main_loop_iteration_stages.
  eapply sound_same_stock; [apply render_writes_stock|].
  apply update_sound. apply handle_events_sound.
  revert Hs. apply sound_same_stock. apply frame_time_stock.
Qed.

Lemma repeat_M_rel {A : Type} (R : @Game F -> @Game F -> Prop)
    (m : @M F A) :
  (forall g, R g g) ->
  (forall g1 g2 g3, R g1 g2 -> R g2 g3 -> R g1 g3) ->
  (forall g, R g (snd (m g))) ->
  forall n g, R g (snd (repeat_M n m g)).
Proof.
  intros Hr Ht Hm. induction n as [|n IH]; intros g.
  - apply Hr.
  - cbn [repeat_M]. run. eapply Ht; [apply Hm | apply IH].
Qed.

Lemma wp_repeat_M {A : Type} (R : @Game F -> @Game F -> Prop)
    (n : nat) (m : @M F A) (g : @Game F) (Q : list A -> @Game F -> Prop) :
  (forall g, R g g) ->
  (forall g1 g2 g3, R g1 g2 -> R g2 g3 -> R g1 g3) ->
  (forall g, R g (snd (m g))) ->
  (forall l g', R g g' -> Q l g') ->
  wp (repeat_M n m) Q g.
Proof.
  intros Hr Ht Hm HQ. unfold wp. apply HQ. apply repeat_M_rel; assumption.
Qed.

Lemma main_init_stock (g : @Game F) :
  wp main_init (fun _ g' => stock g' = stock g) g.
Proof.
  unfold main_init, initStars, initClouds, initMountains, initMountain,
    set_buttons.
  wp_steps.
  apply (wp_repeat_M (same stock)); [apply same_refl | apply same_trans | |].
  { intros g1.
    match goal with |- same stock g1 (snd (?m g1)) =>
      change (wp m (fun _ g' => stock g' = stock g1) g1) end.
    wp_go. reflexivity. }
  intros ss g1 R1. wp_steps.
  apply (wp_repeat_M (same stock)); [apply same_refl | apply same_trans | |].
  { intros g2.
    match goal with |- same stock g2 (snd (?m g2)) =>
      change (wp m (fun _ g' => stock g' = stock g2) g2) end.
    wp_go. reflexivity. }
  intros cs g2 R2. wp_go.
  unfold same, stock in *. norm_state. congruence.
Qed.

(** X24: a session starts sound.  The game that [main] builds before its
    loop has sound pools, whatever the generator yields (the four pools
    are in fact empty), and so has the game that the restart touch makes
    of any game in [STATE_GAMEOVER]. *)
Theorem session_starts_sound (r : nat -> N) (tx ty : Z) (g : @Game F) :
  sound (exec main_init (default_Game r)) /\
  stock (exec main_init (default_Game r)) = ([], [], [], []) /\
  (state g = STATE_GAMEOVER -> sound (exec (handle_event (Touch tx ty)) g)).
Proof.
  split; [|split].
  - eapply sound_same_stock; [apply main_init_stock|].
    unfold sound, stocked, default_Game. norm_state.
    repeat split; apply Forall_nil.
  - exact (main_init_stock (default_Game r)).
  - intros E.
    change (wp (handle_event (Touch tx ty)) (fun _ g' => sound g') g).
    unfold handle_event, handleTouch. wp_steps. rewrite E.
    apply restart_sound.
Qed.

(** ** Enemies and the player *)

Lemma update_enemy_beyond (e : EnemyJet) (g : @Game F) :
  same beyond_enemies g (snd (update_enemy e g)).
Proof.
  change (wp (update_enemy e)
            (fun _ g' => beyond_enemies g' = beyond_enemies g) g).
  unfold update_enemy, enemy_shoot, boss_spread. wp_go; reflexivity.
Qed.

(** X25: enemies never touch the player.  The enemy block of a frame
    moves the enemies and lets them fire, and that is all: the player
    record, the session state, the high score, the combo, the pickups,
    the explosions, the boss latch and the clock are after the block what
    they were before it, also when an enemy flies through the player or
    leaves the screen at the bottom. *)
Theorem enemies_never_touch_player (g : @Game F) :
  beyond_enemies (exec update_enemies g) = beyond_enemies g.
Proof.
  change (wp update_enemies
            (fun _ g' => beyond_enemies g' = beyond_enemies g) g).
  unfold update_enemies. wp_steps.
  apply (wp_for_each (same beyond_enemies) (fun _ => True));
    [ apply same_refl | apply same_trans | apply update_enemy_beyond
    | auto |].
  intros es g1 _ _ C. wp_steps. exact C.
Qed.

(** ** Touches and buttons *)

Lemma pointInRect_above (tx ty : Z) (r : SDL_Rect) :
  ty < r_y r -> pointInRect tx ty r = false.
Proof.
  intros H. unfold pointInRect. rewrite (Z.geb_leb ty).
  destruct (Z.leb_spec (r_y r) ty); [lia|].
  rewrite andb_false_r. reflexivity.
Qed.

(** X26: with the buttons where [main] and [drawHUD] put them, a touch
    inside the play area (above [PLAY_H]) during play never presses a
    button: it sets the touch target and the drag flag and changes
    nothing else.  A touch below the play area never steers: target and
    drag flag stay as they are, and so does everything that input never
    touches. *)
Theorem touch_in_play_area_steers (tx ty : Z) (g : @Game F) :
  state g = STATE_PLAYING -> buttons g = buttons (set_buttons g) ->
  (ty < PLAY_H ->
   exec (handle_event (Touch tx ty)) g
   = set_player (set_p_dragging true (player g))
       (set_touchY ty (set_touchX tx g))) /\
  (PLAY_H <= ty ->
   (touchX (exec (handle_event (Touch tx ty)) g),
    touchY (exec (handle_event (Touch tx ty)) g),
    p_dragging (player (exec (handle_event (Touch tx ty)) g)))
   = (touchX g, touchY g, p_dragging (player g))).
Proof.
  intros E Hb. unfold buttons, set_buttons in Hb. norm_state.
  assert (B1 : btnFire g = mkRect (SCREEN_W - 130) (PLAY_H + 80) 100 60)
    by exact (f_equal (fun t => fst (fst (fst t))) Hb).
  assert (B2 : btnMissile g = mkRect (SCREEN_W - 260) (PLAY_H + 90) 80 50)
    by exact (f_equal (fun t => snd (fst (fst t))) Hb).
  assert (B3 : btnBomb g = mkRect 20 (PLAY_H + 90) 80 50)
    by exact (f_equal (fun t => snd (fst t)) Hb).
  assert (B4 : btnPause g = mkRect (SCREEN_W / 2 - 30) (PLAY_H + 88) 60 40)
    by exact (f_equal snd Hb).
  split.
  - intros Hy.
    unfold exec, handle_event, handleTouch, bind, get. cbn [fst snd].
    rewrite E, B1, B2, B3, B4.
    rewrite !pointInRect_above by (cbn [r_y]; lia).
    destruct (Z.ltb_spec ty PLAY_H); [reflexivity | lia].
  - intros Hy.
    change (wp (handle_event (Touch tx ty))
      (fun _ g' =>
         (touchX g', touchY g', p_dragging (player g'))
         = (touchX g, touchY g, p_dragging (player g))) g).
    unfold handle_event, handleTouch. wp_steps. rewrite E.
    assert (Act : forall m : @M F unit,
              wp m (fun _ g' => scene g' = scene g) g ->
              wp m (fun _ g' =>
                      (touchX g', touchY g', p_dragging (player g'))
                      = (touchX g, touchY g, p_dragging (player g))) g).
    { intros m Hm. eapply wp_weaken; [|exact Hm].
      cbv beta. intros _ g' S. exact (proj2 (proj2 (scene_parts _ _ S))). }
    wp_branch; [apply Act, playerShoot_scene|].
    wp_branch; [apply Act, playerFireMissile_scene|].
    wp_branch; [apply Act, playerBomb_scene|].
    wp_branch; [wp_steps; reflexivity|].
    destruct (Z.ltb_spec ty PLAY_H); [lia|]. wp_steps. reflexivity.
Qed.

End Properties.

(** * Concrete runs in single precision *)

Section Runs.

Import Binary32 Scenario.
Local Open Scope float_scope.

(** Closed facts about concrete games are settled by evaluation. *)
Ltac decide_it :=
  vm_compute; repeat split; intros; try reflexivity; try discriminate.

(** C9, witnessed: with the magazine empty the action returns the game it
    was given. *)
Lemma playerFireMissile_no_ammo_witness :
  p_ammo (player out_of_ammo) = 0 /\
  exec playerFireMissile out_of_ammo = out_of_ammo.
Proof.
  split; [reflexivity|].
  exact (proj1 (playerFireMissile_no_ammo out_of_ammo eq_refl)).
Defined.

(** C10, witnessed: an ammunition pickup falling onto the player. *)
Lemma pickup_collected_witness :
  pu_active (fst (update_powerup (pickup 3) started)) = false /\
  p_score (player (snd (update_powerup (pickup 3) started))) = 50 /\
  p_ammo (player (snd (update_powerup (pickup 3) started))) = 15.
Proof.
  pose proof (pickup_collected started (pickup 3)
                ltac:(decide_it) ltac:(decide_it) ltac:(decide_it)
                ltac:(decide_it)) as (H1 & H2 & _ & _ & _ & H3 & _).
  split; [exact H1|]. split; [exact H2|].
  apply H3; decide_it.
Defined.

(** C8, witnessed: a bomb over a basic enemy, an inactive one and a boss. *)
Lemma bomb_damage_conservation_witness :
  p_bombs (player (exec playerBomb bomb_run)) = 2 /\
  Forall2 bombed (enemies bomb_run) (enemies (exec playerBomb bomb_run)) /\
  p_score (player (exec playerBomb bomb_run)) = 100.
Proof.
  apply (bomb_damage_conservation bomb_run).
  - decide_it.
  - decide_it.
  - decide_it.
  - repeat constructor; decide_it.
  - decide_it.
Defined.

(** C1 refuted: one player bullet takes 10 hit points from each of two
    enemies in a single frame, and one player missile takes 50 from each
    of two. *)
Lemma projectile_damages_two_enemies :
  map b_active (bullets two_targets) = [true] /\
  map e_hp (enemies two_targets) = [30; 30] /\
  map e_hp (enemies (exec update_bullets two_targets)) = [20; 20] /\
  map b_active (bullets (exec update_bullets two_targets)) = [false] /\
  map e_hp (enemies two_targets_missile) = [80; 80] /\
  map e_hp (enemies (exec update_missiles two_targets_missile)) = [30; 30] /\
  map m_active (missiles (exec update_missiles two_targets_missile)) = [false].
Proof. decide_it. Qed.

(** C1 as amended, witnessed on the same bullet. *)
Lemma player_projectile_hits_all_in_radius_witness :
  let b := player_bullet 100 135 in
  let g := two_targets in
  Forall2
    (struck (b_x b +~ b_vx b *~ dt g) (b_y b +~ b_vy b *~ dt g) 50 30
       (b_damage b))
    (enemies g) (enemies (snd (update_bullet b g))) /\
  b_active (fst (update_bullet b g)) = false.
Proof.
  intros b g.
  destruct (proj1 (player_projectile_hits_all_in_radius g) b
              ltac:(decide_it) ltac:(decide_it)
              ltac:(repeat constructor; decide_it)) as (H1 & H2).
  split; [exact H1 | apply H2; decide_it].
Defined.

(** C2 refuted: the session already has its boss; a bullet kills it in one
    frame, which clears the latch, and the very next frame spawns a boss
    again, fresh with 500 hit points. *)
Lemma second_boss_in_one_session :
  map e_type (enemies boss_nearly_dead) = [3] /\
  bossAlive boss_nearly_dead = true /\
  enemies (exec updateGame boss_nearly_dead) = [] /\
  bossAlive (exec updateGame boss_nearly_dead) = false /\
  state (exec updateGame (exec updateGame boss_nearly_dead)) = STATE_PLAYING /\
  map (fun e => (e_type e, e_hp e, e_active e))
    (enemies (exec updateGame (exec updateGame boss_nearly_dead)))
    = [(3, 500, true)] /\
  bossAlive (exec updateGame (exec updateGame boss_nearly_dead)) = true.
Proof. decide_it. Qed.

(** C2 as amended, witnessed: past 90 s with the latch clear, the spawn
    step adds a boss. *)
Lemma boss_spawn_follows_latch_witness :
  bossAlive (exec spawn_boss late_no_boss) = true /\
  exists boss : EnemyJet,
    enemies (exec spawn_boss late_no_boss) = enemies late_no_boss ++ [boss] /\
    e_type boss = 3 /\ e_active boss = true /\ e_hp boss = 500.
Proof.
  apply (proj1 (boss_spawn_follows_latch late_no_boss)); decide_it.
Defined.

(** C3 on the missile path: the fatal hit of an enemy missile ends the
    session without recording the score of 5000 as high score, where the
    same hit by a bullet records it; the restart that follows leaves the
    high score at 0. *)
Lemma missile_death_skips_high_score :
  p_score (player last_life_missile) = 5000 /\
  highScore last_life_missile = 0 /\
  state (exec updateGame last_life_missile) = STATE_GAMEOVER /\
  p_lives (player (exec updateGame last_life_missile)) = 0 /\
  p_score (player (exec updateGame last_life_missile)) = 5000 /\
  highScore (exec updateGame last_life_missile) = 0 /\
  highScore
    (exec (handle_event (Touch 360 600)) (exec updateGame last_life_missile))
    = 0 /\
  state (exec updateGame last_life_bullet) = STATE_GAMEOVER /\
  highScore (exec updateGame last_life_bullet) = 5000.
Proof. decide_it. Qed.

(** C4 on the missile path: with the shield up at 50, an enemy missile of
    damage 25 takes its damage from the health and leaves the shield
    alone, where an enemy bullet of damage 20 is absorbed by the shield. *)
Lemma missile_ignores_shield :
  p_shieldActive (player shielded_missile) = true /\
  p_shield (player shielded_missile) = 50 /\
  p_hp (player shielded_missile) = 100 /\
  map m_active (missiles (exec update_missiles shielded_missile)) = [false] /\
  p_shield (player (exec update_missiles shielded_missile)) = 50 /\
  p_hp (player (exec update_missiles shielded_missile)) = 75 /\
  p_shield (player (exec update_bullets shielded_bullet)) = 30 /\
  p_hp (player (exec update_bullets shielded_bullet)) = 100.
Proof. decide_it. Qed.

(** C5: a player missile kills a basic enemy worth 100: the score grows
    by 200 and the kill count by one, but the combo stays at 3 and its
    timer keeps running down from 1 s.  And a bullet kills the boss at
    100 s: the level is 4 before the frame and 4 after it. *)
Lemma missile_kill_leaves_combo :
  combo missile_kill = 3 /\ comboTimer missile_kill = lit 10 10 /\
  enemies (exec updateGame missile_kill) = [] /\
  p_score (player (exec updateGame missile_kill)) = 200 /\
  p_kills (player (exec updateGame missile_kill)) = 1 /\
  combo (exec updateGame missile_kill) = 3 /\
  (comboTimer (exec updateGame missile_kill) <~ lit 10 10) = true /\
  p_level (player boss_nearly_dead) = 4 /\
  enemies (exec updateGame boss_nearly_dead) = [] /\
  p_kills (player (exec updateGame boss_nearly_dead)) = 1 /\
  p_level (player (exec updateGame boss_nearly_dead)) = 4.
Proof. decide_it. Qed.

(** C6 refuted: on the last life with 10 health, a bullet of damage 20
    ends the session and leaves the health at -10. *)
Lemma health_negative_after_fatal_hit :
  p_hp (player last_life_bullet) = 10 /\
  p_lives (player last_life_bullet) = 1 /\
  state (exec updateGame last_life_bullet) = STATE_GAMEOVER /\
  p_hp (player (exec updateGame last_life_bullet)) = -10 /\
  p_ammo (player (snd (update_powerup (pickup 3) started))) = 15.
Proof. decide_it. Qed.

(** C6 as amended, witnessed: a frame in which an enemy bullet hits the
    shield. *)
Lemma counters_kept_by_frame_and_actions_witness :
  counters_ok (player (exec updateGame shielded_bullet)) /\
  alive (player (exec updateGame shielded_bullet)) /\
  counters_ok (player (exec playerFireMissile shielded_bullet)).
Proof.
  assert (W1 : (lit (F := binary32) 5 10 <=~ #0) = false) by reflexivity.
  assert (W2 : (lit (F := binary32) 10 10 <=~ #0) = false) by reflexivity.
  assert (Hc : counters_ok (player shielded_bullet)) by decide_it.
  destruct (counters_kept_by_frame_and_actions W1 W2 shielded_bullet Hc)
    as (H1 & _ & H2 & _).
  destruct H1 as (H1 & H1').
  - decide_it.
  - decide_it.
  - repeat constructor; decide_it.
  - constructor.
  - split; [exact H1|]. split; [apply H1'; decide_it | apply H2; decide_it].
Defined.

(** C7 refuted: the target sits exactly on the missile, and the guidance
    step takes the upward speed from 400 to 340. *)
Lemma coincident_target_changes_velocity :
  m_x coincident_missile = e_x coincident_enemy /\
  m_y coincident_missile = e_y coincident_enemy /\
  m_active coincident_missile = true /\
  m_isEnemy coincident_missile = false /\
  e_active coincident_enemy = true /\
  m_vx coincident_missile = #0 /\
  m_vy coincident_missile = #(-400) /\
  m_vx (homing (lit 5 100) [coincident_enemy] coincident_missile) = #0 /\
  m_vy (homing (lit 5 100) [coincident_enemy] coincident_missile) = #(-340).
Proof. decide_it. Qed.

(** C7 as amended, witnessed on the same missile. *)
Lemma steer_zero_length_witness :
  let m := coincident_missile in
  let t := coincident_enemy in
  let d := lit 5 100 in
  m_vx (steer d m t)
    = m_vx m +~ ((e_x t -~ m_x m) *~ #500 -~ m_vx m) *~ (d *~ #3) /\
  m_vy (steer d m t)
    = m_vy m +~ ((e_y t -~ m_y m) *~ #500 -~ m_vy m) *~ (d *~ #3).
Proof.
  cbv zeta.
  pose proof (steer_zero_length (lit 5 100) coincident_missile
                coincident_enemy) as H.
  cbv zeta in H. destruct H as (H1 & H2 & _).
  - decide_it.
  - split; [exact H1 | exact H2].
Defined.

(** The frames run above reach no call of [sinf], [cosf] or [atan2f], and
    what was read off them does not depend on [abs] either: the same
    values come out whatever the math library computes. *)
Lemma frames_whatever_the_math_library (lm : Libm binary32) :
  let frame := exec (updateGame (LM := lm)) in
  (enemies (frame boss_nearly_dead) = [] /\
   bossAlive (frame boss_nearly_dead) = false /\
   state (frame (frame boss_nearly_dead)) = STATE_PLAYING /\
   map (fun e => (e_type e, e_hp e, e_active e))
     (enemies (frame (frame boss_nearly_dead))) = [(3, 500, true)] /\
   bossAlive (frame (frame boss_nearly_dead)) = true /\
   p_level (player (frame boss_nearly_dead)) = 4) /\
  (state (frame last_life_missile) = STATE_GAMEOVER /\
   highScore (frame last_life_missile) = 0 /\
   highScore (frame last_life_bullet) = 5000 /\
   p_hp (player (frame last_life_bullet)) = -10) /\
  (p_score (player (frame missile_kill)) = 200 /\
   p_kills (player (frame missile_kill)) = 1 /\
   combo (frame missile_kill) = 3 /\
   (comboTimer (frame missile_kill) <~ lit 10 10) = true).
Proof. decide_it. Qed.

(** X3, witnessed: a frame in which the player is dragged toward the top
    left corner. *)
Lemma player_stays_in_play_area_witness :
  between #40 #(SCREEN_W - 40) (p_x (player (exec updateGame dragged))) /\
  between #60 #(PLAY_H - 80) (p_y (player (exec updateGame dragged))).
Proof. apply (player_stays_in_play_area dragged); decide_it. Defined.

(** X6, witnessed: an iteration with a pause, a touch and a shot. *)
Lemma win_is_never_entered_witness :
  state started = STATE_PLAYING /\
  state (exec (main_loop_iteration 16 [KeyP; Touch 360 600; KeySpace]) started)
  <> STATE_WIN.
Proof.
  split; [reflexivity|]. apply win_is_never_entered. decide_it.
Defined.

(** X7, witnessed: a whole second since the previous iteration. *)
Lemma frame_time_is_capped_witness :
  (dt (exec (main_loop_iteration 1000 [KeySpace]) started) >~ lit 5 100)
  = false.
Proof. apply frame_time_is_capped. decide_it. Defined.

(** X9, witnessed: the touch after the fatal bullet; the high score of
    5000 that the bullet recorded is still there. *)
Lemma restart_resets_session_witness :
  state ended = STATE_GAMEOVER /\
  highScore ended = 5000 /\
  state (exec (handle_event (Touch 360 600)) ended) = STATE_PLAYING /\
  highScore (exec (handle_event (Touch 360 600)) ended) = highScore ended /\
  player (exec (handle_event (Touch 360 600)) ended)
  = initPlayer (player ended).
Proof.
  assert (H : state ended = STATE_GAMEOVER) by decide_it.
  pose proof (restart_resets_session 360 600 ended H) as R.
  cbv zeta in R. destruct R as (R1 & _ & _ & _ & _ & R2 & _ & R3 & _).
  split; [exact H|]. split; [decide_it|].
  split; [exact R1|]. split; [exact R3 | exact R2].
Defined.

(** X10, witnessed on the game as the first touch leaves it. *)
Lemma pause_and_resume_witness :
  exec (handle_event KeyP) (exec update (exec (handle_event KeyP) started))
  = started /\
  exec (handle_event (Touch 360 600))
    (exec update (exec (handle_event KeyP) started))
  = started.
Proof.
  assert (H : state started = STATE_PLAYING) by decide_it.
  exact (proj2 (pause_and_resume 360 600 started H)).
Defined.

(** X11, witnessed: the cooldown of 0.15 s. *)
Lemma playerShoot_twice_fires_once_witness :
  length (bullets (exec playerShoot started)) = 2%nat /\
  exec playerShoot (exec playerShoot started) = exec playerShoot started.
Proof.
  split; [decide_it|].
  refine (proj1 (playerShoot_twice_fires_once started _)). decide_it.
Defined.

(** X13, witnessed: the boss is around. *)
Lemma no_spawn_while_boss_latch_set_witness :
  enemies (exec spawn_boss (exec spawn_enemies boss_before_bomb))
  = enemies boss_before_bomb /\
  bossAlive (exec spawn_boss (exec spawn_enemies boss_before_bomb)) = true.
Proof. apply no_spawn_while_boss_latch_set. decide_it. Defined.

(** X14, witnessed: the first spawn of a session is a Basic enemy. *)
Lemma spawn_enemies_archetype_witness :
  enemySpawnTimer (exec spawn_enemies spawn_due) = #0 /\
  exists e,
    enemies (exec spawn_enemies spawn_due) = enemies spawn_due ++ [e] /\
    e_active e = true /\ e_type e = 0 /\ (e_hp e, e_score e) = (30, 100).
Proof.
  assert (H1 : (enemySpawnTimer spawn_due +~ dt spawn_due
                >=~ fmax (lit 5 10)
                      (enemySpawnInterval spawn_due
                       -~ gameTime spawn_due *~ lit 2 100)) = true)
    by decide_it.
  assert (H2 : bossAlive spawn_due = false) by decide_it.
  destruct (spawn_enemies_archetype spawn_due H1 H2)
    as (T & e & E1 & E2 & _ & _ & _ & E3 & _ & E4).
  split; [exact T|]. exists e.
  assert (E5 : e_type e = 0) by (apply E4; decide_it).
  rewrite E5 in E3. auto.
Defined.

(** X15, witnessed: the first missile of a session, with no enemy in
    sight. *)
Lemma playerFireMissile_launch_witness :
  exists m,
    missiles (exec playerFireMissile started) = missiles started ++ [m] /\
    p_ammo (player (exec playerFireMissile started))
    = p_ammo (player started) - 1 /\
    (m_targetX m, m_targetY m) = (p_x (player started), #(-100)).
Proof.
  assert (H1 : 0 < p_ammo (player started)) by decide_it.
  assert (H2 : p_ammo (player started) <= Int32.max_int) by decide_it.
  destruct (playerFireMissile_launch started H1 H2)
    as (m & M1 & M2 & _ & _ & M3 & _).
  exists m. split; [exact M1|]. split; [exact M2|].
  apply M3. constructor.
Defined.

(** X16, witnessed: one enemy, and it is the target. *)
Lemma homing_target_is_active_witness :
  In coincident_enemy [coincident_enemy] /\
  e_active coincident_enemy = true.
Proof.
  apply (homing_target_is_active coincident_missile). decide_it.
Defined.

(** X17, witnessed: the only enemy of the pool is inactive. *)
Lemma homing_without_target_witness :
  homing (lit 5 100) [wreck] (player_missile 100 500)
  = player_missile 100 500.
Proof.
  apply homing_without_target. left. repeat constructor.
Defined.

(** X18, witnessed: the bullet that would have been fatal. *)
Lemma invulnerable_through_collisions_witness :
  vital (exec update_bullets under_fire) = vital under_fire /\
  vital (exec update_missiles under_fire) = vital under_fire.
Proof. apply invulnerable_through_collisions. decide_it. Defined.

(** X19, witnessed: 10 health, three lives, and a bullet of damage 20. *)
Lemma life_lost_and_respawn_witness :
  p_lives (player (snd (bullet_vs_player (enemy_bullet 360 1070 20) wounded)))
  = Int32.sub (p_lives (player wounded)) 1 /\
  p_hp (player (snd (bullet_vs_player (enemy_bullet 360 1070 20) wounded)))
  = p_maxHp (player wounded) /\
  state (snd (bullet_vs_player (enemy_bullet 360 1070 20) wounded))
  = state wounded.
Proof.
  assert (H1 : (p_invTimer (player wounded) <=~ #0) = true) by decide_it.
  assert (H2 : 0 < Int32.sub (p_lives (player wounded)) 1) by decide_it.
  destruct (life_lost_and_respawn wounded H1 H2) as (HB & _).
  pose proof (HB (enemy_bullet 360 1070 20)) as R. cbv zeta in R.
  destruct R as (_ & R1 & R2 & _ & R3 & _).
  - decide_it.
  - decide_it.
  - decide_it.
  - split; [exact R1|]. split; [exact R2 | exact R3].
Defined.

(** X20, witnessed: the last 10 hit points of a Basic enemy, no combo. *)
Lemma gun_kill_accounting_witness :
  let r := bullet_vs_enemy (player_bullet 100 100) (basic_enemy 100 110 10)
             started in
  e_active (snd (fst r)) = false /\
  p_score (player (snd r))
  = p_score (player started) + 100 * (1 + combo started / 5) /\
  combo (snd r) = combo started + 1.
Proof.
  cbv zeta.
  pose proof (gun_kill_accounting (player_bullet 100 100)
                (basic_enemy 100 110 10) started) as R.
  cbv zeta in R. destruct R as (_ & R1 & R2 & _ & R3 & _).
  - decide_it.
  - decide_it.
  - decide_it.
  - decide_it.
  - decide_it.
  - decide_it.
  - decide_it.
  - split; [exact R1|]. split; [exact R2 | exact R3].
Defined.

(** X23, witnessed: one player bullet and two Basic enemies. *)
Lemma pools_stay_sound_witness :
  sound two_targets /\
  sound (exec updateGame two_targets) /\
  sound (exec (main_loop_iteration 16 [KeySpace; KeyM; KeyB]) two_targets).
Proof.
  assert (H : sound two_targets).
  { unfold sound, stocked.
    repeat first [apply Forall_nil | apply Forall_cons | split]; decide_it. }
  destruct (pools_stay_sound 16 [KeySpace; KeyM; KeyB] two_targets H)
    as (H1 & _ & H3).
  split; [exact H|]. split; [exact H1 | exact H3].
Defined.

(** X26, witnessed: a touch in the upper left of the play area. *)
Lemma touch_in_play_area_steers_witness :
  exec (handle_event (Touch 100 200)) started
  = set_player (set_p_dragging true (player started))
      (set_touchY 200 (set_touchX 100 started)).
Proof.
  assert (H1 : state started = STATE_PLAYING) by decide_it.
  assert (H2 : buttons started = buttons (set_buttons started)) by decide_it.
  apply (proj1 (touch_in_play_area_steers 100 200 started H1 H2)).
  decide_it.
Defined.

(** X28, witnessed: the label of the health bar. *)
Lemma drawPixelText_in_box_witness :
  PixelFont.glyph (Ascii.ascii_of_nat 72) = Some [5; 5; 7; 5; 5] /\
  Forall
    (PixelFont.in_box 12 1292 3 (4 * 3 * Z.of_nat (length hp_label) - 3))
    (PixelFont.drawPixelText hp_label 12 1292 3) /\
  (length (PixelFont.drawPixelText hp_label 12 1292 3)
   <= 15 * length hp_label)%nat.
Proof.
  split; [reflexivity|].
  apply (drawPixelText_in_box hp_label 12 1292 3); decide_it.
Defined.

End Runs.
